(** * Html5Qrcode: viewfinder geometry, frame sampling and scanner lifecycle

    A shallow embedding of [src/html5-qrcode.js].

    Numbers.  Every quantity the scanner computes with is a JavaScript
    Number obtained from integer DOM dimensions ([clientWidth],
    [videoWidth], [Image.width], ...) by [+], [-], [*] and [/].  A finite
    Number is embedded as the rational [Q] it denotes; equalities between
    computed numbers are stated with [==] (equality of rationals).  The
    viewfinder geometry and the frame sampler are stated over exact
    rationals.  The still-image layout, whose quotients are not whole
    numbers, is computed with the operations of [Double], which round to
    the nearest binary64 number as the engine does; [Fit] is the same
    computation without rounding.  [NaN] and [Infinity] are not part of the
    model; every division below is stated for a non-zero divisor.

    Effects.  The scanner object, the container element and the timer queue
    are threaded explicitly as one record; the calls that leave the class
    (camera acquisition, [drawImage], the decoder, timers, promise
    settlement) are appended to a log. *)

From Stdlib Require Import QArith Qround Qabs Qpower Qreduction Qfield Lqa Lia.
From Stdlib Require Import List String Bool ZArith.
Import ListNotations.

Open Scope Q_scope.

(** ** Numbers *)

(** [a > b] and [a < b] of the source, as booleans. *)
Definition Qgtb (a b : Q) : bool := negb (Qle_bool a b).
Definition Qltb (a b : Q) : bool := negb (Qle_bool b a).

(** JavaScript truthiness of a number: [0] is falsy. *)
Definition truthy (a : Q) : bool := negb (Qeq_bool a 0).

(** ** Double-precision arithmetic

    A JavaScript Number is an IEEE-754 binary64 value.  The finite ones are
    the rationals [m * 2^e] with [|m| < 2^53] and [-1074 <= e <= 971]; an
    arithmetic operation gives the exact result rounded to the nearest of
    them, ties going to the one with an even [m].  A result beyond the
    largest of them is [Infinity] in the engine and is outside this model,
    which rounds as if the exponent had no upper bound: the computations
    below are stated for finite positive arguments, and what they round is
    a quotient below 1 or a product, a difference or a half that is at
    most one of the arguments. *)
Module Double.

(** [2^e] for any integer [e]. *)
Definition pow2 (e : Z) : Q := 2 ^ e.

(** The integer [l] with [2^l <= x < 2^(l+1)], for [x > 0]. *)
Definition ilog2 (x : Q) : Z :=
  let k := (Z.log2 (Qnum x) - Z.log2 (Zpos (Qden x)))%Z in
  if Qle_bool (pow2 k) x then k else (k - 1)%Z.

(** The exponent of the unit in the last place of the numbers around [x]:
    53 significant bits, and never below the smallest subnormal's. *)
Definition ulpExponent (x : Q) : Z := Z.max (ilog2 (Qabs x) - 52) (-1074).

(** The nearest integer, a tie going to the even one. *)
Definition nearestEven (s : Q) : Z :=
  let f := Qfloor s in
  match (s - inject_Z f ?= 1 # 2)%Q with
  | Lt => f
  | Gt => (f + 1)%Z
  | Eq => if Z.even f then f else (f + 1)%Z
  end.

(** Rounding to the nearest binary64 number; the result is in lowest
    terms. *)
Definition round (x : Q) : Q :=
  let x := Qred x in
  let e := ulpExponent x in
  Qred (inject_Z (nearestEven (x / pow2 e)) * pow2 e).

(** The largest binary64 number, [(2^53 - 1) * 2^971]. *)
Definition maxValue : Q := inject_Z (2 ^ 53 - 1) * pow2 971.

(** [x] is a finite binary64 number. *)
Definition representable (x : Q) : Prop :=
  round x == x /\ Qabs x <= maxValue.

(** The largest relative error of one rounding of a normal number,
    [2^-53]. *)
Definition unitRoundoff : Q := 1 # 9007199254740992.

(** [a - b], [a * b] and [a / b] of the source. *)
Definition sub (a b : Q) : Q := round (a - b).
Definition mul (a b : Q) : Q := round (a * b).
Definition div (a b : Q) : Q := round (a / b).

End Double.

(** ** Rectangles *)

(** The object literal [{x, y, width, height}] used for the viewfinder
    region and for the still-image layout. *)
Module Region.
Record t : Type := mk {
  x : Q;
  y : Q;
  width : Q;
  height : Q
}.
End Region.

Module Html5Qrcode.

(** Class constants. *)
Definition DEFAULT_WIDTH : Q := 300.
Definition DEFAULT_WIDTH_OFFSET : Q := 2.
Definition SCAN_DEFAULT_FPS : Q := 2.
Definition MIN_QR_BOX_SIZE : Q := 50.
Definition SHADED_LEFT : Z := 1%Z.
Definition SHADED_RIGHT : Z := 2%Z.
Definition SHADED_TOP : Z := 3%Z.
Definition SHADED_BOTTOM : Z := 4%Z.
Definition SHADED_REGION_CLASSNAME : string := "qr-shaded-region".

(** [_getTimeoutFps]. *)
Definition _getTimeoutFps (fps : Q) : Q := 1000 / fps.

End Html5Qrcode.

(** ** Containment fit (still-image path)

    [computeCanvasDrawConfig] read over the rationals, every quotient and
    product exact.  The function as the engine computes it, in double
    precision, is [StillImage.computeCanvasDrawConfig] below. *)

Module Fit.

(** The guard of [computeCanvasDrawConfig]:
    [imageWidth <= containerWidth && imageHeight <= containerHeight]. *)
Definition fits (imageWidth imageHeight containerWidth containerHeight : Q)
  : bool :=
  Qle_bool imageWidth containerWidth && Qle_bool imageHeight containerHeight.

(** The [else] branch up to the recursive call: the two successive
    reassignments of [imageWidth] and [imageHeight]. *)
Definition downsample
  (imageWidth imageHeight containerWidth containerHeight : Q) : Q * Q :=
  let '(imageWidth, imageHeight) :=
    if Qgtb imageWidth containerWidth
    then (containerWidth, (containerWidth / imageWidth) * imageHeight)
    else (imageWidth, imageHeight) in
  let '(imageWidth, imageHeight) :=
    if Qgtb imageHeight containerHeight
    then ((containerHeight / imageHeight) * imageWidth, containerHeight)
    else (imageWidth, imageHeight) in
  (imageWidth, imageHeight).

(** [computeCanvasDrawConfig].  The source recurses without a decreasing
    argument; [depth] bounds the number of nested activations, and [None]
    means that [depth] activations did not reach the base case. *)
Fixpoint computeCanvasDrawConfig (depth : nat)
  (imageWidth imageHeight containerWidth containerHeight : Q)
  : option Region.t :=
  match depth with
  | O => None
  | S depth' =>
    if fits imageWidth imageHeight containerWidth containerHeight then
      let xoffset := (containerWidth - imageWidth) / 2 in
      let yoffset := (containerHeight - imageHeight) / 2 in
      Some (Region.mk xoffset yoffset imageWidth imageHeight)
    else
      let '(imageWidth, imageHeight) :=
        downsample imageWidth imageHeight containerWidth containerHeight in
      computeCanvasDrawConfig depth'
        imageWidth imageHeight containerWidth containerHeight
  end.

(** Container dimensions as [scanFile]'s [onload] handler derives them from
    the element and the loaded image. *)
Definition containerWidthOf (clientWidth : Q) : Q :=
  if truthy clientWidth then clientWidth else Html5Qrcode.DEFAULT_WIDTH.
Definition containerHeightOf (clientHeight imageHeight : Q) : Q :=
  if truthy clientHeight then clientHeight else imageHeight.

End Fit.

(** ** Errors *)

(** A JavaScript call either returns or throws; every [throw] of the source
    throws a string. *)
Inductive outcome (A : Type) : Type :=
| Return (a : A)
| Throw (msg : string).
Arguments Return {A} a.
Arguments Throw {A} msg.

(** ** Viewfinder geometry *)

Module Shading.

(** The horizontal placement of an absolutely positioned element: the
    source sets either [style.left] or [style.right]. *)
Inductive HAnchor : Type :=
| StyleLeft (px : Q)
| StyleRight (px : Q).

(** The [div] built by [_createShadedElement]: class name, id suffix and the
    final values of the style properties. *)
Record ShadedElement : Type := mkShaded {
  className : string;
  idSuffix : Z;
  background : string;
  styleTop : Q;
  styleAnchor : HAnchor;
  styleWidth : Q;
  styleHeight : Q
}.

(** [_getShadedRegionBounds]. *)
Definition _getShadedRegionBounds (width height qrboxSize : Q)
  : outcome Region.t :=
  if Qgtb qrboxSize width || Qgtb qrboxSize height then
    Throw ("'config.qrbox' should not be greater than the "
           ++ "width and height of the HTML element.")
  else
    Return (Region.mk ((width - qrboxSize) / 2)
                     ((height - qrboxSize) / 2)
                     qrboxSize
                     qrboxSize).

(** [_createShadedElement].  The height set before the [switch] is
    overwritten in every case that returns. *)
Definition _createShadedElement (height : Q) (qrRegion : Region.t)
  (shadingPosition : Z) : outcome ShadedElement :=
  let elem (top : Q) (anchor : HAnchor) (w h : Q) :=
    Return {| className := Html5Qrcode.SHADED_REGION_CLASSNAME;
              idSuffix := shadingPosition;
              background := "#0000007a";
              styleTop := top; styleAnchor := anchor;
              styleWidth := w; styleHeight := h |} in
  if (shadingPosition =? Html5Qrcode.SHADED_LEFT)%Z then
    elem 0 (StyleLeft 0) (Region.x qrRegion) height
  else if (shadingPosition =? Html5Qrcode.SHADED_RIGHT)%Z then
    elem 0 (StyleRight 0) (Region.x qrRegion) height
  else if (shadingPosition =? Html5Qrcode.SHADED_TOP)%Z then
    elem 0 (StyleLeft (Region.x qrRegion)) (Region.width qrRegion) (Region.y qrRegion)
  else if (shadingPosition =? Html5Qrcode.SHADED_BOTTOM)%Z then
    let top := Region.y qrRegion + Region.height qrRegion in
    elem top (StyleLeft (Region.x qrRegion)) (Region.width qrRegion) (Region.y qrRegion)
  else
    Throw "Unsupported shadingPosition".

(** Elements appended, in order, by a sequence of
    [element.append(this._createShadedElement(...))] statements. *)
Fixpoint appendShaded (height : Q) (qrRegion : Region.t)
  (positions : list Z) : outcome (list ShadedElement) :=
  match positions with
  | [] => Return []
  | p :: rest =>
    match _createShadedElement height qrRegion p with
    | Throw m => Throw m
    | Return e =>
      match appendShaded height qrRegion rest with
      | Throw m => Throw m
      | Return es => Return (e :: es)
      end
    end
  end.

(** [_possiblyInsertShadingElement]: the elements it appends to the
    container. *)
Definition _possiblyInsertShadingElement (height : Q) (qrRegion : Region.t)
  : outcome (list ShadedElement) :=
  if Qeq_bool (Region.x qrRegion) 0 && Qeq_bool (Region.y qrRegion) 0 then
    Return []
  else
    appendShaded height qrRegion
      [Html5Qrcode.SHADED_LEFT; Html5Qrcode.SHADED_RIGHT;
       Html5Qrcode.SHADED_TOP; Html5Qrcode.SHADED_BOTTOM].

(** *** Rendering

    Pixels are points of the plane; a box occupies the half-open rectangle
    [[left, left + width) x [top, top + height)], so that boxes sharing an
    edge share no point. *)
Record Box : Type := mkBox {
  boxLeft : Q;
  boxTop : Q;
  boxWidth : Q;
  boxHeight : Q
}.

Definition inBox (b : Box) (px py : Q) : bool :=
  Qle_bool (boxLeft b) px && Qltb px (boxLeft b + boxWidth b)
  && Qle_bool (boxTop b) py && Qltb py (boxTop b + boxHeight b).

(** Where CSS puts an absolutely positioned element inside a container of
    the given width: [right: r] places the right edge [r] pixels left of the
    container's right edge. *)
Definition layout (containerWidth : Q) (e : ShadedElement) : Box :=
  match styleAnchor e with
  | StyleLeft l =>
    {| boxLeft := l; boxTop := styleTop e;
       boxWidth := styleWidth e; boxHeight := styleHeight e |}
  | StyleRight r =>
    {| boxLeft := containerWidth - r - styleWidth e; boxTop := styleTop e;
       boxWidth := styleWidth e; boxHeight := styleHeight e |}
  end.

Definition regionBox (r : Region.t) : Box :=
  {| boxLeft := Region.x r; boxTop := Region.y r;
     boxWidth := Region.width r; boxHeight := Region.height r |}.

Definition viewfinderBox (width height : Q) : Box :=
  {| boxLeft := 0; boxTop := 0; boxWidth := width; boxHeight := height |}.

(** The point is covered by one of the shading elements. *)
Definition shaded (containerWidth : Q) (es : list ShadedElement)
  (px py : Q) : bool :=
  existsb (fun e => inBox (layout containerWidth e) px py) es.

End Shading.

(** ** Device enumeration *)

Module Devices.

(** A [MediaDeviceInfo] as far as [getCameras] reads it. *)
Record MediaDeviceInfo : Type := mkDevice {
  kind : string;
  deviceId : string;
  label : string
}.

(** A source of the older [MediaStreamTrack.getSources] interface. *)
Record SourceInfo : Type := mkSource {
  sourceKind : string;
  sourceId : string;
  sourceLabel : string
}.

(** The result objects [{id, label}]. *)
Record Camera : Type := mkCamera {
  id : string;
  cameraLabel : string
}.

(** A platform promise either fulfils or fails with an error that has a
    [name] and a [message]. *)
Inductive Answer (A : Type) : Type :=
| Fulfilled (a : A)
| Failed (name message : string).
Arguments Fulfilled {A} a.
Arguments Failed {A} name message.

(** What the platform offers and answers.  Where [navigator.mediaDevices]
    lacks one of the three members the code tests, it reads the global
    [MediaStreamTrack]: [LegacySources] is a platform where it has
    [getSources], [Unsupported] one where the global exists and is falsy or
    has no [getSources], [Undeclared] one where the global is not declared,
    so that reading it throws a [ReferenceError] with the engine's
    message. *)
Inductive Navigator : Type :=
| MediaDevices (permission : Answer unit)
               (enumerated : Answer (list MediaDeviceInfo))
| LegacySources (sourceInfos : list SourceInfo)
| Unsupported
| Undeclared (message : string).

(** How a promise settles: resolved, rejected with a string, or rejected
    with an error object thrown inside its executor. *)
Inductive Settled (A : Type) : Type :=
| Resolved (a : A)
| Rejected (reason : string)
| RejectedError (name message : string).
Arguments Resolved {A} a.
Arguments Rejected {A} reason.
Arguments RejectedError {A} name message.

(** The [for] loop over [devices]: [i] is the loop index, [results] the
    array being filled by [push], [steps] the iterations still allowed (the
    loop runs [devices.length] of them from [i = 0]). *)
Fixpoint collect (steps : nat) (devices : list MediaDeviceInfo) (i : nat)
  (results : list Camera) : list Camera :=
  match steps with
  | O => results
  | S steps' =>
    match nth_error devices i with
    | None => results
    | Some device =>
      let results :=
        if String.eqb (kind device) "videoinput"
        then results ++ [{| id := deviceId device;
                            cameraLabel := label device |}]
        else results in
      collect steps' devices (S i) results
    end
  end.

(** The loop of the [MediaStreamTrack.getSources] callback. *)
Fixpoint collectSources (steps : nat) (sourceInfos : list SourceInfo)
  (i : nat) (results : list Camera) : list Camera :=
  match steps with
  | O => results
  | S steps' =>
    match nth_error sourceInfos i with
    | None => results
    | Some sourceInfo =>
      let results :=
        if String.eqb (sourceKind sourceInfo) "video"
        then results ++ [{| id := sourceId sourceInfo;
                            cameraLabel := sourceLabel sourceInfo |}]
        else results in
      collectSources steps' sourceInfos (S i) results
    end
  end.

(** [getCameras]: how the returned promise settles. *)
Definition getCameras (navigator : Navigator) : Settled (list Camera) :=
  match navigator with
  | MediaDevices permission enumerated =>
    match permission with
    | Failed name message => Rejected (name ++ " : " ++ message)
    | Fulfilled _ =>
      match enumerated with
      | Failed name message => Rejected (name ++ " : " ++ message)
      | Fulfilled devices =>
        Resolved (collect (List.length devices) devices 0%nat [])
      end
    end
  | LegacySources sourceInfos =>
    Resolved (collectSources (List.length sourceInfos) sourceInfos 0%nat [])
  | Unsupported => Rejected "unable to query supported devices."
  | Undeclared message => RejectedError "ReferenceError" message
  end.

(** The result as the documentation words it: the video input devices, in
    the order of the enumeration, each as [{id, label}].  [getCameras] is
    compared with it below. *)
Definition isVideoInput (device : MediaDeviceInfo) : bool :=
  String.eqb (kind device) "videoinput".

Definition toCamera (device : MediaDeviceInfo) : Camera :=
  {| id := deviceId device; cameraLabel := label device |}.

Definition videoInputs (devices : list MediaDeviceInfo) : list Camera :=
  map toCamera (filter isVideoInput devices).

End Devices.

(** ** The scanner and its page *)

Module Scanner.

(** A camera stream: its identity and the number of its video tracks. *)
Record MediaStream : Type := mkStream {
  streamId : nat;
  videoTracks : nat
}.

(** A user-supplied [File]. *)
Definition File : Type := nat.

(** A callback handed to [start]: [console.log] or a function of the
    caller. *)
Inductive Callback : Type :=
| ConsoleLog
| UserFunction (f : nat).

(** What the browser reports for the video element when it is read. *)
Record VideoMetrics : Type := mkMetrics {
  videoWidth : Q;
  videoHeight : Q;
  videoClientWidth : Q;
  videoClientHeight : Q
}.

(** Elements created by the class. *)
Inductive Element : Type :=
| Video (styleWidth : Q) (muted playsInline : bool) (srcObject : MediaStream)
| Canvas (canvasId : string) (styleWidth styleHeight : Q) (display : string)
         (bitmapWidth bitmapHeight : Z)
| Shaded (e : Shading.ShadedElement).

(** A DOM node: elements are compared by identity. *)
Record Node : Type := mkNode {
  nodeId : nat;
  element : Element
}.

(** What [navigator] offers to [start]. *)
Inductive Navigator : Type :=
| MediaDevicesGetUserMedia
| LegacyGetUserMedia
| NoGetUserMedia.

(** The [configuration] argument of [start]. *)
Record Config : Type := mkConfig {
  fps : option Q;
  qrbox : option Q
}.

(** The variables of one [start] call that its local functions [setupUi],
    [foreverScan] and [onMediaStreamReceived] close over: the merged
    [config], [isShadedBoxEnabled], [width] and [qrCodeErrorCallback];
    [startId] names the call and the promise it returns. *)
Record StartEnv : Type := mkEnv {
  startId : nat;
  configFps : Q;
  configQrbox : option Q;
  isShadedBoxEnabled : bool;
  elementWidth : Q;
  qrCodeErrorCallback : Callback
}.

(** The outcome of one [qrcode.decode()] call. *)
Inductive Decoded : Type :=
| DecodeReturns
| DecodeThrows (exception : string).

(** Calls that leave the class and markers of handler entry, in the order
    they happen. *)
Inductive Event : Type :=
| GetUserMedia (legacy : bool) (cameraId : string) (k : nat)
| VideoPlay (k : nat)
| Playing (k : nat)
| Warn (msg : string)
| SetupUi (k : nat) (qrRegion : Region.t)
| LoopStart (k : nat)
| DrawImage (sx sy sWidth sHeight dx dy dWidth dHeight : Q)
| Decode
| ErrorCallback (f : Callback) (msg : string)
| SetTimeout (timer : nat) (delay : Q)
| ClearTimeout (timer : option nat)
| TrackStop
| StartResolved (k : nat)
| StartRejected (k : nat) (reason : string)
| StopResolved
| StopRejected (reason : string)
| RevokeObjectURL (f : File)
| ImageSrc (f : File)
| Uncaught (msg : string).

(** The scanner object ([this], fields with a leading underscore), the
    container element it is attached to, the [qrcode.callback] global, and
    the pending work of the event loop: timers, camera requests and video
    elements with listeners, each with the closure that will run. *)
Record World : Type := mkWorld {
  _foreverScanTimeout : option nat;
  _localMediaStream : option MediaStream;
  _shouldScan : bool;
  _isScanning : bool;
  _qrRegion : option Region.t;
  _context : option Node;
  _canvasElement : option Node;
  _videoElement : option Node;
  _lastScanImageFile : option File;
  navigator : Navigator;
  clientWidth : Q;
  children : list Node;
  position : string;
  callback : option Callback;
  timers : list (nat * StartEnv);
  requests : list StartEnv;
  videos : list StartEnv;
  settled : list nat;
  fresh : nat;
  log : list Event
}.

Definition set_foreverScanTimeout (v : option nat) (w : World) : World :=
  mkWorld v (_localMediaStream w) (_shouldScan w) (_isScanning w)
    (_qrRegion w) (_context w) (_canvasElement w) (_videoElement w)
    (_lastScanImageFile w) (navigator w) (clientWidth w) (children w)
    (position w) (callback w) (timers w) (requests w) (videos w) (settled w)
    (fresh w) (log w).
Definition set_localMediaStream (v : option MediaStream) (w : World) : World :=
  mkWorld (_foreverScanTimeout w) v (_shouldScan w) (_isScanning w)
    (_qrRegion w) (_context w) (_canvasElement w) (_videoElement w)
    (_lastScanImageFile w) (navigator w) (clientWidth w) (children w)
    (position w) (callback w) (timers w) (requests w) (videos w) (settled w)
    (fresh w) (log w).
Definition set_shouldScan (v : bool) (w : World) : World :=
  mkWorld (_foreverScanTimeout w) (_localMediaStream w) v (_isScanning w)
    (_qrRegion w) (_context w) (_canvasElement w) (_videoElement w)
    (_lastScanImageFile w) (navigator w) (clientWidth w) (children w)
    (position w) (callback w) (timers w) (requests w) (videos w) (settled w)
    (fresh w) (log w).
Definition set_isScanning (v : bool) (w : World) : World :=
  mkWorld (_foreverScanTimeout w) (_localMediaStream w) (_shouldScan w) v
    (_qrRegion w) (_context w) (_canvasElement w) (_videoElement w)
    (_lastScanImageFile w) (navigator w) (clientWidth w) (children w)
    (position w) (callback w) (timers w) (requests w) (videos w) (settled w)
    (fresh w) (log w).
Definition set_qrRegion (v : option Region.t) (w : World) : World :=
  mkWorld (_foreverScanTimeout w) (_localMediaStream w) (_shouldScan w)
    (_isScanning w) v (_context w) (_canvasElement w) (_videoElement w)
    (_lastScanImageFile w) (navigator w) (clientWidth w) (children w)
    (position w) (callback w) (timers w) (requests w) (videos w) (settled w)
    (fresh w) (log w).
Definition set_context (v : option Node) (w : World) : World :=
  mkWorld (_foreverScanTimeout w) (_localMediaStream w) (_shouldScan w)
    (_isScanning w) (_qrRegion w) v (_canvasElement w) (_videoElement w)
    (_lastScanImageFile w) (navigator w) (clientWidth w) (children w)
    (position w) (callback w) (timers w) (requests w) (videos w) (settled w)
    (fresh w) (log w).
Definition set_canvasElement (v : option Node) (w : World) : World :=
  mkWorld (_foreverScanTimeout w) (_localMediaStream w) (_shouldScan w)
    (_isScanning w) (_qrRegion w) (_context w) v (_videoElement w)
    (_lastScanImageFile w) (navigator w) (clientWidth w) (children w)
    (position w) (callback w) (timers w) (requests w) (videos w) (settled w)
    (fresh w) (log w).
Definition set_videoElement (v : option Node) (w : World) : World :=
  mkWorld (_foreverScanTimeout w) (_localMediaStream w) (_shouldScan w)
    (_isScanning w) (_qrRegion w) (_context w) (_canvasElement w) v
    (_lastScanImageFile w) (navigator w) (clientWidth w) (children w)
    (position w) (callback w) (timers w) (requests w) (videos w) (settled w)
    (fresh w) (log w).
Definition set_lastScanImageFile (v : option File) (w : World) : World :=
  mkWorld (_foreverScanTimeout w) (_localMediaStream w) (_shouldScan w)
    (_isScanning w) (_qrRegion w) (_context w) (_canvasElement w)
    (_videoElement w) v (navigator w) (clientWidth w) (children w)
    (position w) (callback w) (timers w) (requests w) (videos w) (settled w)
    (fresh w) (log w).
Definition set_children (v : list Node) (w : World) : World :=
  mkWorld (_foreverScanTimeout w) (_localMediaStream w) (_shouldScan w)
    (_isScanning w) (_qrRegion w) (_context w) (_canvasElement w)
    (_videoElement w) (_lastScanImageFile w) (navigator w) (clientWidth w) v
    (position w) (callback w) (timers w) (requests w) (videos w) (settled w)
    (fresh w) (log w).
Definition set_position (v : string) (w : World) : World :=
  mkWorld (_foreverScanTimeout w) (_localMediaStream w) (_shouldScan w)
    (_isScanning w) (_qrRegion w) (_context w) (_canvasElement w)
    (_videoElement w) (_lastScanImageFile w) (navigator w) (clientWidth w)
    (children w) v (callback w) (timers w) (requests w) (videos w)
    (settled w) (fresh w) (log w).
Definition set_callback (v : option Callback) (w : World) : World :=
  mkWorld (_foreverScanTimeout w) (_localMediaStream w) (_shouldScan w)
    (_isScanning w) (_qrRegion w) (_context w) (_canvasElement w)
    (_videoElement w) (_lastScanImageFile w) (navigator w) (clientWidth w)
    (children w) (position w) v (timers w) (requests w) (videos w)
    (settled w) (fresh w) (log w).
Definition set_timers (v : list (nat * StartEnv)) (w : World) : World :=
  mkWorld (_foreverScanTimeout w) (_localMediaStream w) (_shouldScan w)
    (_isScanning w) (_qrRegion w) (_context w) (_canvasElement w)
    (_videoElement w) (_lastScanImageFile w) (navigator w) (clientWidth w)
    (children w) (position w) (callback w) v (requests w) (videos w)
    (settled w) (fresh w) (log w).
Definition set_requests (v : list StartEnv) (w : World) : World :=
  mkWorld (_foreverScanTimeout w) (_localMediaStream w) (_shouldScan w)
    (_isScanning w) (_qrRegion w) (_context w) (_canvasElement w)
    (_videoElement w) (_lastScanImageFile w) (navigator w) (clientWidth w)
    (children w) (position w) (callback w) (timers w) v (videos w)
    (settled w) (fresh w) (log w).
Definition set_videos (v : list StartEnv) (w : World) : World :=
  mkWorld (_foreverScanTimeout w) (_localMediaStream w) (_shouldScan w)
    (_isScanning w) (_qrRegion w) (_context w) (_canvasElement w)
    (_videoElement w) (_lastScanImageFile w) (navigator w) (clientWidth w)
    (children w) (position w) (callback w) (timers w) (requests w) v
    (settled w) (fresh w) (log w).
Definition set_settled (v : list nat) (w : World) : World :=
  mkWorld (_foreverScanTimeout w) (_localMediaStream w) (_shouldScan w)
    (_isScanning w) (_qrRegion w) (_context w) (_canvasElement w)
    (_videoElement w) (_lastScanImageFile w) (navigator w) (clientWidth w)
    (children w) (position w) (callback w) (timers w) (requests w)
    (videos w) v (fresh w) (log w).
Definition set_fresh (v : nat) (w : World) : World :=
  mkWorld (_foreverScanTimeout w) (_localMediaStream w) (_shouldScan w)
    (_isScanning w) (_qrRegion w) (_context w) (_canvasElement w)
    (_videoElement w) (_lastScanImageFile w) (navigator w) (clientWidth w)
    (children w) (position w) (callback w) (timers w) (requests w)
    (videos w) (settled w) v (log w).
Definition set_log (v : list Event) (w : World) : World :=
  mkWorld (_foreverScanTimeout w) (_localMediaStream w) (_shouldScan w)
    (_isScanning w) (_qrRegion w) (_context w) (_canvasElement w)
    (_videoElement w) (_lastScanImageFile w) (navigator w) (clientWidth w)
    (children w) (position w) (callback w) (timers w) (requests w)
    (videos w) (settled w) (fresh w) v.

(** The [constructor], on a page whose container has the given width and
    children. *)
Definition constructor (nav : Navigator) (width : Q) (nodes : list Node)
  : World :=
  {| _foreverScanTimeout := None;
     _localMediaStream := None;
     _shouldScan := true;
     _isScanning := false;
     _qrRegion := None;
     _context := None;
     _canvasElement := None;
     _videoElement := None;
     _lastScanImageFile := None;
     navigator := nav;
     clientWidth := width;
     children := nodes;
     position := "";
     callback := None;
     timers := [];
     requests := [];
     videos := [];
     settled := [];
     fresh := 0%nat;
     log := [] |}.

(** *** Calls that may throw and change the state *)

Definition M (A : Type) : Type := World -> outcome A * World.

Definition ret {A : Type} (a : A) : M A := fun w => (Return a, w).

Definition throw {A : Type} (msg : string) : M A := fun w => (Throw msg, w).

Definition bind {A B : Type} (m : M A) (f : A -> M B) : M B :=
  fun w =>
    match m w with
    | (Return a, w') => f a w'
    | (Throw msg, w') => (Throw msg, w')
    end.

Definition get : M World := fun w => (Return w, w).

Definition modify (f : World -> World) : M unit := fun w => (Return tt, f w).

Definition lift {A : Type} (o : outcome A) : M A := fun w => (o, w).

(** [try { m } catch (e) { handler(e) }]. *)
Definition catch {A : Type} (m : M A) (handler : string -> M A) : M A :=
  fun w =>
    match m w with
    | (Return a, w') => (Return a, w')
    | (Throw msg, w') => handler msg w'
    end.

Declare Scope js_scope.
Delimit Scope js_scope with js.
Notation "x <- m ;; k" := (bind m (fun x => k))
  (at level 61, m at next level, right associativity) : js_scope.
Notation "m ;; k" := (bind m (fun _ => k))
  (at level 61, right associativity) : js_scope.
Open Scope js_scope.

Definition emit (e : Event) : M unit :=
  modify (fun w => set_log (log w ++ [e]) w).

(** [document.createElement]: a node with a new identity. *)
Definition createElement (e : Element) : M Node :=
  w <- get ;;
  modify (set_fresh (S (fresh w))) ;;
  ret {| nodeId := fresh w; element := e |}.

(** [element.append(node)]. *)
Definition append (node : Node) : M unit :=
  modify (fun w => set_children (children w ++ [node]) w).

Definition sameNode (a b : Node) : bool := Nat.eqb (nodeId a) (nodeId b).

Fixpoint removeFirst (node : Node) (nodes : list Node) : list Node :=
  match nodes with
  | [] => []
  | n :: rest => if sameNode node n then rest else n :: removeFirst node rest
  end.

(** [element.removeChild(node)]: throws when [node] is not a node or not a
    child of the element. *)
Definition removeChild (node : option Node) : M unit :=
  match node with
  | None => throw "TypeError"
  | Some node =>
    w <- get ;;
    if existsb (sameNode node) (children w)
    then modify (set_children (removeFirst node (children w)))
    else throw "NotFoundError"
  end.

(** [undefined > h] and [undefined <= h] are false. *)
Definition gtOpt (a : option Q) (b : Q) : bool :=
  match a with Some a => Qgtb a b | None => false end.
Definition ltOpt (a : option Q) (b : Q) : bool :=
  match a with Some a => Qltb a b | None => false end.
Definition leOpt (a : option Q) (b : Q) : bool :=
  match a with Some a => Qle_bool a b | None => false end.

(** *** Methods *)

(** [_clearElement]. *)
Definition _clearElement : M unit :=
  w <- get ;;
  if _isScanning w
  then throw "Cannot clear while scan is ongoing, close it first."
  else modify (set_children []).

(** [_createCanvasElement]; the bitmap has the default size of a new
    canvas. *)
Definition _createCanvasElement (width height : Q) (customId : option string)
  : M Node :=
  createElement
    (Canvas (match customId with None => "qr-canvas" | Some i => i end)
            width height "none" 300 150).

(** The [width] and [height] attributes of a canvas have the type
    [unsigned long].  The Number assigned to one is truncated toward zero
    and reduced modulo [2^32]; a result above [2147483647] is replaced by
    the attribute's default, 300 for the width and 150 for the height. *)
Definition toUnsignedLong (v : Q) : Z :=
  (Z.quot (Qnum v) (Zpos (Qden v)) mod 2 ^ 32)%Z.

Definition canvasSize (default : Z) (v : Q) : Z :=
  let n := toUnsignedLong v in
  if (n <=? 2147483647)%Z then n else default.
Arguments canvasSize : simpl never.

(** [context.canvas.width = w; context.canvas.height = h]. *)
Definition setBitmap (w h : Q) (canvasElement : Node) : Node :=
  match element canvasElement with
  | Canvas i sw sh d _ _ =>
    {| nodeId := nodeId canvasElement;
       element := Canvas i sw sh d (canvasSize 300 w) (canvasSize 150 h) |}
  | _ => canvasElement
  end.

(** [_createVideoElement], with the [srcObject] that [setupVideo] assigns
    before the element is next read. *)
Definition _createVideoElement (width : Q) (srcObject : MediaStream)
  : M Node :=
  createElement (Video width true true srcObject).

(** [_possiblyCloseLastScanImageFile]. *)
Definition _possiblyCloseLastScanImageFile : M unit :=
  w <- get ;;
  match _lastScanImageFile w with
  | Some f => emit (RevokeObjectURL f) ;; modify (set_lastScanImageFile None)
  | None => ret tt
  end.

(** The nodes [_possiblyInsertShadingElement] appends, one after the
    other. *)
Fixpoint appendShadedNodes (es : list Shading.ShadedElement) : M unit :=
  match es with
  | [] => ret tt
  | e :: rest =>
    node <- createElement (Shaded e) ;;
    append node ;;
    appendShadedNodes rest
  end.

(** *** The local functions of [start] *)

(** [setupUi]. *)
Definition setupUi (env : StartEnv) (width height : Q) : M unit :=
  let qrboxSize := configQrbox env in
  (if gtOpt qrboxSize height
   then emit (Warn ("[Html5Qrcode] config.qrboxsize is greater "
                    ++ "than video height. Shading will be ignored"))
   else ret tt) ;;
  let shouldShadingBeApplied :=
    isShadedBoxEnabled env && leOpt qrboxSize height in
  let defaultQrRegion := Region.mk 0 0 width height in
  qrRegion <-
    match qrboxSize with
    | Some qrboxSize =>
      if shouldShadingBeApplied
      then lift (Shading._getShadedRegionBounds width height qrboxSize)
      else ret defaultQrRegion
    | None => ret defaultQrRegion
    end ;;
  canvasElement <-
    _createCanvasElement (Region.width qrRegion) (Region.height qrRegion)
                         None ;;
  let canvasElement :=
    setBitmap (Region.width qrRegion) (Region.height qrRegion)
              canvasElement in
  append canvasElement ;;
  (if shouldShadingBeApplied
   then es <- lift (Shading._possiblyInsertShadingElement height qrRegion) ;;
        appendShadedNodes es
   else ret tt) ;;
  modify (set_qrRegion (Some qrRegion)) ;;
  modify (set_context (Some canvasElement)) ;;
  modify (set_canvasElement (Some canvasElement)) ;;
  emit (SetupUi (startId env) qrRegion).

(** The arguments of the [drawImage] call of [foreverScan]. *)
Definition drawImageCall (m : VideoMetrics) (qrRegion : Region.t) : Event :=
  let widthRatio := videoWidth m / videoClientWidth m in
  let heightRatio := videoHeight m / videoClientHeight m in
  let sWidthOffset := Region.width qrRegion * widthRatio in
  let sHeightOffset := Region.height qrRegion * heightRatio in
  DrawImage (Region.x qrRegion) (Region.y qrRegion)
            sWidthOffset sHeightOffset
            0 0
            (Region.width qrRegion) (Region.height qrRegion).

(** [foreverScan]: [m] is what the video element reports during this call,
    [d] what the decoder does. *)
Definition foreverScan (env : StartEnv) (m : VideoMetrics) (d : Decoded)
  : M unit :=
  w <- get ;;
  if negb (_shouldScan w) then ret tt
  else
    match _localMediaStream w with
    | Some _ =>
      match _videoElement w, _qrRegion w, _context w with
      | Some _, Some qrRegion, Some _ =>
        emit (drawImageCall m qrRegion) ;;
        emit Decode ;;
        match d with
        | DecodeReturns => ret tt
        | DecodeThrows exception =>
          emit (ErrorCallback (qrCodeErrorCallback env)
                  ("QR code parse error, error = " ++ exception))
        end
      | _, _, _ => throw "TypeError"
      end
    | None => ret tt
    end ;;
    w <- get ;;
    let timer := fresh w in
    modify (set_fresh (S timer)) ;;
    modify (set_timers (timers w ++ [(timer, env)])) ;;
    emit (SetTimeout timer (Html5Qrcode._getTimeoutFps (configFps env))) ;;
    modify (set_foreverScanTimeout (Some timer)).

(** Settling the promise of [onMediaStreamReceived]: only the first
    settlement counts.  Its [then] callback sets [_isScanning] and resolves
    the promise returned by [start]; its [catch] callback rejects it. *)
Definition isSettled (k : nat) (w : World) : bool :=
  existsb (Nat.eqb k) (settled w).

Definition resolveReceived (k : nat) : M unit :=
  w <- get ;;
  if isSettled k w then ret tt
  else
    modify (set_settled (k :: settled w)) ;;
    modify (set_isScanning true) ;;
    emit (StartResolved k).

Definition rejectReceived (k : nat) (reason : string) : M unit :=
  w <- get ;;
  if isSettled k w then ret tt
  else
    modify (set_settled (k :: settled w)) ;;
    emit (StartRejected k reason).

(** The [onplaying] listener installed by [setupVideo]. *)
Definition onplaying (env : StartEnv) (m : VideoMetrics) (d : Decoded)
  : M unit :=
  emit (Playing (startId env)) ;;
  let videoWidth := videoClientWidth m in
  let videoHeight := videoClientHeight m in
  setupUi env videoWidth videoHeight ;;
  emit (LoopStart (startId env)) ;;
  foreverScan env m d ;;
  resolveReceived (startId env).

(** [onMediaStreamReceived]: the executor of its promise, with
    [setupVideo] inlined. *)
Definition onMediaStreamReceived (env : StartEnv) (mediaStream : MediaStream)
  : M unit :=
  modify (set_localMediaStream (Some mediaStream)) ;;
  videoElement <- _createVideoElement (elementWidth env) mediaStream ;;
  append videoElement ;;
  modify (fun w => set_videos (videos w ++ [env]) w) ;;
  emit (VideoPlay (startId env)) ;;
  modify (set_videoElement (Some videoElement)).

(** [!cameraId]. *)
Definition falsyString (a : option string) : bool :=
  match a with
  | None => true
  | Some a => String.eqb a ""
  end.

(** [start].  [cameraId] is [None] for [undefined] or [null];
    [qrCodeSuccessCallback] is [None] for anything that is not a function;
    the result names the returned promise. *)
Definition start (cameraId : option string) (configuration : option Config)
  (qrCodeSuccessCallback qrCodeErrorCallback : option Callback) : M nat :=
  if falsyString cameraId then throw "cameraId is required"
  else
  match qrCodeSuccessCallback with
  | None =>
    throw "qrCodeSuccessCallback is required and should be a function."
  | Some qrCodeSuccessCallback =>
    let qrCodeErrorCallback :=
      match qrCodeErrorCallback with
      | Some f => f
      | None => ConsoleLog
      end in
    _clearElement ;;
    let config :=
      match configuration with
      | Some c => c
      | None => {| fps := None; qrbox := None |}
      end in
    let config_fps :=
      match fps config with
      | Some f => if truthy f then f else Html5Qrcode.SCAN_DEFAULT_FPS
      | None => Html5Qrcode.SCAN_DEFAULT_FPS
      end in
    let isShadedBoxEnabled :=
      match qrbox config with Some _ => true | None => false end in
    w <- get ;;
    let width :=
      if truthy (clientWidth w) then clientWidth w
      else Html5Qrcode.DEFAULT_WIDTH in
    modify (set_position "relative") ;;
    modify (set_shouldScan true) ;;
    modify (set_callback (Some qrCodeSuccessCallback)) ;;
    (if isShadedBoxEnabled then
       let qrboxSize := qrbox config in
       if ltOpt qrboxSize Html5Qrcode.MIN_QR_BOX_SIZE
       then throw "minimum size of 'config.qrbox' is 50px."
       else if gtOpt qrboxSize width
       then throw ("'config.qrbox' should not be greater than the "
                   ++ "width of the HTML element.")
       else ret tt
     else ret tt) ;;
    w <- get ;;
    let k := fresh w in
    modify (set_fresh (S k)) ;;
    let env :=
      {| startId := k;
         configFps := config_fps;
         configQrbox := qrbox config;
         isShadedBoxEnabled := isShadedBoxEnabled;
         elementWidth := width;
         qrCodeErrorCallback := qrCodeErrorCallback |} in
    match navigator w with
    | MediaDevicesGetUserMedia =>
      emit (GetUserMedia false
              (match cameraId with Some c => c | None => "" end) k) ;;
      modify (fun w => set_requests (requests w ++ [env]) w)
    | LegacyGetUserMedia =>
      emit (GetUserMedia true
              (match cameraId with Some c => c | None => "" end) k) ;;
      modify (fun w => set_requests (requests w ++ [env]) w)
    | NoGetUserMedia =>
      emit (StartRejected k
              "Web camera streaming not supported by the browser.")
    end ;;
    ret k
  end.

(** [clearTimeout(id)]: the timer no longer fires. *)
Definition clearTimeout (timer : option nat) : M unit :=
  emit (ClearTimeout timer) ;;
  match timer with
  | Some id =>
    modify (fun w =>
      set_timers (filter (fun t => negb (Nat.eqb (fst t) id)) (timers w)) w)
  | None => ret tt
  end.

(** [removeQrRegion] of [stop]: removes the children of class
    [SHADED_REGION_CLASSNAME] one by one until none is left. *)
Definition isShadedRegion (n : Node) : bool :=
  match element n with
  | Shaded e =>
    String.eqb (Shading.className e) Html5Qrcode.SHADED_REGION_CLASSNAME
  | _ => false
  end.

Definition removeQrRegion : M unit :=
  modify (fun w =>
    set_children (filter (fun n => negb (isShadedRegion n)) (children w)) w).

(** [onAllTracksClosed] of [stop]. *)
Definition onAllTracksClosed : M unit :=
  modify (set_localMediaStream None) ;;
  w <- get ;;
  removeChild (_videoElement w) ;;
  removeChild (_canvasElement w) ;;
  removeQrRegion ;;
  modify (set_isScanning false) ;;
  modify (set_qrRegion None) ;;
  modify (set_context None) ;;
  emit StopResolved.

(** The [forEach] over the video tracks of [stop]; [remaining] tracks are
    still to be visited. *)
Fixpoint closeTracks (remaining tracksToClose tracksClosed : nat) : M unit :=
  match remaining with
  | O => ret tt
  | S remaining' =>
    emit TrackStop ;;
    let tracksClosed := S tracksClosed in
    (if Nat.leb tracksToClose tracksClosed
     then onAllTracksClosed
     else ret tt) ;;
    closeTracks remaining' tracksToClose tracksClosed
  end.

(** [stop]: an exception of the promise executor rejects the returned
    promise. *)
Definition stop : M unit :=
  modify (set_shouldScan false) ;;
  w <- get ;;
  clearTimeout (_foreverScanTimeout w) ;;
  catch
    (modify (set_callback None) ;;
     w <- get ;;
     match _localMediaStream w with
     | None => throw "TypeError"
     | Some stream =>
       let tracksToClose := videoTracks stream in
       closeTracks tracksToClose tracksToClose 0%nat
     end)
    (fun reason => emit (StopRejected reason)).

(** [scanFile] up to the point where the image starts loading.
    [imageFile] is [None] for anything that is not a [File]; [showImage] is
    [None] for [undefined]. *)
Definition scanFile (imageFile : option File) (showImage : option bool)
  : M unit :=
  match imageFile with
  | None =>
    throw ("imageFile argument is mandatory and should be instance "
           ++ "of File. Use 'event.target.files[0]'")
  | Some imageFile =>
    let showImage :=
      match showImage with None => true | Some b => b end in
    w <- get ;;
    if _isScanning w
    then throw "Close ongoing scan before scanning a file."
    else
      _possiblyCloseLastScanImageFile ;;
      _clearElement ;;
      modify (set_lastScanImageFile (Some imageFile)) ;;
      emit (ImageSrc imageFile)
  end.

(** [clear]. *)
Definition clear : M unit := _clearElement.

(** *** The event loop *)

(** What can happen to a scanner: a method is called, or the browser runs
    one of the pending callbacks. *)
Inductive Action : Type :=
| CallStart (cameraId : option string) (configuration : option Config)
            (qrCodeSuccessCallback qrCodeErrorCallback : option Callback)
| CallStop
| CallScanFile (imageFile : option File) (showImage : option bool)
| CallClear
| StreamGranted (k : nat) (stream : MediaStream)
| StreamDenied (k : nat) (err : string)
| VideoPlaying (k : nat) (m : VideoMetrics) (d : Decoded)
| VideoFailed (k : nat) (reason : string)
| TimerFired (timer : nat) (m : VideoMetrics) (d : Decoded).

(** A method call: an exception goes to the caller, the changes made before
    it stay. *)
Definition call {A : Type} (m : M A) (w : World) : World := snd (m w).

(** A callback run by the browser: an exception is reported and dropped. *)
Definition handler (m : M unit) (w : World) : World :=
  match m w with
  | (Return _, w') => w'
  | (Throw msg, w') => set_log (log w' ++ [Uncaught msg]) w'
  end.

Definition findEnv (k : nat) (envs : list StartEnv) : option StartEnv :=
  find (fun e => Nat.eqb (startId e) k) envs.

Definition dropEnv (k : nat) (envs : list StartEnv) : list StartEnv :=
  filter (fun e => negb (Nat.eqb (startId e) k)) envs.

Definition findTimer (id : nat) (ts : list (nat * StartEnv))
  : option StartEnv :=
  option_map snd (find (fun t => Nat.eqb (fst t) id) ts).

Definition step (a : Action) (w : World) : World :=
  match a with
  | CallStart cameraId configuration onSuccess onError =>
    call (start cameraId configuration onSuccess onError) w
  | CallStop => call stop w
  | CallScanFile imageFile showImage => call (scanFile imageFile showImage) w
  | CallClear => call clear w
  | StreamGranted k stream =>
    match findEnv k (requests w) with
    | Some env =>
      handler
        (catch (onMediaStreamReceived env stream)
               (fun reason => rejectReceived k reason))
        (set_requests (dropEnv k (requests w)) w)
    | None => w
    end
  | StreamDenied k err =>
    match findEnv k (requests w) with
    | Some env =>
      handler
        (emit (StartRejected k ("Error getting userMedia, error = " ++ err)))
        (set_requests (dropEnv k (requests w)) w)
    | None => w
    end
  | VideoPlaying k m d =>
    match findEnv k (videos w) with
    | Some env => handler (onplaying env m d) w
    | None => w
    end
  | VideoFailed k reason =>
    match findEnv k (videos w) with
    | Some env => handler (rejectReceived k reason) w
    | None => w
    end
  | TimerFired id m d =>
    match findTimer id (timers w) with
    | Some env =>
      handler
        (foreverScan env m d)
        (set_timers (filter (fun t => negb (Nat.eqb (fst t) id)) (timers w))
                    w)
    | None => w
    end
  end.

(** The state after a sequence of actions. *)
Fixpoint run (actions : list Action) (w : World) : World :=
  match actions with
  | [] => w
  | a :: rest => run rest (step a w)
  end.

End Scanner.

(** ** Observations on runs *)

(** A container 300 wide, a camera whose 600 x 500 frames are rendered at
    300 x 250, and a viewfinder box of 200. *)
Definition sampleMetrics : Scanner.VideoMetrics :=
  {| Scanner.videoWidth := 600; Scanner.videoHeight := 500;
     Scanner.videoClientWidth := 300; Scanner.videoClientHeight := 250 |}.

Definition sampleSession : list Scanner.Action :=
  [Scanner.CallStart (Some "camera-0"%string)
     (Some {| Scanner.fps := None; Scanner.qrbox := Some 200 |})
     (Some (Scanner.UserFunction 0)) None;
   Scanner.StreamGranted 0 {| Scanner.streamId := 0; Scanner.videoTracks := 1 |};
   Scanner.VideoPlaying 0 sampleMetrics Scanner.DecodeReturns].

Definition sampleWorld : Scanner.World :=
  Scanner.run sampleSession
    (Scanner.constructor Scanner.MediaDevicesGetUserMedia 300 []).

(** The effects of a scan iteration: a frame is copied, the decoder runs (and
    its failure is reported), a further iteration is scheduled. *)
Definition isScanEvent (e : Scanner.Event) : bool :=
  match e with
  | Scanner.DrawImage _ _ _ _ _ _ _ _ => true
  | Scanner.Decode => true
  | Scanner.ErrorCallback _ _ => true
  | Scanner.SetTimeout _ _ => true
  | _ => false
  end.

Definition isCallStart (a : Scanner.Action) : bool :=
  match a with
  | Scanner.CallStart _ _ _ _ => true
  | _ => false
  end.

(** Once [_shouldScan] is false it stays false, no scan effect is added to
    the log, and no timer is added. *)
Definition quiet (w w' : Scanner.World) : Prop :=
  Scanner._shouldScan w = false ->
  Scanner._shouldScan w' = false
  /\ (forall t, In t (Scanner.timers w') -> In t (Scanner.timers w))
  /\ exists l,
       Scanner.log w' = Scanner.log w ++ l
       /\ forallb (fun e => negb (isScanEvent e)) l = true.


(** *** Order of events in [start] *)

Definition isStartResolved (e : Scanner.Event) : bool :=
  match e with
  | Scanner.StartResolved _ => true
  | _ => false
  end.

(** The listener of call [k] saw the video playing, then set up the
    geometry, then started the scan loop. *)
Definition started (k : nat) (l : list Scanner.Event) : Prop :=
  exists a b c d qrRegion,
    l = a ++ Scanner.Playing k
          :: b ++ Scanner.SetupUi k qrRegion
          :: c ++ Scanner.LoopStart k :: d.

(** Every resolution of a [start] promise comes after those three. *)
Definition ordered (l : list Scanner.Event) : Prop :=
  forall k pre post,
    l = pre ++ Scanner.StartResolved k :: post -> started k pre.

Definition startOrder (w : Scanner.World) : Prop :=
  ordered (Scanner.log w)
  /\ (Scanner._isScanning w = true ->
      exists k, In (Scanner.StartResolved k) (Scanner.log w)).

(** Nothing is resolved and [_isScanning] is not set. *)
Definition pending (w w' : Scanner.World) : Prop :=
  (Scanner._isScanning w' = true -> Scanner._isScanning w = true)
  /\ exists l,
       Scanner.log w' = Scanner.log w ++ l
       /\ forallb (fun e => negb (isStartResolved e)) l = true.

(** *** What happens before the video plays *)

Definition isPlaying (e : Scanner.Event) : bool :=
  match e with
  | Scanner.Playing _ => true
  | _ => false
  end.

(** The log only grows. *)
Definition grows (w w' : Scanner.World) : Prop :=
  exists l, Scanner.log w' = Scanner.log w ++ l.

(** A step that is no part of the playing listener or of the scan loop:
    geometry that is not set stays so, an empty timer queue stays empty,
    and neither a scan effect nor the entry of a playing listener is
    logged. *)
Definition calm (w w' : Scanner.World) : Prop :=
  (Scanner._qrRegion w = None -> Scanner._qrRegion w' = None)
  /\ (Scanner._context w = None -> Scanner._context w' = None)
  /\ (Scanner._canvasElement w = None -> Scanner._canvasElement w' = None)
  /\ (Scanner.timers w = [] -> Scanner.timers w' = [])
  /\ exists l,
       Scanner.log w' = Scanner.log w ++ l
       /\ forallb (fun e => negb (isScanEvent e || isPlaying e)) l = true.

(** Every scan effect comes after the entry of a playing listener, and as
    long as no playing listener was entered there is no geometry and no
    scheduled iteration. *)
Definition afterPlaying (w : Scanner.World) : Prop :=
  (forall pre e post,
     Scanner.log w = pre ++ e :: post -> isScanEvent e = true ->
     exists k, In (Scanner.Playing k) pre)
  /\ ((forall k, ~ In (Scanner.Playing k) (Scanner.log w)) ->
      Scanner._qrRegion w = None
      /\ Scanner._context w = None
      /\ Scanner._canvasElement w = None
      /\ Scanner.timers w = []).

(** Whatever the call returns or throws, the state it leaves is related by
    [R] to the state it started in. *)
Definition respects (R : Scanner.World -> Scanner.World -> Prop)
  {A : Type} (m : Scanner.M A) : Prop :=
  forall w, R w (snd (m w)).

(** ** Further definitions *)


(** The sources of kind "video" as [{id, label}], in their order: what the
    older enumeration interface is expected to give. *)
Definition videoSources (sourceInfos : list Devices.SourceInfo)
  : list Devices.Camera :=
  map (fun s => Devices.mkCamera (Devices.sourceId s) (Devices.sourceLabel s))
      (filter (fun s => String.eqb (Devices.sourceKind s) "video")
              sourceInfos).

(** The sample session after its first action (camera requested) and after
    its second (stream received, video not yet playing). *)
Definition sampleRequested : Scanner.World :=
  Scanner.run (firstn 1 sampleSession)
    (Scanner.constructor Scanner.MediaDevicesGetUserMedia 300 []).

Definition sampleGranted : Scanner.World :=
  Scanner.run (firstn 2 sampleSession)
    (Scanner.constructor Scanner.MediaDevicesGetUserMedia 300 []).

(** The closure of the sample session's [start] call. *)
Definition sampleEnv : Scanner.StartEnv :=
  Scanner.mkEnv 0 2 (Some 200) true 300 Scanner.ConsoleLog.

(** The sample session when the camera answers with a stream that has no
    video track. *)
Definition sampleTrackless : Scanner.World :=
  Scanner.run
    [Scanner.CallStart (Some "camera-0"%string)
       (Some {| Scanner.fps := None; Scanner.qrbox := Some 200 |})
       (Some (Scanner.UserFunction 0)) None;
     Scanner.StreamGranted 0 {| Scanner.streamId := 0;
                                Scanner.videoTracks := 0 |}]
    (Scanner.constructor Scanner.MediaDevicesGetUserMedia 300 []).

(** ** The still-image path after the image has loaded *)

Module StillImage.

Import Scanner.

(** How the promise of [scanFile] settles. *)
Inductive FileScan : Type :=
| FileResolved
| FileRejected (reason : string).

(** The [else] branch of [computeCanvasDrawConfig] up to the recursive
    call, in double precision: [(containerWidth / imageWidth) *
    imageHeight] is a rounded quotient times [imageHeight], rounded. *)
Definition downsample
  (imageWidth imageHeight containerWidth containerHeight : Q) : Q * Q :=
  let '(imageWidth, imageHeight) :=
    if Qgtb imageWidth containerWidth
    then (containerWidth,
          Double.mul (Double.div containerWidth imageWidth) imageHeight)
    else (imageWidth, imageHeight) in
  let '(imageWidth, imageHeight) :=
    if Qgtb imageHeight containerHeight
    then (Double.mul (Double.div containerHeight imageHeight) imageWidth,
          containerHeight)
    else (imageWidth, imageHeight) in
  (imageWidth, imageHeight).

(** [computeCanvasDrawConfig] in double precision.  The comparisons of the
    guard are exact; [depth] bounds the number of nested activations, and
    [None] means that [depth] activations did not reach the base case. *)
Fixpoint computeCanvasDrawConfig (depth : nat)
  (imageWidth imageHeight containerWidth containerHeight : Q)
  : option Region.t :=
  match depth with
  | O => None
  | S depth' =>
    if Fit.fits imageWidth imageHeight containerWidth containerHeight then
      let xoffset := Double.div (Double.sub containerWidth imageWidth) 2 in
      let yoffset := Double.div (Double.sub containerHeight imageHeight) 2 in
      Some (Region.mk xoffset yoffset imageWidth imageHeight)
    else
      let '(imageWidth, imageHeight) :=
        downsample imageWidth imageHeight containerWidth containerHeight in
      computeCanvasDrawConfig depth'
        imageWidth imageHeight containerWidth containerHeight
  end.

(** The [onload] listener of [scanFile].  [showImage] is the closure's
    flag after its default was applied; [imageWidth] and [imageHeight] are
    the loaded image's size, [clientHeight] what the container reports for
    its height (its width is the page's [clientWidth]), [d] what the
    decoder does.  [stack] is the number of nested activations the engine
    allows [computeCanvasDrawConfig]; exceeding it is the engine's range
    error, thrown out of the listener. *)
Definition onload (showImage : bool)
  (imageWidth imageHeight clientHeight : Q) (stack : nat) (d : Decoded)
  : M FileScan :=
  w <- get ;;
  let containerWidth :=
    if truthy (clientWidth w) then clientWidth w
    else Html5Qrcode.DEFAULT_WIDTH in
  let containerHeight :=
    if truthy clientHeight then clientHeight else imageHeight in
  match computeCanvasDrawConfig stack imageWidth imageHeight
          containerWidth containerHeight with
  | None => throw "RangeError"
  | Some config =>
    (if showImage then
       visibleCanvas <-
         _createCanvasElement containerWidth containerHeight
           (Some "qr-canvas-visible"%string) ;;
       let visibleCanvas :=
         match element visibleCanvas with
         | Canvas i sw sh _ bw bh =>
           {| nodeId := nodeId visibleCanvas;
              element := Canvas i sw sh "inline-block" bw bh |}
         | _ => visibleCanvas
         end in
       let visibleCanvas :=
         setBitmap containerWidth containerHeight visibleCanvas in
       append visibleCanvas ;;
       emit (DrawImage 0 0 imageWidth imageHeight
               (Region.x config) (Region.y config)
               (Region.width config) (Region.height config))
     else ret tt) ;;
    hiddenCanvas <-
      _createCanvasElement (Region.width config) (Region.height config)
                           None ;;
    let hiddenCanvas :=
      setBitmap (Region.width config) (Region.height config) hiddenCanvas in
    append hiddenCanvas ;;
    emit (DrawImage 0 0 imageWidth imageHeight
            0 0 (Region.width config) (Region.height config)) ;;
    emit Decode ;;
    match d with
    | DecodeReturns => ret FileResolved
    | DecodeThrows exception =>
      ret (FileRejected ("QR code parse error, error = " ++ exception))
    end
  end.

End StillImage.

(** The region and the drawing context exist together, and the context's
    canvas is the remembered canvas: its style size is the region's, its
    bitmap the region's size as the canvas attributes store it. *)
Definition canvasMatches (w : Scanner.World) : Prop :=
  match Scanner._qrRegion w, Scanner._context w with
  | Some qrRegion, Some canvas =>
    Scanner.element canvas
    = Scanner.Canvas "qr-canvas"
        (Region.width qrRegion) (Region.height qrRegion) "none"
        (Scanner.canvasSize 300 (Region.width qrRegion))
        (Scanner.canvasSize 150 (Region.height qrRegion))
    /\ Scanner._canvasElement w = Some canvas
  | None, None => True
  | _, _ => False
  end.

(** A step that keeps [canvasMatches]. *)
Definition keepsCanvas (w w' : Scanner.World) : Prop :=
  canvasMatches w -> canvasMatches w'.

(** A closure that went through the checks of [start]: a frame rate that
    is not zero, the shading flag set exactly when a box is configured, and
    a box, if any, between [MIN_QR_BOX_SIZE] and the element's width. *)
Definition validEnv (env : Scanner.StartEnv) : Prop :=
  truthy (Scanner.configFps env) = true
  /\ Scanner.isShadedBoxEnabled env
     = match Scanner.configQrbox env with Some _ => true | None => false end
  /\ forall q, Scanner.configQrbox env = Some q ->
       Html5Qrcode.MIN_QR_BOX_SIZE <= q /\ q <= Scanner.elementWidth env.

(** A scheduled iteration waits [1000 / fps] for a frame rate that is not
    zero. *)
Definition validEvent (e : Scanner.Event) : Prop :=
  match e with
  | Scanner.SetTimeout _ delay =>
    exists fps, truthy fps = true /\ delay = 1000 / fps
  | _ => True
  end.

Definition validWorld (w : Scanner.World) : Prop :=
  Forall validEnv (Scanner.requests w)
  /\ Forall validEnv (Scanner.videos w)
  /\ Forall (fun t => validEnv (snd t)) (Scanner.timers w)
  /\ Forall validEvent (Scanner.log w).

Definition keepsValid (w w' : Scanner.World) : Prop :=
  validWorld w -> validWorld w'.

(** ** The demonstration page: choice of the camera *)

Module Demo.

Section CameraChoice.

(** [label.toLowerCase().includes(needle)], as the platform computes it. *)
Variable lowerIncludes : string -> string -> bool.

Definition isBack (cam : Devices.Camera) : bool :=
  lowerIncludes (Devices.cameraLabel cam) "back".

Definition isMain (cam : Devices.Camera) : bool :=
  lowerIncludes (Devices.cameraLabel cam) "main"
  || lowerIncludes (Devices.cameraLabel cam) "0".

(** Truthiness of a string: the empty string is falsy. *)
Definition truthyString (a : string) : bool := negb (String.eqb a "").

(** What the callback of [getCameras] in [startScanner] goes on to do:
    call [startCamera] with the global [cameraId] (still [null] when the
    list is empty), or report that no camera was found and return. *)
Inductive Choice : Type :=
| StartCamera (cameraId : option string)
| NoCameraFound.

Definition chooseCamera (devices : list Devices.Camera) : Choice :=
  match devices with
  | [] => StartCamera None
  | first :: _ =>
    let backCameras := filter isBack devices in
    let mainBackCamera := find isMain backCameras in
    let cameraId :=
      match mainBackCamera with
      | Some cam => Devices.id cam
      | None =>
        match backCameras with
        | back :: _ =>
          if truthyString (Devices.id back) then Devices.id back
          else Devices.id first
        | [] => Devices.id first
        end
      end in
    if truthyString cameraId then StartCamera (Some cameraId)
    else NoCameraFound
  end.

End CameraChoice.

(** A sample of the platform's test on lower-case ASCII labels. *)
Fixpoint includes (needle hay : string) : bool :=
  String.prefix needle hay
  || match hay with
     | EmptyString => false
     | String _ rest => includes needle rest
     end.

End Demo.

(** * Properties *)

(** ** Comparisons *)

Section Comparisons.

Variables a b : Q.

Lemma Qgtb_true : Qgtb a b = true <-> b < a.
Proof.
  unfold Qgtb. rewrite negb_true_iff.
  split; intro H.
  - apply Qnot_le_lt. intro L. apply Qle_bool_iff in L. congruence.
  - destruct (Qle_bool a b) eqn:E; [|reflexivity].
    apply Qle_bool_iff in E. lra.
Qed.

Lemma Qgtb_false : Qgtb a b = false <-> a <= b.
Proof.
  unfold Qgtb. rewrite negb_false_iff. apply Qle_bool_iff.
Qed.

Lemma Qle_bool_false : Qle_bool a b = false <-> b < a.
Proof.
  rewrite <- Qgtb_true. unfold Qgtb. now rewrite negb_true_iff.
Qed.

End Comparisons.

Lemma Qltb_true (a b : Q) : Qltb a b = true <-> a < b.
Proof. unfold Qltb. exact (Qgtb_true b a). Qed.

Lemma Qltb_false (a b : Q) : Qltb a b = false <-> b <= a.
Proof. unfold Qltb. exact (Qgtb_false b a). Qed.

(** Scaling by a factor [a / b] with [0 < a <= b] shrinks. *)
Lemma scale_le (a b c : Q) : 0 < a -> a <= b -> 0 <= c -> a / b * c <= c.
Proof.
  intros Ha Hab Hc.
  assert (a / b <= 1) by (apply Qle_shift_div_r; lra).
  nra.
Qed.

Lemma scale_pos (a b c : Q) : 0 < a -> 0 < b -> 0 < c -> 0 < a / b * c.
Proof.
  intros Ha Hb Hc.
  assert (0 < a / b) by (apply Qlt_shift_div_l; lra).
  nra.
Qed.

(** ** Containment fit *)

Section ContainmentFit.

Import Fit.

Variables imageWidth imageHeight containerWidth containerHeight : Q.
Hypothesis imageWidth_pos : 0 < imageWidth.
Hypothesis imageHeight_pos : 0 < imageHeight.
Hypothesis containerWidth_pos : 0 < containerWidth.
Hypothesis containerHeight_pos : 0 < containerHeight.

Lemma fits_iff (iw ih : Q) :
  fits iw ih containerWidth containerHeight = true
  <-> iw <= containerWidth /\ ih <= containerHeight.
Proof.
  unfold fits. rewrite andb_true_iff, !Qle_bool_iff. tauto.
Qed.

(** One pass of the [else] branch: the new dimensions are positive, fit the
    container, do not exceed the old ones, and keep the ratio. *)
Lemma downsample_spec :
  let '(w, h) :=
    downsample imageWidth imageHeight containerWidth containerHeight in
  0 < w /\ 0 < h
  /\ w <= containerWidth /\ h <= containerHeight
  /\ w <= imageWidth /\ h <= imageHeight
  /\ w / h == imageWidth / imageHeight.
Proof.
  unfold downsample.
  destruct (Qgtb imageWidth containerWidth) eqn:Ew.
  - apply Qgtb_true in Ew.
    pose proof (scale_pos containerWidth imageWidth imageHeight
                  containerWidth_pos imageWidth_pos imageHeight_pos) as Hp.
    pose proof (scale_le containerWidth imageWidth imageHeight
                  containerWidth_pos (Qlt_le_weak _ _ Ew)
                  (Qlt_le_weak _ _ imageHeight_pos)) as Hl.
    set (h1 := containerWidth / imageWidth * imageHeight) in *.
    assert (Hr : containerWidth / h1 == imageWidth / imageHeight).
    { unfold h1. field. repeat split; lra. }
    destruct (Qgtb h1 containerHeight) eqn:Eh.
    + apply Qgtb_true in Eh.
      pose proof (scale_pos containerHeight h1 containerWidth
                    containerHeight_pos Hp containerWidth_pos).
      pose proof (scale_le containerHeight h1 containerWidth
                    containerHeight_pos (Qlt_le_weak _ _ Eh)
                    (Qlt_le_weak _ _ containerWidth_pos)).
      repeat split; try lra.
      rewrite <- Hr. field. split; lra.
    + apply Qgtb_false in Eh. repeat split; lra.
  - apply Qgtb_false in Ew.
    destruct (Qgtb imageHeight containerHeight) eqn:Eh.
    + apply Qgtb_true in Eh.
      pose proof (scale_pos containerHeight imageHeight imageWidth
                    containerHeight_pos imageHeight_pos imageWidth_pos).
      pose proof (scale_le containerHeight imageHeight imageWidth
                    containerHeight_pos (Qlt_le_weak _ _ Eh)
                    (Qlt_le_weak _ _ imageWidth_pos)).
      repeat split; try lra.
      field. split; lra.
    + apply Qgtb_false in Eh. repeat split; lra.
Qed.


Lemma downsample_fits :
  let '(w, h) :=
    downsample imageWidth imageHeight containerWidth containerHeight in
  fits w h containerWidth containerHeight = true.
Proof.
  pose proof downsample_spec as H.
  destruct (downsample imageWidth imageHeight containerWidth containerHeight)
    as [w h].
  apply fits_iff. tauto.
Qed.

(** Two activations always suffice, and more change nothing. *)
Lemma computeCanvasDrawConfig_depth (depth : nat) :
  computeCanvasDrawConfig (S (S depth))
    imageWidth imageHeight containerWidth containerHeight
  = computeCanvasDrawConfig 2
      imageWidth imageHeight containerWidth containerHeight.
Proof.
  pose proof downsample_fits as F.
  cbn [computeCanvasDrawConfig].
  destruct (fits imageWidth imageHeight containerWidth containerHeight);
    [reflexivity|].
  destruct (downsample imageWidth imageHeight containerWidth containerHeight)
    as [w h].
  now rewrite F.
Qed.


Lemma computeCanvasDrawConfig_stable (depth : nat) (layout : Region.t) :
  computeCanvasDrawConfig depth
    imageWidth imageHeight containerWidth containerHeight = Some layout ->
  computeCanvasDrawConfig 2
    imageWidth imageHeight containerWidth containerHeight = Some layout.
Proof.
  destruct depth as [|[|depth]].
  - discriminate.
  - cbn [computeCanvasDrawConfig].
    destruct (fits imageWidth imageHeight containerWidth containerHeight);
      [trivial|].
    destruct (downsample imageWidth imageHeight containerWidth
                containerHeight); discriminate.
  - now rewrite computeCanvasDrawConfig_depth.
Qed.


End ContainmentFit.

(** The container dimensions that the [onload] handler passes are positive
    whenever the element reports non-negative sizes and the image has a
    positive height. *)
Lemma container_positive (clientWidth clientHeight imageHeight : Q) :
  0 <= clientWidth -> 0 <= clientHeight -> 0 < imageHeight ->
  0 < Fit.containerWidthOf clientWidth
  /\ 0 < Fit.containerHeightOf clientHeight imageHeight.
Proof.
  intros Hw Hh Hi. unfold Fit.containerWidthOf, Fit.containerHeightOf, truthy.
  split.
  - destruct (Qeq_bool clientWidth 0) eqn:E; cbn [negb].
    + reflexivity.
    + apply Qeq_bool_neq in E. lra.
  - destruct (Qeq_bool clientHeight 0) eqn:E; cbn [negb].
    + exact Hi.
    + apply Qeq_bool_neq in E. lra.
Qed.

(** Positivity is needed: with a container of negative width the
    downscaling pass maps an image of [-5 x 1] to itself, and no number of
    activations reaches the base case. *)
Lemma computeCanvasDrawConfig_negative_container (depth : nat) :
  forall imageWidth imageHeight : Q,
    imageWidth == -5 -> imageHeight == 1 ->
    Fit.computeCanvasDrawConfig depth imageWidth imageHeight (-9) 1 = None.
Proof.
  induction depth as [|depth IH]; intros iw ih Hw Hh; [reflexivity|].
  cbn [Fit.computeCanvasDrawConfig].
  assert (F : Fit.fits iw ih (-9) 1 = false).
  { unfold Fit.fits.
    assert (E : Qle_bool iw (-9) = false)
      by (apply Qle_bool_false; rewrite Hw; reflexivity).
    now rewrite E. }
  rewrite F. unfold Fit.downsample.
  assert (G1 : Qgtb iw (-9) = true)
    by (apply Qgtb_true; rewrite Hw; reflexivity).
  rewrite G1.
  assert (G2 : Qgtb (-9 / iw * ih) 1 = true)
    by (apply Qgtb_true; rewrite Hw, Hh; reflexivity).
  rewrite G2.
  apply IH; [rewrite Hw, Hh|]; reflexivity.
Qed.


(** ** Rounding to double precision *)

Section DoublePrecision.

Import Double.

(** *** Powers of two *)

Section Pow2.

Lemma two_neq_0 : ~ 2 == 0.
Proof. intro H. discriminate H. Qed.

Lemma pow2_pos (e : Z) : 0 < pow2 e.
Proof. apply Qpower_0_lt. reflexivity. Qed.

Lemma pow2_add (a b : Z) : pow2 (a + b) == pow2 a * pow2 b.
Proof. apply Qpower_plus, two_neq_0. Qed.

Lemma pow2_le (a b : Z) : (a <= b)%Z -> pow2 a <= pow2 b.
Proof. intro H. apply Qpower_le_compat_l; [exact H|discriminate]. Qed.

Lemma pow2_lt (a b : Z) : (a < b)%Z -> pow2 a < pow2 b.
Proof. intro H. apply Qpower_lt_compat_l; [exact H|reflexivity]. Qed.

Lemma pow2_lt_inv (a b : Z) : pow2 a < pow2 b -> (a < b)%Z.
Proof. intro H. apply (Qpower_lt_compat_l_inv 2); [exact H|reflexivity]. Qed.

Lemma pow2_Z (n : Z) : (0 <= n)%Z -> pow2 n == inject_Z (2 ^ n).
Proof. intro H. symmetry. exact (Zpower_Qpower 2 n H). Qed.

Lemma pow2_split (a b : Z) : pow2 a == pow2 (a - b) * pow2 b.
Proof. rewrite <- pow2_add. now replace (a - b + b)%Z with a by ring. Qed.

End Pow2.

(** *** The binade of a positive number *)

Section Log2.

Lemma ilog2_spec (x : Q) :
  0 < x -> pow2 (ilog2 x) <= x /\ x < pow2 (ilog2 x + 1).
Proof.
  intro Hx. unfold ilog2.
  destruct x as [n d]. cbn [Qnum Qden].
  assert (Hn : (0 < n)%Z) by (unfold Qlt in Hx; cbn in Hx; lia).
  set (a := Z.log2 n). set (b := Z.log2 (Z.pos d)).
  destruct (Z.log2_spec n Hn) as [An An'].
  destruct (Z.log2_spec (Z.pos d) (Pos2Z.is_pos d)) as [Bd Bd'].
  fold a in An, An'. fold b in Bd, Bd'.
  assert (A0 : (0 <= a)%Z) by apply Z.log2_nonneg.
  assert (B0 : (0 <= b)%Z) by apply Z.log2_nonneg.
  assert (E : (n # d) * inject_Z (Z.pos d) == inject_Z n).
  { rewrite (Qmake_Qdiv n d). field. discriminate. }
  assert (D0 : 0 < inject_Z (Z.pos d)) by reflexivity.
  assert (Qa : pow2 a <= inject_Z n).
  { rewrite pow2_Z by assumption. now rewrite <- Zle_Qle. }
  assert (Qa' : inject_Z n < pow2 (a + 1)).
  { rewrite pow2_Z by lia. now rewrite <- Zlt_Qlt. }
  assert (Qb : pow2 b <= inject_Z (Z.pos d)).
  { rewrite pow2_Z by assumption. now rewrite <- Zle_Qle. }
  assert (Qb' : inject_Z (Z.pos d) < pow2 (b + 1)).
  { rewrite pow2_Z by lia. now rewrite <- Zlt_Qlt. }
  assert (U : n # d < pow2 (a - b + 1)).
  { apply (Qmult_lt_r _ _ (inject_Z (Z.pos d)) D0). rewrite E.
    eapply Qlt_le_trans; [exact Qa'|].
    rewrite (pow2_split (a + 1) b).
    replace (a + 1 - b)%Z with (a - b + 1)%Z by ring.
    apply Qmult_le_l; [apply pow2_pos|exact Qb]. }
  assert (L : pow2 (a - b - 1) < n # d).
  { apply (Qmult_lt_r _ _ (inject_Z (Z.pos d)) D0). rewrite E.
    eapply Qlt_le_trans; [|exact Qa].
    rewrite (pow2_split a (b + 1)).
    replace (a - (b + 1))%Z with (a - b - 1)%Z by ring.
    apply Qmult_lt_l; [apply pow2_pos|exact Qb']. }
  destruct (Qle_bool (pow2 (a - b)) (n # d)) eqn:C.
  - apply Qle_bool_iff in C. split; assumption.
  - split; [now apply Qlt_le_weak|].
    replace (a - b - 1 + 1)%Z with (a - b)%Z by ring.
    apply Qnot_le_lt. intro C'. apply Qle_bool_iff in C'. congruence.
Qed.

End Log2.

(** *** Rounding to an integer *)

Section NearestEven.

Lemma nearestEven_comp (s t : Q) : s == t -> nearestEven s = nearestEven t.
Proof.
  intro E. unfold nearestEven.
  rewrite (Qfloor_comp s t E).
  assert (E' : s - inject_Z (Qfloor t) == t - inject_Z (Qfloor t))
    by now rewrite E.
  now rewrite (Qcompare_comp _ _ E' (1 # 2) (1 # 2) (Qeq_refl _)).
Qed.

Lemma floor_bounds (s : Q) :
  inject_Z (Qfloor s) <= s /\ s < inject_Z (Qfloor s) + 1.
Proof.
  split; [apply Qfloor_le|].
  pose proof (Qlt_floor s) as L. now rewrite inject_Z_plus in L.
Qed.

Lemma nearestEven_cases (s : Q) :
  (nearestEven s = Qfloor s /\ s - inject_Z (Qfloor s) <= 1 # 2)
  \/ (nearestEven s = (Qfloor s + 1)%Z /\ 1 # 2 <= s - inject_Z (Qfloor s)).
Proof.
  unfold nearestEven.
  destruct (Qcompare_spec (s - inject_Z (Qfloor s)) (1 # 2)) as [E|L|G].
  - destruct (Z.even (Qfloor s)); [left|right]; split;
      try reflexivity; rewrite E; apply Qle_refl.
  - left. split; [reflexivity|now apply Qlt_le_weak].
  - right. split; [reflexivity|now apply Qlt_le_weak].
Qed.

Lemma nearestEven_err (s : Q) :
  inject_Z (nearestEven s) - (1 # 2) <= s
  /\ s <= inject_Z (nearestEven s) + (1 # 2).
Proof.
  destruct (floor_bounds s) as [F F'].
  destruct (nearestEven_cases s) as [[-> H]|[-> H]];
    rewrite ?inject_Z_plus; change (inject_Z 1) with 1; split; lra.
Qed.

Lemma nearestEven_Z (s : Q) (n : Z) : s == inject_Z n -> nearestEven s = n.
Proof.
  intro E. rewrite (nearestEven_comp _ _ E). unfold nearestEven.
  rewrite Qfloor_Z.
  assert (E0 : inject_Z n - inject_Z n == 0) by ring.
  now rewrite (Qcompare_comp _ _ E0 _ _ (Qeq_refl (1 # 2))).
Qed.

Lemma nearestEven_mono (s t : Q) :
  s <= t -> (nearestEven s <= nearestEven t)%Z.
Proof.
  intro H.
  pose proof (Qfloor_resp_le s t H) as Hf.
  destruct (Z.eq_dec (Qfloor s) (Qfloor t)) as [E|N].
  - unfold nearestEven. rewrite E.
    assert (R : s - inject_Z (Qfloor t) <= t - inject_Z (Qfloor t)) by lra.
    destruct (Qcompare_spec (s - inject_Z (Qfloor t)) (1 # 2));
      destruct (Qcompare_spec (t - inject_Z (Qfloor t)) (1 # 2));
      try destruct (Z.even (Qfloor t)); try lia; exfalso; lra.
  - destruct (nearestEven_cases s) as [[-> _]|[-> _]];
      destruct (nearestEven_cases t) as [[-> _]|[-> _]]; lia.
Qed.

End NearestEven.

(** *** Rounding to a binary64 number *)

Section Round.

(** A positive [x] is rounded on the grid of step [2^e], where [e] is the
    exponent of its binade, or that of the subnormal numbers. *)
Lemma round_spec (x : Q) :
  0 < x ->
  exists e : Z,
    (-1074 <= e)%Z
    /\ x < pow2 (e + 53)
    /\ (e = (-1074)%Z \/ pow2 (e + 52) <= x)
    /\ round x == inject_Z (nearestEven (x / pow2 e)) * pow2 e.
Proof.
  intro Hx. unfold round.
  pose proof (Qred_correct x) as Ex.
  set (x' := Qred x) in *.
  assert (Ea : Qabs x' == x) by (rewrite Qabs_pos; lra).
  assert (Ha : 0 < Qabs x') by lra.
  destruct (ilog2_spec (Qabs x') Ha) as [L U].
  unfold ulpExponent. set (l := ilog2 (Qabs x')) in *.
  exists (Z.max (l - 52) (-1074)). split; [apply Z.le_max_r|]. split.
  - rewrite <- Ea. eapply Qlt_le_trans; [exact U|]. apply pow2_le. lia.
  - split.
    + destruct (Z.max_spec (l - 52) (-1074)) as [[_ ->]|[_ ->]];
        [now left|right].
      replace (l - 52 + 52)%Z with l by ring. now rewrite <- Ea.
    + rewrite Qred_correct.
      assert (E : x' / pow2 (Z.max (l - 52) (-1074))
                  == x / pow2 (Z.max (l - 52) (-1074))) by now rewrite Ex.
      now rewrite (nearestEven_comp _ _ E).
Qed.

Lemma round_comp (x y : Q) : x == y -> round x = round y.
Proof. intro E. unfold round. now rewrite (Qred_complete x y E). Qed.

Lemma round_0 : round 0 == 0.
Proof. reflexivity. Qed.

End Round.

(** *** Rounding is monotone on what is not negative *)

Section RoundOrder.

Lemma scaled_lt (x : Q) (e k : Z) :
  x < pow2 (e + k) -> x / pow2 e < pow2 k.
Proof.
  intro H. apply Qlt_shift_div_r; [apply pow2_pos|].
  rewrite <- pow2_add. now replace (k + e)%Z with (e + k)%Z by ring.
Qed.

Lemma scaled_ge (x : Q) (e k : Z) :
  pow2 (e + k) <= x -> pow2 k <= x / pow2 e.
Proof.
  intro H. apply Qle_shift_div_l; [apply pow2_pos|].
  rewrite <- pow2_add. now replace (k + e)%Z with (e + k)%Z by ring.
Qed.

Lemma scaled_le (x y : Q) (e : Z) : x <= y -> x / pow2 e <= y / pow2 e.
Proof.
  intro H. apply Qmult_le_compat_r; [exact H|].
  apply Qlt_le_weak, Qinv_lt_0_compat, pow2_pos.
Qed.

Lemma nearestEven_le_pow2 (s : Q) (k : Z) :
  (0 <= k)%Z -> s <= pow2 k -> (nearestEven s <= 2 ^ k)%Z.
Proof.
  intros Hk H. rewrite pow2_Z in H by assumption.
  apply nearestEven_mono in H.
  now rewrite (nearestEven_Z (inject_Z (2 ^ k)) (2 ^ k)) in H.
Qed.

Lemma nearestEven_ge_pow2 (s : Q) (k : Z) :
  (0 <= k)%Z -> pow2 k <= s -> (2 ^ k <= nearestEven s)%Z.
Proof.
  intros Hk H. rewrite pow2_Z in H by assumption.
  apply nearestEven_mono in H.
  now rewrite (nearestEven_Z (inject_Z (2 ^ k)) (2 ^ k)) in H.
Qed.

Lemma nearestEven_nonneg (s : Q) : 0 <= s -> (0 <= nearestEven s)%Z.
Proof.
  intro H. apply nearestEven_mono in H.
  now rewrite (nearestEven_Z 0 0) in H.
Qed.

Lemma round_nonneg (x : Q) : 0 <= x -> 0 <= round x.
Proof.
  intro H. destruct (Qle_lt_or_eq _ _ H) as [P|E].
  - destruct (round_spec x P) as (e & _ & _ & _ & ->).
    apply Qmult_le_0_compat; [|apply Qlt_le_weak, pow2_pos].
    change 0 with (inject_Z 0). rewrite <- Zle_Qle.
    apply nearestEven_nonneg.
    apply Qle_shift_div_l; [apply pow2_pos|]. lra.
  - rewrite <- (round_comp 0 x E). apply Qle_refl.
Qed.

Lemma round_mono (x y : Q) : 0 <= x -> x <= y -> round x <= round y.
Proof.
  intros H0 H. destruct (Qle_lt_or_eq _ _ H0) as [P|E].
  - assert (Py : 0 < y) by lra.
    destruct (round_spec x P) as (ex & Ax & Ux & Lx & ->).
    destruct (round_spec y Py) as (ey & Ay & Uy & Ly & ->).
    assert (Hlt : (ex <= ey)%Z).
    { destruct (Z.le_gt_cases ex ey) as [|G]; [assumption|exfalso].
      destruct Lx as [->|Lx]; [lia|].
      assert (C : pow2 (ex + 52) < pow2 (ey + 53)) by lra.
      apply pow2_lt_inv in C. lia. }
    destruct (Z.eq_dec ex ey) as [<-|N].
    + apply Qmult_le_compat_r; [|apply Qlt_le_weak, pow2_pos].
      rewrite <- Zle_Qle. apply nearestEven_mono. now apply scaled_le.
    + destruct Ly as [->|Ly]; [lia|].
      apply Qle_trans with (pow2 (ex + 53)).
      * rewrite (pow2_add ex 53), (Qmult_comm (pow2 ex) (pow2 53)).
        apply Qmult_le_compat_r; [|apply Qlt_le_weak, pow2_pos].
        rewrite (pow2_Z 53) by lia. rewrite <- Zle_Qle.
        apply nearestEven_le_pow2; [lia|].
        apply Qlt_le_weak. now apply scaled_lt.
      * apply Qle_trans with (pow2 (ey + 52)); [apply pow2_le; lia|].
        rewrite (pow2_add ey 52), (Qmult_comm (pow2 ey) (pow2 52)).
        apply Qmult_le_compat_r; [|apply Qlt_le_weak, pow2_pos].
        rewrite (pow2_Z 52) by lia. rewrite <- Zle_Qle.
        apply nearestEven_ge_pow2; [lia|]. now apply scaled_ge.
  - rewrite <- (round_comp 0 x E). rewrite round_0.
    apply round_nonneg. lra.
Qed.

End RoundOrder.

(** *** The error of one rounding, and the numbers that are not rounded *)

Section RoundError.

(** The relative error of rounding a normal number is at most [2^-53]. *)
Lemma round_error (x : Q) :
  pow2 (-1022) <= x ->
  (1 - unitRoundoff) * x <= round x /\ round x <= (1 + unitRoundoff) * x.
Proof.
  intro H.
  assert (P : 0 < x) by (pose proof (pow2_pos (-1022)); lra).
  destruct (round_spec x P) as (e & A & U & L & ->).
  assert (L' : pow2 (e + 52) <= x) by (destruct L as [->|L]; assumption).
  clear L H.
  pose proof (pow2_pos e) as Pe.
  destruct (nearestEven_err (x / pow2 e)) as [E1 E2].
  set (M := inject_Z (nearestEven (x / pow2 e))) in *.
  assert (S : x / pow2 e * pow2 e == x) by (field; lra).
  assert (B1 : (M - (1 # 2)) * pow2 e <= x / pow2 e * pow2 e)
    by (apply Qmult_le_compat_r; lra).
  assert (B2 : x / pow2 e * pow2 e <= (M + (1 # 2)) * pow2 e)
    by (apply Qmult_le_compat_r; lra).
  rewrite S in B1, B2.
  assert (G : pow2 e <= 2 * pow2 (-53) * x).
  { rewrite (pow2_split e (e + 52)).
    replace (e - (e + 52))%Z with (-52)%Z by ring.
    assert (T : pow2 (-52) == 2 * pow2 (-53)) by reflexivity.
    rewrite T.
    apply Qmult_le_l; [|exact L'].
    apply Qmult_lt_0_compat; [reflexivity|apply pow2_pos]. }
  change (pow2 (-53)) with unitRoundoff in G.
  set (p := pow2 e) in *. unfold unitRoundoff in *.
  split; lra.
Qed.

(** A number with 53 significant bits and an exponent in range is a
    binary64 number. *)
Lemma round_format (x : Q) (n k : Z) :
  (0 < n < 2 ^ 53)%Z -> (-1074 <= k)%Z ->
  x == inject_Z n * pow2 k -> round x == x.
Proof.
  intros Hn Hk E.
  pose proof (pow2_pos k) as Pk.
  assert (N0 : 0 < inject_Z n).
  { change 0 with (inject_Z 0). rewrite <- Zlt_Qlt. lia. }
  assert (P : 0 < x).
  { rewrite E. apply Qmult_lt_0_compat; assumption. }
  destruct (round_spec x P) as (e & A & U & L & ->).
  assert (Hek : (e <= k)%Z).
  { destruct L as [->|L]; [assumption|].
    assert (X : x < pow2 (k + 53)).
    { rewrite E, (pow2_add k 53), (Qmult_comm (pow2 k) (pow2 53)).
      apply Qmult_lt_compat_r; [assumption|].
      rewrite (pow2_Z 53) by lia. rewrite <- Zlt_Qlt. lia. }
    assert (C : pow2 (e + 52) < pow2 (k + 53)) by lra.
    apply pow2_lt_inv in C. lia. }
  assert (S : x / pow2 e == inject_Z (n * 2 ^ (k - e))).
  { rewrite inject_Z_mult, <- (pow2_Z (k - e)) by lia.
    rewrite E, (pow2_split k e). field.
    pose proof (pow2_pos e). lra. }
  rewrite (nearestEven_Z _ _ S).
  rewrite inject_Z_mult, <- (pow2_Z (k - e)) by lia.
  rewrite E, (pow2_split k e). ring.
Qed.

End RoundError.


(** *** The rescaling [(a / b) * c] *)

Section Scaling.

Lemma round_1 : round 1 == 1.
Proof. reflexivity. Qed.

(** [(a / b) * c] in doubles, for [0 < a <= b]: not above [c]. *)
Lemma scale_down (a b c : Q) :
  0 < a -> a <= b -> 0 <= c -> representable c ->
  0 <= Double.mul (Double.div a b) c
  /\ Double.mul (Double.div a b) c <= c.
Proof.
  intros Ha Hab Hc [Rc _].
  unfold Double.mul, Double.div.
  assert (Q0 : 0 <= a / b) by (apply Qle_shift_div_l; lra).
  assert (Q1 : a / b <= 1) by (apply Qle_shift_div_r; lra).
  pose proof (round_nonneg _ Q0) as R0.
  pose proof (round_mono _ _ Q0 Q1) as R1. rewrite round_1 in R1.
  assert (P0 : 0 <= round (a / b) * c) by now apply Qmult_le_0_compat.
  assert (P1 : round (a / b) * c <= c) by nra.
  split; [now apply round_nonneg|].
  pose proof (round_mono _ _ P0 P1) as R2. now rewrite Rc in R2.
Qed.

(** The same product is within two roundings of the exact one, when
    neither underflows. *)
Lemma scale_error (a b c : Q) :
  0 < b -> pow2 (-511) <= a / b -> 1 <= c ->
  (1 - unitRoundoff) * (1 - unitRoundoff) * (a * c)
  <= Double.mul (Double.div a b) c * b
  /\ Double.mul (Double.div a b) c * b
     <= (1 + unitRoundoff) * (1 + unitRoundoff) * (a * c).
Proof.
  intros Hb Hq Hc. unfold Double.mul, Double.div.
  assert (T : pow2 (-1022) <= pow2 (-511)) by (apply pow2_le; lia).
  destruct (round_error (a / b)) as [E1 E2]; [lra|].
  set (q := a / b) in *. set (r := round q) in *.
  assert (Hq' : pow2 (-512) <= r).
  { assert (T2 : pow2 (-511) == 2 * pow2 (-512)) by reflexivity.
    pose proof (pow2_pos (-512)). unfold unitRoundoff in *. lra. }
  assert (Hp : pow2 (-1022) <= r * c).
  { assert (T3 : pow2 (-1022) <= pow2 (-512)) by (apply pow2_le; lia).
    pose proof (pow2_pos (-512)). nra. }
  destruct (round_error (r * c) Hp) as [F1 F2].
  set (p := round (r * c)) in *.
  assert (Eq : q * b == a) by (unfold q; field; lra).
  assert (Pq : 0 < q) by (pose proof (pow2_pos (-511)); lra).
  unfold unitRoundoff in *.
  assert (G1 : (1 - (1 # 9007199254740992)) * (q * c) <= r * c) by nra.
  assert (G2 : r * c <= (1 + (1 # 9007199254740992)) * (q * c)) by nra.
  assert (K1 : (1 - (1 # 9007199254740992)) * (1 - (1 # 9007199254740992))
               * (q * c) <= p) by lra.
  assert (K2 : p <= (1 + (1 # 9007199254740992)) * (1 + (1 # 9007199254740992))
                    * (q * c)) by lra.
  assert (M1 : (1 - (1 # 9007199254740992)) * (1 - (1 # 9007199254740992))
               * (q * c) * b <= p * b)
    by (apply Qmult_le_compat_r; lra).
  assert (M2 : p * b <= (1 + (1 # 9007199254740992))
                        * (1 + (1 # 9007199254740992)) * (q * c) * b)
    by (apply Qmult_le_compat_r; lra).
  assert (Eqc : q * c * b == a * c) by (rewrite <- Eq; ring).
  split.
  - rewrite <- Eqc. lra.
  - rewrite <- Eqc. lra.
Qed.

End Scaling.

(** *** The ratio after rescaling *)

Section RatioAlgebra.

(** One rescaling: [X] within two roundings of [Y]. *)
Lemma ratio_one_pass (X Y : Q) :
  0 <= Y ->
  (1 - unitRoundoff) * (1 - unitRoundoff) * Y <= X ->
  X <= (1 + unitRoundoff) * (1 + unitRoundoff) * Y ->
  - (5 * unitRoundoff * Y) <= X - Y /\ X - Y <= 5 * unitRoundoff * Y.
Proof. unfold unitRoundoff. intros. split; lra. Qed.

(** The same with the roles exchanged. *)
Lemma ratio_one_pass_inv (X Y : Q) :
  0 <= X ->
  (1 - unitRoundoff) * (1 - unitRoundoff) * X <= Y ->
  Y <= (1 + unitRoundoff) * (1 + unitRoundoff) * X ->
  - (5 * unitRoundoff * Y) <= X - Y /\ X - Y <= 5 * unitRoundoff * Y.
Proof. unfold unitRoundoff. intros. split; lra. Qed.

(** Two rescalings in a row: four roundings. *)
Lemma ratio_two_passes (cw ch iw ih h1 w2 : Q) :
  0 < cw -> 0 < ch -> 0 < iw -> 0 < ih -> 0 <= w2 ->
  (1 - unitRoundoff) * (1 - unitRoundoff) * (cw * ih) <= h1 * iw ->
  h1 * iw <= (1 + unitRoundoff) * (1 + unitRoundoff) * (cw * ih) ->
  (1 - unitRoundoff) * (1 - unitRoundoff) * (ch * cw) <= w2 * h1 ->
  w2 * h1 <= (1 + unitRoundoff) * (1 + unitRoundoff) * (ch * cw) ->
  - (5 * unitRoundoff * (ch * iw)) <= w2 * ih - ch * iw
  /\ w2 * ih - ch * iw <= 5 * unitRoundoff * (ch * iw).
Proof.
  unfold unitRoundoff. intros Hcw Hch Hiw Hih Hw A1 A2 B1 B2.
  assert (C1 : (1 - (1 # 9007199254740992)) * (1 - (1 # 9007199254740992))
               * (cw * ih) * w2 <= h1 * iw * w2)
    by (apply Qmult_le_compat_r; assumption).
  assert (C2 : h1 * iw * w2 <= (1 + (1 # 9007199254740992))
                 * (1 + (1 # 9007199254740992)) * (cw * ih) * w2)
    by (apply Qmult_le_compat_r; assumption).
  assert (D1 : (1 - (1 # 9007199254740992)) * (1 - (1 # 9007199254740992))
               * (ch * cw) * iw <= w2 * h1 * iw)
    by (apply Qmult_le_compat_r; lra).
  assert (D2 : w2 * h1 * iw <= (1 + (1 # 9007199254740992))
                 * (1 + (1 # 9007199254740992)) * (ch * cw) * iw)
    by (apply Qmult_le_compat_r; lra).
  assert (P : 0 < ch * iw) by now apply Qmult_lt_0_compat.
  set (X := w2 * ih) in *. set (Y := ch * iw) in *.
  assert (E1 : cw * ih * w2 == cw * X) by (unfold X; ring).
  assert (E2 : h1 * iw * w2 == w2 * h1 * iw) by ring.
  assert (E3 : ch * cw * iw == cw * Y) by (unfold Y; ring).
  assert (U : cw * ((1 - (1 # 9007199254740992))
                    * (1 - (1 # 9007199254740992)) * X)
              <= cw * ((1 + (1 # 9007199254740992))
                       * (1 + (1 # 9007199254740992)) * Y)) by lra.
  assert (L : cw * ((1 - (1 # 9007199254740992))
                    * (1 - (1 # 9007199254740992)) * Y)
              <= cw * ((1 + (1 # 9007199254740992))
                       * (1 + (1 # 9007199254740992)) * X)) by lra.
  apply Qmult_le_l in U; [|assumption].
  apply Qmult_le_l in L; [|assumption].
  split; lra.
Qed.

Lemma ratio_form (w h iw ih e : Q) :
  0 < h -> 0 < ih ->
  - (e * (h * iw)) <= w * ih - h * iw /\ w * ih - h * iw <= e * (h * iw) ->
  Qabs (w / h - iw / ih) <= e * (iw / ih).
Proof.
  intros Hh Hih [A B].
  assert (D : 0 < h * ih) by now apply Qmult_lt_0_compat.
  assert (E1 : w / h - iw / ih == (w * ih - h * iw) / (h * ih))
    by (field; split; lra).
  assert (E2 : e * (iw / ih) == e * (h * iw) / (h * ih))
    by (field; split; lra).
  rewrite E1, E2. apply Qabs_Qle_condition. split.
  - setoid_replace (- (e * (h * iw) / (h * ih)))
      with ((- (e * (h * iw))) / (h * ih)) by (field; split; lra).
    apply Qmult_le_compat_r; [exact A|].
    apply Qlt_le_weak, Qinv_lt_0_compat, D.
  - apply Qmult_le_compat_r; [exact B|].
    apply Qlt_le_weak, Qinv_lt_0_compat, D.
Qed.

Lemma quotient_lower (a b : Q) :
  1 <= a -> 0 < b -> b <= pow2 511 -> pow2 (-511) <= a / b.
Proof.
  intros Ha Hb Hb'. apply Qle_shift_div_l; [exact Hb|].
  assert (T : pow2 (-511) * pow2 511 == 1) by reflexivity.
  pose proof (pow2_pos (-511)) as P.
  assert (pow2 (-511) * b <= pow2 (-511) * pow2 511)
    by (apply Qmult_le_l; assumption).
  lra.
Qed.

End RatioAlgebra.

(** *** The centring offsets *)

Section Centring.

Lemma round_integer (n : Z) :
  (0 <= n < 2 ^ 53)%Z -> round (inject_Z n) == inject_Z n.
Proof.
  intros [H0 H1]. destruct (Z.eq_dec n 0) as [->|N]; [reflexivity|].
  apply (round_format _ n 0); [lia|lia|].
  assert (T : pow2 0 == 1) by reflexivity. rewrite T. ring.
Qed.

Lemma round_half_integer (n : Z) :
  (0 <= n < 2 ^ 53)%Z -> round (inject_Z n / 2) == inject_Z n / 2.
Proof.
  intros [H0 H1]. destruct (Z.eq_dec n 0) as [->|N]; [reflexivity|].
  apply (round_format _ n (-1)); [lia|lia|].
  assert (T : pow2 (-1) == 1 / 2) by reflexivity. rewrite T. field.
Qed.

(** The centring offset of what fits is not negative and at most the
    container's size. *)
Lemma centred_bounds (c i : Q) :
  0 <= i -> i <= c -> representable c ->
  0 <= Double.div (Double.sub c i) 2
  /\ Double.div (Double.sub c i) 2 <= c.
Proof.
  intros Hi Hic [Rc _]. unfold Double.div, Double.sub.
  assert (D0 : 0 <= c - i) by lra.
  assert (D1 : c - i <= c) by lra.
  pose proof (round_nonneg _ D0) as R0.
  pose proof (round_mono _ _ D0 D1) as R1. rewrite Rc in R1.
  assert (H0 : 0 <= round (c - i) / 2) by (apply Qle_shift_div_l; lra).
  assert (H1 : round (c - i) / 2 <= c) by (apply Qle_shift_div_r; lra).
  split; [now apply round_nonneg|].
  pose proof (round_mono _ _ H0 H1) as R2. now rewrite Rc in R2.
Qed.

(** Between whole numbers below [2^53] the centring offset is exact. *)
Lemma centred_exact (c i : Q) (a b : Z) :
  c == inject_Z a -> i == inject_Z b -> i <= c -> (a < 2 ^ 53)%Z ->
  0 <= i ->
  Double.div (Double.sub c i) 2 == (c - i) / 2.
Proof.
  intros Ec Ei Hic Ha Hi.
  assert (D : c - i == inject_Z (a - b)).
  { rewrite Ec, Ei. unfold Zminus. rewrite inject_Z_plus, inject_Z_opp. ring. }
  assert (B : (0 <= b)%Z).
  { rewrite Zle_Qle. now rewrite <- Ei. }
  assert (R : (0 <= a - b < 2 ^ 53)%Z).
  { split; [|lia]. rewrite Zle_Qle. rewrite <- D.
    change (inject_Z 0) with 0. lra. }
  unfold Double.div, Double.sub.
  rewrite (round_comp _ _ D).
  assert (E : round (inject_Z (a - b)) / 2 == inject_Z (a - b) / 2)
    by now rewrite (round_integer _ R).
  rewrite (round_comp _ _ E), (round_half_integer _ R).
  now rewrite D.
Qed.

End Centring.

(** ** Containment fit in double precision *)

Section ContainmentFitDouble.

Import StillImage.

Variables imageWidth imageHeight containerWidth containerHeight : Q.
Hypothesis imageWidth_pos : 0 < imageWidth.
Hypothesis imageHeight_pos : 0 < imageHeight.
Hypothesis containerWidth_pos : 0 < containerWidth.
Hypothesis containerHeight_pos : 0 < containerHeight.
Hypothesis imageWidth_double : representable imageWidth.
Hypothesis imageHeight_double : representable imageHeight.
Hypothesis containerWidth_double : representable containerWidth.
Hypothesis containerHeight_double : representable containerHeight.

(** One pass of the [else] branch in doubles: the new dimensions fit the
    container and do not exceed the old ones. *)
Lemma downsample_bounds :
  let '(w, h) :=
    downsample imageWidth imageHeight containerWidth containerHeight in
  0 <= w /\ 0 <= h
  /\ w <= containerWidth /\ h <= containerHeight
  /\ w <= imageWidth /\ h <= imageHeight.
Proof.
  unfold downsample.
  destruct (Qgtb imageWidth containerWidth) eqn:Ew.
  - apply Qgtb_true in Ew.
    destruct (scale_down containerWidth imageWidth imageHeight
                containerWidth_pos (Qlt_le_weak _ _ Ew)
                (Qlt_le_weak _ _ imageHeight_pos) imageHeight_double)
      as [H0 H1].
    set (h1 := Double.mul (Double.div containerWidth imageWidth) imageHeight)
      in *.
    destruct (Qgtb h1 containerHeight) eqn:Eh.
    + apply Qgtb_true in Eh.
      destruct (scale_down containerHeight h1 containerWidth
                  containerHeight_pos (Qlt_le_weak _ _ Eh)
                  (Qlt_le_weak _ _ containerWidth_pos) containerWidth_double)
        as [W0 W1].
      repeat split; lra.
    + apply Qgtb_false in Eh. repeat split; lra.
  - apply Qgtb_false in Ew.
    destruct (Qgtb imageHeight containerHeight) eqn:Eh.
    + apply Qgtb_true in Eh.
      destruct (scale_down containerHeight imageHeight imageWidth
                  containerHeight_pos (Qlt_le_weak _ _ Eh)
                  (Qlt_le_weak _ _ imageWidth_pos) imageWidth_double)
        as [W0 W1].
      repeat split; lra.
    + apply Qgtb_false in Eh. repeat split; lra.
Qed.

(** The ratio after one pass, for dimensions from 1 to [2^511]: every
    rounding is of a normal number. *)
Lemma downsample_ratio :
  1 <= imageWidth -> imageWidth <= pow2 511 ->
  1 <= imageHeight -> imageHeight <= pow2 511 ->
  1 <= containerWidth -> 1 <= containerHeight ->
  let '(w, h) :=
    downsample imageWidth imageHeight containerWidth containerHeight in
  0 < h
  /\ - (5 * unitRoundoff * (h * imageWidth))
     <= w * imageHeight - h * imageWidth
  /\ w * imageHeight - h * imageWidth
     <= 5 * unitRoundoff * (h * imageWidth).
Proof.
  intros Liw Uiw Lih Uih Lcw Lch.
  unfold downsample.
  destruct (Qgtb imageWidth containerWidth) eqn:Ew.
  - apply Qgtb_true in Ew.
    destruct (scale_down containerWidth imageWidth imageHeight
                containerWidth_pos (Qlt_le_weak _ _ Ew)
                (Qlt_le_weak _ _ imageHeight_pos) imageHeight_double)
      as [H0 H1].
    destruct (scale_error containerWidth imageWidth imageHeight
                imageWidth_pos
                (quotient_lower _ _ Lcw imageWidth_pos Uiw) Lih)
      as [A1 A2].
    set (h1 := Double.mul (Double.div containerWidth imageWidth) imageHeight)
      in *.
    assert (Ph : 0 < h1).
    { assert (0 < containerWidth * imageHeight)
        by now apply Qmult_lt_0_compat.
      unfold unitRoundoff in A1.
      assert (0 < h1 * imageWidth) by lra.
      destruct (Qlt_le_dec 0 h1) as [|N]; [assumption|exfalso]. nra. }
    destruct (Qgtb h1 containerHeight) eqn:Eh.
    + apply Qgtb_true in Eh.
      destruct (scale_down containerHeight h1 containerWidth
                  containerHeight_pos (Qlt_le_weak _ _ Eh)
                  (Qlt_le_weak _ _ containerWidth_pos) containerWidth_double)
        as [W0 W1].
      assert (Uh : h1 <= pow2 511) by lra.
      destruct (scale_error containerHeight h1 containerWidth Ph
                  (quotient_lower _ _ Lch Ph Uh) Lcw)
        as [B1 B2].
      split; [exact containerHeight_pos|].
      now apply (ratio_two_passes containerWidth containerHeight
                   imageWidth imageHeight h1).
    + split; [exact Ph|].
      apply ratio_one_pass_inv;
        [apply Qlt_le_weak; now apply Qmult_lt_0_compat| |]; assumption.
  - destruct (Qgtb imageHeight containerHeight) eqn:Eh.
    + apply Qgtb_true in Eh.
      destruct (scale_error containerHeight imageHeight imageWidth
                  imageHeight_pos
                  (quotient_lower _ _ Lch imageHeight_pos Uih) Liw)
        as [A1 A2].
      split; [exact containerHeight_pos|].
      apply ratio_one_pass;
        [apply Qlt_le_weak; now apply Qmult_lt_0_compat| |]; assumption.
    + split; [exact imageHeight_pos|].
      unfold unitRoundoff. split; nra.
Qed.

(** Two activations always suffice, and more change nothing. *)
Lemma computeCanvasDrawConfig_double_depth (depth : nat) :
  computeCanvasDrawConfig (S (S depth))
    imageWidth imageHeight containerWidth containerHeight
  = computeCanvasDrawConfig 2
      imageWidth imageHeight containerWidth containerHeight.
Proof.
  pose proof downsample_bounds as B.
  cbn [computeCanvasDrawConfig].
  destruct (Fit.fits imageWidth imageHeight containerWidth containerHeight);
    [reflexivity|].
  destruct (downsample imageWidth imageHeight containerWidth containerHeight)
    as [w h].
  assert (F : Fit.fits w h containerWidth containerHeight = true)
    by (apply fits_iff; tauto).
  now rewrite F.
Qed.

Lemma computeCanvasDrawConfig_double_stable (depth : nat)
  (layout : Region.t) :
  computeCanvasDrawConfig depth
    imageWidth imageHeight containerWidth containerHeight = Some layout ->
  computeCanvasDrawConfig 2
    imageWidth imageHeight containerWidth containerHeight = Some layout.
Proof.
  destruct depth as [|[|depth]].
  - discriminate.
  - cbn [computeCanvasDrawConfig].
    destruct (Fit.fits imageWidth imageHeight containerWidth
                containerHeight); [trivial|].
    destruct (downsample imageWidth imageHeight containerWidth
                containerHeight); discriminate.
  - now rewrite computeCanvasDrawConfig_double_depth.
Qed.

(** The layout, with the dimensions the base case is reached with. *)
Lemma computeCanvasDrawConfig_double_returns :
  exists w h,
    computeCanvasDrawConfig 2
      imageWidth imageHeight containerWidth containerHeight
    = Some (Region.mk (Double.div (Double.sub containerWidth w) 2)
                      (Double.div (Double.sub containerHeight h) 2) w h)
    /\ (if Fit.fits imageWidth imageHeight containerWidth containerHeight
        then (w, h) = (imageWidth, imageHeight)
        else (w, h) = downsample imageWidth imageHeight
                        containerWidth containerHeight)
    /\ 0 <= w /\ 0 <= h
    /\ w <= containerWidth /\ h <= containerHeight
    /\ w <= imageWidth /\ h <= imageHeight.
Proof.
  pose proof downsample_bounds as B.
  cbn [computeCanvasDrawConfig].
  destruct (Fit.fits imageWidth imageHeight containerWidth containerHeight)
    eqn:F.
  - apply fits_iff in F.
    exists imageWidth, imageHeight.
    split; [reflexivity|]. split; [reflexivity|]. repeat split; lra.
  - destruct (downsample imageWidth imageHeight containerWidth
                containerHeight) as [w h].
    assert (F' : Fit.fits w h containerWidth containerHeight = true)
      by (apply fits_iff; tauto).
    rewrite F'. exists w, h.
    split; [reflexivity|]. split; [reflexivity|]. exact B.
Qed.

(** C2, as amended: for positive image and container dimensions that are
    binary64 numbers, the layout computed by [computeCanvasDrawConfig]
    exists and is the same whatever the allowed nesting; its width and
    height fit the container and do not exceed the image's, and its offsets
    lie in the container.  The ratio of
    width to height is the image's up to the rounding of the quotients and
    products: for dimensions from 1 to [2^511] the relative error is at
    most [5 * 2^-53].  When the image already fits, the layout has the
    image's dimensions, and its offsets are the halved differences as the
    engine computes them, which is exact between whole numbers below
    [2^53]. *)
Theorem computeCanvasDrawConfig_contained :
  exists layout : Region.t,
    computeCanvasDrawConfig 2
      imageWidth imageHeight containerWidth containerHeight = Some layout
    /\ (forall depth layout',
          computeCanvasDrawConfig depth
            imageWidth imageHeight containerWidth containerHeight
          = Some layout' -> layout' = layout)
    /\ Region.width layout <= containerWidth
    /\ Region.height layout <= containerHeight
    /\ Region.width layout <= imageWidth
    /\ Region.height layout <= imageHeight
    /\ 0 <= Region.x layout /\ Region.x layout <= containerWidth
    /\ 0 <= Region.y layout /\ Region.y layout <= containerHeight
    /\ (1 <= imageWidth /\ imageWidth <= pow2 511
        /\ 1 <= imageHeight /\ imageHeight <= pow2 511
        /\ 1 <= containerWidth /\ 1 <= containerHeight ->
        0 < Region.height layout
        /\ Qabs (Region.width layout / Region.height layout
                 - imageWidth / imageHeight)
           <= 5 * unitRoundoff * (imageWidth / imageHeight))
    /\ (imageWidth <= containerWidth -> imageHeight <= containerHeight ->
        Region.width layout = imageWidth
        /\ Region.height layout = imageHeight
        /\ Region.x layout
           = Double.div (Double.sub containerWidth (Region.width layout)) 2
        /\ Region.y layout
           = Double.div (Double.sub containerHeight (Region.height layout)) 2
        /\ (forall a b : Z,
              containerWidth == inject_Z a -> imageWidth == inject_Z b ->
              (a < 2 ^ 53)%Z ->
              Region.x layout == (containerWidth - Region.width layout) / 2)
        /\ (forall a b : Z,
              containerHeight == inject_Z a -> imageHeight == inject_Z b ->
              (a < 2 ^ 53)%Z ->
              Region.y layout
              == (containerHeight - Region.height layout) / 2)).
Proof.
  destruct computeCanvasDrawConfig_double_returns
    as (w & h & E & S & W0 & H0 & Wc & Hc & Wi & Hi).
  eexists. split; [exact E|]. split.
  { intros depth layout' E'.
    apply computeCanvasDrawConfig_double_stable in E'.
    rewrite E in E'. now injection E' as <-. }
  cbn [Region.width Region.height Region.x Region.y].
  do 4 (split; [assumption|]).
  destruct (centred_bounds containerWidth w W0 Wc containerWidth_double)
    as [X0 X1].
  destruct (centred_bounds containerHeight h H0 Hc containerHeight_double)
    as [Y0 Y1].
  do 4 (split; [assumption|]). split.
  - intros (Liw & Uiw & Lih & Uih & Lcw & Lch).
    destruct (Fit.fits imageWidth imageHeight containerWidth
                containerHeight).
    + injection S as -> ->. split; [exact imageHeight_pos|].
      apply ratio_form; [assumption..|].
      unfold unitRoundoff. split; nra.
    + pose proof (downsample_ratio Liw Uiw Lih Uih Lcw Lch) as R.
      rewrite <- S in R. destruct R as (Ph & R).
      split; [exact Ph|]. now apply ratio_form.
  - intros Lw Lh.
    assert (F : Fit.fits imageWidth imageHeight containerWidth
                  containerHeight = true) by (apply fits_iff; now split).
    rewrite F in S. injection S as -> ->.
    do 4 (split; [reflexivity|]). split.
    + intros a b Ea Eb Ha.
      now apply (centred_exact _ _ a b); try lra.
    + intros a b Ea Eb Ha.
      now apply (centred_exact _ _ a b); try lra.
Qed.

End ContainmentFitDouble.


End DoublePrecision.

(** The rounding on some numbers whose doubles are known: one tenth, the
    two ties above [2^53], a tie among the subnormal numbers, and the two
    steps of [(300 / 700) * 1000]. *)
Example round_examples :
  Double.round (1 # 10) = 3602879701896397 # 36028797018963968
  /\ Double.round 9007199254740993 = 9007199254740992
  /\ Double.round 9007199254740995 = 9007199254740996
  /\ Double.round (3 * Double.pow2 (-1075)) = Qred (Double.pow2 (-1073))
  /\ Double.div 300 700 = 7720456504063707 # 18014398509481984
  /\ Double.mul (Double.div 300 700) 1000
     = 3769754152374857 # 8796093022208.
Proof. repeat split; vm_compute; reflexivity. Qed.

(** C2, as stated, fails in double precision: an image of 700 x 1000 in a
    container of 300 x 300 gets the width 210.00000000000003 (the double
    after 210) and the height 300, whose ratio is not 700 / 1000, neither
    as rationals nor as rounded quotients. *)
Lemma computeCanvasDrawConfig_ratio_counterexample :
  exists layout : Region.t,
    StillImage.computeCanvasDrawConfig 2 700 1000 300 300 = Some layout
    /\ Region.width layout = 7388718138654721 # 35184372088832
    /\ Region.height layout = 300
    /\ ~ Region.width layout / Region.height layout == 700 / 1000
    /\ ~ Double.div (Region.width layout) (Region.height layout)
         == Double.div 700 1000.
Proof.
  eexists. split; [vm_compute; reflexivity|].
  cbn [Region.width Region.height].
  split; [reflexivity|]. split; [reflexivity|].
  split; intro H; vm_compute in H; discriminate H.
Qed.


Lemma computeCanvasDrawConfig_contained_witness :
  exists layout : Region.t,
    StillImage.computeCanvasDrawConfig 2 1200 800 300 400 = Some layout
    /\ (forall depth layout',
          StillImage.computeCanvasDrawConfig depth 1200 800 300 400
          = Some layout' -> layout' = layout)
    /\ Region.width layout <= 300
    /\ Region.height layout <= 400
    /\ Region.width layout <= 1200
    /\ Region.height layout <= 800
    /\ 0 <= Region.x layout /\ Region.x layout <= 300
    /\ 0 <= Region.y layout /\ Region.y layout <= 400
    /\ (1 <= 1200 /\ 1200 <= Double.pow2 511
        /\ 1 <= 800 /\ 800 <= Double.pow2 511
        /\ 1 <= 300 /\ 1 <= 400 ->
        0 < Region.height layout
        /\ Qabs (Region.width layout / Region.height layout - 1200 / 800)
           <= 5 * Double.unitRoundoff * (1200 / 800))
    /\ (1200 <= 300 -> 800 <= 400 ->
        Region.width layout = 1200
        /\ Region.height layout = 800
        /\ Region.x layout
           = Double.div (Double.sub 300 (Region.width layout)) 2
        /\ Region.y layout
           = Double.div (Double.sub 400 (Region.height layout)) 2
        /\ (forall a b : Z,
              300 == inject_Z a -> 1200 == inject_Z b ->
              (a < 2 ^ 53)%Z ->
              Region.x layout == (300 - Region.width layout) / 2)
        /\ (forall a b : Z,
              400 == inject_Z a -> 800 == inject_Z b ->
              (a < 2 ^ 53)%Z ->
              Region.y layout == (400 - Region.height layout) / 2)).
Proof.
  apply (computeCanvasDrawConfig_contained 1200 800 300 400);
    [reflexivity | reflexivity | reflexivity | reflexivity
     | split; vm_compute; [reflexivity|discriminate] ..].
Defined.

(** ** Viewfinder geometry *)

Section ShadingGeometry.

Import Shading.

Lemma inBox_iff (b : Box) (px py : Q) :
  inBox b px py = true
  <-> boxLeft b <= px /\ px < boxLeft b + boxWidth b
      /\ boxTop b <= py /\ py < boxTop b + boxHeight b.
Proof.
  unfold inBox.
  rewrite !andb_true_iff, !Qle_bool_iff, !Qltb_true. tauto.
Qed.

Lemma inBox_false_iff (b : Box) (px py : Q) :
  inBox b px py = false
  <-> ~ (boxLeft b <= px /\ px < boxLeft b + boxWidth b
         /\ boxTop b <= py /\ py < boxTop b + boxHeight b).
Proof.
  rewrite <- inBox_iff. destruct (inBox b px py); split; congruence.
Qed.

(** The four positions are the supported ones: building the shading
    elements never throws. *)
Lemma _possiblyInsertShadingElement_returns (height : Q) (r : Region.t) :
  exists es, _possiblyInsertShadingElement height r = Return es.
Proof.
  unfold _possiblyInsertShadingElement.
  destruct (Qeq_bool (Region.x r) 0 && Qeq_bool (Region.y r) 0);
    eexists; reflexivity.
Qed.

Variables width height qrbox : Q.
Hypothesis qrbox_min : Html5Qrcode.MIN_QR_BOX_SIZE <= qrbox.
Hypothesis qrbox_width : qrbox <= width.
Hypothesis qrbox_height : qrbox <= height.

(** The width of the container the elements are laid out in: [start] gives
    the video the container's width, and the viewfinder's [width] is what
    the video reports when it plays. *)
Variable containerWidth : Q.
Hypothesis container_width : containerWidth == width.

Lemma _getShadedRegionBounds_centered :
  _getShadedRegionBounds width height qrbox
  = Return (Region.mk ((width - qrbox) / 2) ((height - qrbox) / 2)
                      qrbox qrbox).
Proof.
  unfold _getShadedRegionBounds.
  assert (Ew : Qgtb qrbox width = false) by now apply Qgtb_false.
  assert (Eh : Qgtb qrbox height = false) by now apply Qgtb_false.
  now rewrite Ew, Eh.
Qed.

(** The shading elements of a region at [(x0, y0)] with side [qrbox], where
    [x0] and [y0] are the halves of what the square leaves free. *)
Lemma shading_of_centered (x0 y0 : Q) (es : list ShadedElement) :
  2 * x0 == width - qrbox ->
  2 * y0 == height - qrbox ->
  _possiblyInsertShadingElement height (Region.mk x0 y0 qrbox qrbox)
  = Return es ->
  forall px py,
    (forall e, In e es ->
       inBox (layout containerWidth e) px py = true ->
       inBox (regionBox (Region.mk x0 y0 qrbox qrbox)) px py = false)
    /\ (shaded containerWidth es px py = true
        <-> inBox (viewfinderBox width height) px py = true
            /\ inBox (regionBox (Region.mk x0 y0 qrbox qrbox)) px py
               = false).
Proof.
  intros Hx Hy.
  unfold Html5Qrcode.MIN_QR_BOX_SIZE in qrbox_min.
  unfold _possiblyInsertShadingElement. cbn [Region.x Region.y].
  destruct (Qeq_bool x0 0 && Qeq_bool y0 0) eqn:G.
  - apply andb_true_iff in G. destruct G as [Gx Gy].
    apply Qeq_bool_iff in Gx, Gy.
    intros [= <-] px py. split; [intros e []|].
    cbn [shaded existsb]. split; [discriminate|].
    rewrite inBox_iff, inBox_false_iff. cbn.
    intros [V R]. exfalso. apply R. lra.
  - clear G. cbn. intros [= <-] px py.
    match goal with
    | |- (forall e, In e ?l -> _) /\ _ =>
      assert (L : forall e, In e l ->
        inBox (layout containerWidth e) px py = true ->
        inBox (viewfinderBox width height) px py = true
        /\ inBox (regionBox (Region.mk x0 y0 qrbox qrbox)) px py = false)
    end.
    { intros e He. rewrite !inBox_iff, inBox_false_iff.
      destruct He as [<-|[<-|[<-|[<-|[]]]]]; cbn;
        intros B; (split; [|intro R]); lra. }
    split.
    + intros e He B. exact (proj2 (L e He B)).
    + split.
      * unfold shaded. rewrite existsb_exists.
        intros (e & He & B). exact (L e He B).
      * rewrite inBox_iff, inBox_false_iff. cbn.
        intros [V R].
        unfold shaded. cbn [existsb]. rewrite !orb_true_iff, !inBox_iff.
        cbn.
        destruct (Qlt_le_dec px x0) as [A|A]; [left; lra|].
        destruct (Qlt_le_dec px (x0 + qrbox)) as [B|B];
          [|right; left; lra].
        destruct (Qlt_le_dec py y0) as [C|C]; [right; right; left; lra|].
        destruct (Qlt_le_dec py (y0 + qrbox)) as [D|D];
          [exfalso; apply R; lra|].
        right; right; right; left; lra.
Qed.

(** C3: when shading is applied, the scanned region is the square of side
    [qrbox] centred in the [width] x [height] viewfinder; every shading
    element built for it is disjoint from the region, and a point is covered
    by a shading element exactly when it lies in the viewfinder and outside
    the region, in a container that is as wide as the viewfinder. *)
Theorem shading_covers_outside :
  exists (region : Region.t) (es : list ShadedElement),
    _getShadedRegionBounds width height qrbox = Return region
    /\ Region.x region = (width - qrbox) / 2
    /\ Region.y region = (height - qrbox) / 2
    /\ Region.width region = qrbox
    /\ Region.height region = qrbox
    /\ _possiblyInsertShadingElement height region = Return es
    /\ (List.length es <= 4)%nat
    /\ forall px py,
         (forall e, In e es ->
            inBox (layout containerWidth e) px py = true ->
            inBox (regionBox region) px py = false)
         /\ (shaded containerWidth es px py = true
             <-> inBox (viewfinderBox width height) px py = true
                 /\ inBox (regionBox region) px py = false).
Proof.
  destruct (_possiblyInsertShadingElement_returns height
              (Region.mk ((width - qrbox) / 2) ((height - qrbox) / 2)
                         qrbox qrbox)) as [es Hes].
  exists (Region.mk ((width - qrbox) / 2) ((height - qrbox) / 2)
                    qrbox qrbox), es.
  split; [exact _getShadedRegionBounds_centered|].
  do 4 (split; [reflexivity|]).
  split; [exact Hes|]. split.
  - revert Hes. unfold _possiblyInsertShadingElement.
    destruct (_ && _); intros [= <-]; simpl; lia.
  - apply shading_of_centered; [field | field | exact Hes].
Qed.

End ShadingGeometry.

Lemma shading_covers_outside_witness :
  exists (region : Region.t) (es : list Shading.ShadedElement),
    Shading._getShadedRegionBounds 300 200 100 = Return region
    /\ Region.x region = (300 - 100) / 2
    /\ Region.y region = (200 - 100) / 2
    /\ Region.width region = 100
    /\ Region.height region = 100
    /\ Shading._possiblyInsertShadingElement 200 region = Return es
    /\ (List.length es <= 4)%nat
    /\ forall px py,
         (forall e, In e es ->
            Shading.inBox (Shading.layout 300 e) px py = true ->
            Shading.inBox (Shading.regionBox region) px py = false)
         /\ (Shading.shaded 300 es px py = true
             <-> Shading.inBox (Shading.viewfinderBox 300 200) px py = true
                 /\ Shading.inBox (Shading.regionBox region) px py = false).
Proof.
  apply (shading_covers_outside 300 200 100) with (containerWidth := 300);
    [vm_compute; discriminate .. | reflexivity].
Defined.

(** C3, as stated, fails when the container is wider than the viewfinder:
    with a container 300 wide, a video rendered at 250 x 250 and a box of
    200, the element anchored with [right: 0px] lies at the container's
    right edge.  The point (230, 10) is in the viewfinder and outside the
    region, and no shading element covers it; the point (280, 10) is
    covered and is not in the viewfinder. *)
Lemma shading_covers_outside_counterexample :
  exists (region : Region.t) (es : list Shading.ShadedElement),
    Shading._getShadedRegionBounds 250 250 200 = Return region
    /\ Shading._possiblyInsertShadingElement 250 region = Return es
    /\ Shading.inBox (Shading.viewfinderBox 250 250) 230 10 = true
    /\ Shading.inBox (Shading.regionBox region) 230 10 = false
    /\ Shading.shaded 300 es 230 10 = false
    /\ Shading.shaded 300 es 280 10 = true
    /\ Shading.inBox (Shading.viewfinderBox 250 250) 280 10 = false.
Proof.
  do 2 eexists. repeat split; vm_compute; reflexivity.
Qed.

(** ** Device enumeration *)

Section DeviceEnumeration.

Import Devices.

(** The loop invariant: having visited [visited], the loop adds the video
    inputs of what is left. *)
Lemma collect_from (rest visited : list MediaDeviceInfo)
  (results : list Camera) :
  collect (List.length rest) (visited ++ rest) (List.length visited) results
  = results ++ videoInputs rest.
Proof.
  revert visited results.
  induction rest as [|device rest IH]; intros visited results.
  - simpl. now rewrite app_nil_r.
  - cbn [List.length collect].
    rewrite nth_error_app2 by lia.
    rewrite Nat.sub_diag. cbn [nth_error].
    replace (visited ++ device :: rest) with ((visited ++ [device]) ++ rest)
      by now rewrite <- app_assoc.
    replace (S (List.length visited)) with (List.length (visited ++ [device]))
      by (rewrite length_app; simpl; lia).
    rewrite IH.
    unfold videoInputs. cbn [filter]. unfold isVideoInput at 2.
    destruct (String.eqb (kind device) "videoinput").
    + now rewrite <- app_assoc.
    + reflexivity.
Qed.

(** C4: when the enumeration answers with [devices], [getCameras] resolves
    with the devices of kind "videoinput", each as [{id, label}], in the
    order of the enumeration, and with nothing else. *)
Theorem getCameras_videoinput (devices : list MediaDeviceInfo) :
  getCameras (MediaDevices (Fulfilled tt) (Fulfilled devices))
  = Resolved (videoInputs devices)
  /\ forall c, In c (videoInputs devices)
       <-> exists device,
             In device devices
             /\ kind device = "videoinput"%string
             /\ c = {| id := deviceId device; cameraLabel := label device |}.
Proof.
  split.
  - cbn [getCameras]. f_equal. exact (collect_from devices [] []).
  - intro c. unfold videoInputs. rewrite in_map_iff. split.
    + intros (device & <- & Hin). apply filter_In in Hin.
      destruct Hin as [Hin Hk]. apply String.eqb_eq in Hk.
      now exists device.
    + intros (device & Hin & Hk & ->). exists device. split; [reflexivity|].
      apply filter_In. split; [assumption|]. now apply String.eqb_eq.
Qed.

End DeviceEnumeration.

Example getCameras_example :
  Devices.getCameras
    (Devices.MediaDevices (Devices.Fulfilled tt)
       (Devices.Fulfilled
          [Devices.mkDevice "audioinput" "a1" "Microphone";
           Devices.mkDevice "videoinput" "v1" "Back camera";
           Devices.mkDevice "audiooutput" "s1" "Speaker";
           Devices.mkDevice "videoinput" "v2" "Front camera"]))
  = Devices.Resolved
      [Devices.mkCamera "v1" "Back camera";
       Devices.mkCamera "v2" "Front camera"].
Proof. reflexivity. Qed.

(** ** Frame sampler *)

Section FrameSampler.

Import Scanner.

(** What [foreverScan] passes to [drawImage]: the extent of the source
    rectangle is the region's extent times the ratio between native and
    rendered size, the destination is the whole canvas, and the origin of
    the source rectangle is the region's origin as it is. *)
Lemma drawImageCall_args (m : VideoMetrics) (qrRegion : Region.t) :
  drawImageCall m qrRegion
  = DrawImage
      (Region.x qrRegion) (Region.y qrRegion)
      (Region.width qrRegion * (videoWidth m / videoClientWidth m))
      (Region.height qrRegion * (videoHeight m / videoClientHeight m))
      0 0 (Region.width qrRegion) (Region.height qrRegion).
Proof. reflexivity. Qed.

(** C1, at a failing input: with a region at [(50, 25)] and frames twice as
    large as rendered, the first scan iteration copies the source rectangle
    of extent [400 x 400] at origin [(50, 25)], not at the region's origin
    times the ratios, [(100, 50)]. *)
Theorem foreverScan_origin_unscaled :
  exists qrRegion sx sy sWidth sHeight,
    _qrRegion sampleWorld = Some qrRegion
    /\ Region.x qrRegion == 50 /\ Region.y qrRegion == 25
    /\ Region.width qrRegion == 200 /\ Region.height qrRegion == 200
    /\ In (DrawImage sx sy sWidth sHeight 0 0
             (Region.width qrRegion) (Region.height qrRegion))
          (log sampleWorld)
    /\ sWidth
       == Region.width qrRegion
          * (videoWidth sampleMetrics / videoClientWidth sampleMetrics)
    /\ sHeight
       == Region.height qrRegion
          * (videoHeight sampleMetrics / videoClientHeight sampleMetrics)
    /\ sx == 50 /\ sy == 25
    /\ ~ sx == Region.x qrRegion
            * (videoWidth sampleMetrics / videoClientWidth sampleMetrics)
    /\ ~ sy == Region.y qrRegion
            * (videoHeight sampleMetrics / videoClientHeight sampleMetrics).
Proof.
  exists (Region.mk ((300 - 200) / 2) ((250 - 200) / 2) 200 200).
  exists ((300 - 200) / 2), ((250 - 200) / 2).
  exists (200 * (600 / 300)), (200 * (500 / 250)).
  split; [reflexivity|].
  do 4 (split; [reflexivity|]).
  split.
  - unfold sampleWorld, sampleSession. cbn.
    do 5 right. left. reflexivity.
  - repeat split; try reflexivity; discriminate.
Qed.

End FrameSampler.

(** ** Still-image path and argument validation *)

Section Validation.

Import Scanner.

(** C5, as stated, fails: during a camera scan a call without a [File]
    throws the argument error, not the ongoing-scan error. *)
Lemma scanFile_message_counterexample :
  ~ (forall (w : World) (imageFile : option File) (showImage : option bool),
       _isScanning w = true ->
       scanFile imageFile showImage w
       = (Throw "Close ongoing scan before scanning a file.", w)).
Proof.
  intro H.
  specialize (H sampleWorld None None eq_refl).
  discriminate H.
Qed.

(** C5, amended: while a camera scan is ongoing, [scanFile] throws and
    leaves the scanner, the page and the log as they were; the error is the
    ongoing-scan error when the argument is a [File], and the argument error
    otherwise. *)
Theorem scanFile_exclusive
  (w : World) (imageFile : option File) (showImage : option bool) :
  _isScanning w = true ->
  scanFile imageFile showImage w
  = (Throw
       match imageFile with
       | Some _ => "Close ongoing scan before scanning a file."
       | None =>
         "imageFile argument is mandatory and should be instance "
         ++ "of File. Use 'event.target.files[0]'"
       end,
     w).
Proof.
  intro S. unfold scanFile.
  destruct imageFile as [f|]; [|reflexivity].
  unfold bind, get. now rewrite S.
Qed.

(** C9: with [config.qrbox] defined and smaller than [MIN_QR_BOX_SIZE] or
    larger than the container's width ([clientWidth], or [DEFAULT_WIDTH]
    when that is falsy), [start] throws; it has requested no camera,
    scheduled nothing, received no stream, left [_isScanning] alone and
    inserted no element. *)
Theorem start_validates_qrbox
  (w : World) (cameraId : option string) (config : Config) (q : Q)
  (onSuccess onError : option Callback) :
  qrbox config = Some q ->
  q < Html5Qrcode.MIN_QR_BOX_SIZE
  \/ (if truthy (clientWidth w) then clientWidth w
      else Html5Qrcode.DEFAULT_WIDTH) < q ->
  exists msg w',
    start cameraId (Some config) onSuccess onError w = (Throw msg, w')
    /\ log w' = log w
    /\ requests w' = requests w
    /\ timers w' = timers w
    /\ videos w' = videos w
    /\ _localMediaStream w' = _localMediaStream w
    /\ _videoElement w' = _videoElement w
    /\ _isScanning w' = _isScanning w
    /\ (forall n, In n (children w') -> In n (children w)).
Proof.
  intros Hq Hbad. unfold start.
  destruct (falsyString cameraId).
  { do 2 eexists. split; [reflexivity|]. repeat split; trivial. }
  destruct onSuccess as [onSuccess|].
  2:{ do 2 eexists. split; [reflexivity|]. repeat split; trivial. }
  unfold bind at 1. unfold _clearElement, bind at 1, get at 1.
  destruct (_isScanning w) eqn:S.
  { do 2 eexists. split; [reflexivity|]. repeat split; trivial. }
  cbn [modify fst snd]. unfold bind at 1, get at 1.
  rewrite Hq.
  cbn [clientWidth set_children].
  unfold bind at 1. cbn [modify]. unfold bind at 1. cbn [modify].
  unfold bind at 1. cbn [modify]. unfold bind at 1.
  cbn [ltOpt gtOpt].
  destruct (Qltb q Html5Qrcode.MIN_QR_BOX_SIZE) eqn:Emin.
  { do 2 eexists. split; [reflexivity|].
    cbn. rewrite S. repeat split; trivial. intros n []. }
  apply Qltb_false in Emin.
  destruct Hbad as [Hbad|Hbad]; [lra|].
  apply Qgtb_true in Hbad. rewrite Hbad.
  do 2 eexists. split; [reflexivity|].
  cbn. rewrite S. repeat split; trivial. intros n [].
Qed.

(** C10: when [config.qrbox] exceeds the rendered video height, [setupUi]
    returns normally; it warns, takes the whole rendered video as the
    region, and appends the canvas of that size and no shading element. *)
Theorem setupUi_falls_back
  (env : StartEnv) (width height q : Q) (w : World) :
  configQrbox env = Some q ->
  height < q ->
  exists w' canvasElement,
    setupUi env width height w = (Return tt, w')
    /\ _qrRegion w' = Some (Region.mk 0 0 width height)
    /\ children w' = children w ++ [canvasElement]
    /\ element canvasElement
       = Canvas "qr-canvas" width height "none"
           (canvasSize 300 width) (canvasSize 150 height)
    /\ _canvasElement w' = Some canvasElement
    /\ log w'
       = log w
         ++ [Warn ("[Html5Qrcode] config.qrboxsize is greater "
                   ++ "than video height. Shading will be ignored");
             SetupUi (startId env) (Region.mk 0 0 width height)].
Proof.
  intros Hq Hh. unfold setupUi. rewrite Hq. cbn [gtOpt leOpt].
  assert (G : Qgtb q height = true) by now apply Qgtb_true.
  assert (L : Qle_bool q height = false) by now apply Qle_bool_false.
  rewrite G, L, andb_false_r.
  do 2 eexists. split; [reflexivity|].
  cbn. rewrite <- app_assoc. repeat split.
Qed.

(** With a box that fits, [setupUi] installs the centred region and appends
    the canvas followed by the shading elements of
    [_possiblyInsertShadingElement], in their order. *)
Lemma setupUi_shades
  (env : StartEnv) (width height q : Q) (w : World) :
  configQrbox env = Some q ->
  isShadedBoxEnabled env = true ->
  q <= width ->
  q <= height ->
  exists w' es canvasElement nodes,
    setupUi env width height w = (Return tt, w')
    /\ _qrRegion w'
       = Some (Region.mk ((width - q) / 2) ((height - q) / 2) q q)
    /\ Shading._possiblyInsertShadingElement height
         (Region.mk ((width - q) / 2) ((height - q) / 2) q q) = Return es
    /\ children w' = children w ++ canvasElement :: nodes
    /\ element canvasElement
       = Canvas "qr-canvas" q q "none" (canvasSize 300 q) (canvasSize 150 q)
    /\ map element nodes = map Shaded es.
Proof.
  intros Hq Hs Hw Hh. unfold setupUi. rewrite Hq, Hs. cbn [gtOpt leOpt].
  assert (G : Qgtb q height = false) by now apply Qgtb_false.
  assert (L : Qle_bool q height = true) by now apply Qle_bool_iff.
  rewrite G, L. cbn [andb].
  unfold bind at 1. cbn [ret]. unfold bind at 1. unfold lift at 1.
  rewrite (_getShadedRegionBounds_centered width height q Hw Hh).
  unfold Shading._possiblyInsertShadingElement. cbn [Region.x Region.y].
  destruct (Qeq_bool ((width - q) / 2) 0 && Qeq_bool ((height - q) / 2) 0).
  - do 2 eexists. eexists. exists []. cbn.
    split; [reflexivity|]. repeat split.
  - do 4 eexists. cbn.
    split; [reflexivity|]. split; [reflexivity|]. split; [reflexivity|].
    rewrite <- !app_assoc. cbn [app].
    split; [reflexivity|]. split; reflexivity.
Qed.

End Validation.

Lemma scanFile_exclusive_witness :
  Scanner._isScanning sampleWorld = true
  /\ Scanner.scanFile (Some 7%nat) None sampleWorld
     = (Throw "Close ongoing scan before scanning a file.", sampleWorld).
Proof.
  split; [reflexivity|].
  apply (scanFile_exclusive sampleWorld (Some 7%nat) None). reflexivity.
Defined.

Lemma start_validates_qrbox_witness :
  exists msg w',
    Scanner.start (Some "camera-0"%string)
      (Some (Scanner.mkConfig None (Some 400)))
      (Some (Scanner.UserFunction 0)) None
      (Scanner.constructor Scanner.MediaDevicesGetUserMedia 300 [])
    = (Throw msg, w')
    /\ Scanner.log w' = []
    /\ Scanner.requests w' = []
    /\ Scanner.timers w' = []
    /\ Scanner.videos w' = []
    /\ Scanner._localMediaStream w' = None
    /\ Scanner._videoElement w' = None
    /\ Scanner._isScanning w' = false
    /\ (forall n, In n (Scanner.children w') -> In n []).
Proof.
  apply (start_validates_qrbox
           (Scanner.constructor Scanner.MediaDevicesGetUserMedia 300 [])
           (Some "camera-0"%string) (Scanner.mkConfig None (Some 400)) 400).
  - reflexivity.
  - right. reflexivity.
Defined.

Lemma setupUi_falls_back_witness :
  exists w' canvasElement,
    Scanner.setupUi
      (Scanner.mkEnv 0 2 (Some 280) true 300 Scanner.ConsoleLog) 300 225
      (Scanner.constructor Scanner.MediaDevicesGetUserMedia 300 [])
    = (Return tt, w')
    /\ Scanner._qrRegion w' = Some (Region.mk 0 0 300 225)
    /\ Scanner.children w' = [] ++ [canvasElement]
    /\ Scanner.element canvasElement
       = Scanner.Canvas "qr-canvas" 300 225 "none" 300 225
    /\ Scanner._canvasElement w' = Some canvasElement
    /\ Scanner.log w'
       = [] ++ [Scanner.Warn ("[Html5Qrcode] config.qrboxsize is greater "
                              ++ "than video height. Shading will be ignored");
                Scanner.SetupUi 0 (Region.mk 0 0 300 225)].
Proof.
  apply (setupUi_falls_back
           (Scanner.mkEnv 0 2 (Some 280) true 300 Scanner.ConsoleLog)
           300 225 280
           (Scanner.constructor Scanner.MediaDevicesGetUserMedia 300 [])).
  - reflexivity.
  - reflexivity.
Defined.

(** ** Relations kept by every call *)

Section Respects.

Import Scanner.

Variable R : World -> World -> Prop.
Hypothesis R_refl : forall w, R w w.
Hypothesis R_trans : forall a b c, R a b -> R b c -> R a c.

Lemma respects_ret {A : Type} (a : A) : respects R (ret a).
Proof. intro w. apply R_refl. Qed.

Lemma respects_throw {A : Type} (msg : string) : respects R (@throw A msg).
Proof. intro w. apply R_refl. Qed.

Lemma respects_lift {A : Type} (o : outcome A) : respects R (lift o).
Proof. intro w. apply R_refl. Qed.

Lemma respects_get : respects R get.
Proof. intro w. apply R_refl. Qed.

Lemma respects_modify (f : World -> World) :
  (forall w, R w (f w)) -> respects R (modify f).
Proof. intros H w. apply H. Qed.

Lemma respects_bind {A B : Type} (m : M A) (f : A -> M B) :
  respects R m -> (forall a, respects R (f a)) -> respects R (bind m f).
Proof.
  intros Hm Hf w. unfold bind. specialize (Hm w).
  destruct (m w) as [[a|msg] w1]; cbn [snd] in *.
  - eapply R_trans; [exact Hm|apply Hf].
  - exact Hm.
Qed.

Lemma respects_catch {A : Type} (m : M A) (h : string -> M A) :
  respects R m -> (forall msg, respects R (h msg)) -> respects R (catch m h).
Proof.
  intros Hm Hh w. unfold catch. specialize (Hm w).
  destruct (m w) as [[a|msg] w1]; cbn [snd] in *.
  - exact Hm.
  - eapply R_trans; [exact Hm|apply Hh].
Qed.

Lemma respects_call {A : Type} (m : M A) (w : World) :
  respects R m -> R w (call m w).
Proof. intro H. apply H. Qed.

Lemma respects_handler (m : M unit) (w : World) :
  respects R m ->
  (forall msg v, R v (set_log (log v ++ [Uncaught msg]) v)) ->
  R w (handler m w).
Proof.
  intros Hm Hu. unfold handler. specialize (Hm w).
  destruct (m w) as [[a|msg] w1]; cbn [snd] in *.
  - exact Hm.
  - eapply R_trans; [exact Hm|apply Hu].
Qed.

(** If a sequence returns, its first part returned and left a related
    state. *)
Lemma bind_returns {A B : Type} (m : M A) (f : A -> M B)
  (w w' : World) (b : B) :
  respects R m ->
  bind m f w = (Return b, w') ->
  exists a w1, R w w1 /\ f a w1 = (Return b, w').
Proof.
  intros Hm. unfold bind. specialize (Hm w).
  destruct (m w) as [[a|msg] w1]; cbn [snd] in *; intro E.
  - now exists a, w1.
  - discriminate.
Qed.

End Respects.

(** Takes a goal [respects R m] apart along the structure of [m]; [leaf]
    proves that a single state change keeps [R], [rec] knows the recursive
    functions. *)
Ltac respects_step Rrefl Rtrans leaf rec :=
  lazymatch goal with
  | |- respects _ (Scanner.bind _ _) =>
    apply (respects_bind _ Rtrans); [|intro]
  | |- respects _ (Scanner.ret _) => apply (respects_ret _ Rrefl)
  | |- respects _ (Scanner.throw _) => apply (respects_throw _ Rrefl)
  | |- respects _ (Scanner.lift _) => apply (respects_lift _ Rrefl)
  | |- respects _ Scanner.get => apply (respects_get _ Rrefl)
  | |- respects _ (Scanner.catch _ _) =>
    apply (respects_catch _ Rtrans); [|intro]
  | |- respects _ (Scanner.modify _) => apply respects_modify; leaf
  | |- respects _ (Scanner.emit _) =>
    unfold Scanner.emit; apply respects_modify; leaf
  | |- respects _ (if ?b then _ else _) => destruct b
  | |- respects _ (match ?x with _ => _ end) => destruct x
  | |- respects _ _ => first [ rec | progress cbv zeta ]
  end.

Ltac respects_unfold :=
  progress unfold
    Scanner._clearElement, Scanner._createCanvasElement,
    Scanner._createVideoElement, Scanner._possiblyCloseLastScanImageFile,
    Scanner.createElement, Scanner.append, Scanner.removeChild,
    Scanner.clearTimeout, Scanner.removeQrRegion, Scanner.onAllTracksClosed,
    Scanner.setupUi, Scanner.rejectReceived,
    Scanner.onMediaStreamReceived, Scanner.scanFile, Scanner.clear.

(** ** Cancelling the scan loop *)

Section Cancellation.

Import Scanner.

Lemma quiet_refl (w : World) : quiet w w.
Proof.
  intro H. split; [exact H|]. split; [trivial|].
  exists []. now rewrite app_nil_r.
Qed.

Lemma quiet_trans (a b c : World) : quiet a b -> quiet b c -> quiet a c.
Proof.
  intros Hab Hbc Ha.
  destruct (Hab Ha) as (Hb & Tb & l1 & L1 & Q1).
  destruct (Hbc Hb) as (Hc & Tc & l2 & L2 & Q2).
  split; [exact Hc|]. split; [auto|].
  exists (l1 ++ l2). split.
  - now rewrite L2, L1, app_assoc.
  - rewrite forallb_app. now rewrite Q1, Q2.
Qed.

(** A single assignment or log entry that is not one of the three. *)
Ltac quiet_leaf :=
  let w := fresh "w" in
  let H := fresh "H" in
  intros w H; cbn;
  split; [first [exact H | reflexivity]|];
  split; [first [ solve [trivial]
                | let t := fresh "t" in
                  let Hin := fresh "Hin" in
                  intros t Hin; apply filter_In in Hin; tauto ]|];
  first [ exists []; rewrite app_nil_r; split; reflexivity
        | eexists; split; reflexivity ].

Ltac quiet_tac rec :=
  repeat first [ respects_step quiet_refl quiet_trans quiet_leaf rec
               | respects_unfold ].

Lemma quiet_appendShadedNodes (es : list Shading.ShadedElement) :
  respects quiet (appendShadedNodes es).
Proof.
  induction es as [|e es IH]; cbn [appendShadedNodes];
    quiet_tac ltac:(exact IH).
Qed.

Lemma quiet_setupUi (env : StartEnv) (width height : Q) :
  respects quiet (setupUi env width height).
Proof. quiet_tac ltac:(apply quiet_appendShadedNodes). Qed.

Lemma quiet_closeTracks (remaining tracksToClose tracksClosed : nat) :
  respects quiet (closeTracks remaining tracksToClose tracksClosed).
Proof.
  revert tracksClosed.
  induction remaining as [|remaining IH]; intro tracksClosed;
    cbn [closeTracks]; quiet_tac ltac:(apply IH).
Qed.

Lemma quiet_stop : respects quiet stop.
Proof. unfold stop. quiet_tac ltac:(apply quiet_closeTracks). Qed.

Lemma quiet_scanFile (imageFile : option File) (showImage : option bool) :
  respects quiet (scanFile imageFile showImage).
Proof. quiet_tac fail. Qed.

(** The guard of the loop body. *)
Lemma foreverScan_stopped
  (env : StartEnv) (m : VideoMetrics) (d : Decoded) (w : World) :
  _shouldScan w = false -> foreverScan env m d w = (Return tt, w).
Proof.
  intro H. unfold foreverScan, bind, get. now rewrite H.
Qed.

Lemma quiet_foreverScan (env : StartEnv) (m : VideoMetrics) (d : Decoded) :
  respects quiet (foreverScan env m d).
Proof.
  intros w H. rewrite (foreverScan_stopped env m d w H).
  now apply quiet_refl.
Qed.

Lemma quiet_resolveReceived (k : nat) : respects quiet (resolveReceived k).
Proof. unfold resolveReceived. quiet_tac fail. Qed.

Lemma quiet_onplaying (env : StartEnv) (m : VideoMetrics) (d : Decoded) :
  respects quiet (onplaying env m d).
Proof.
  unfold onplaying.
  quiet_tac ltac:(first [ apply quiet_setupUi
                        | apply quiet_foreverScan
                        | apply quiet_resolveReceived ]).
Qed.

Lemma quiet_uncaught (msg : string) (v : World) :
  quiet v (set_log (log v ++ [Uncaught msg]) v).
Proof. revert v. quiet_leaf. Qed.

(** Every action except a call of [start] keeps the scanner quiet. *)
Lemma quiet_step (a : Action) (w : World) :
  isCallStart a = false -> quiet w (step a w).
Proof.
  destruct a; cbn [isCallStart step]; intro N; try discriminate.
  - apply respects_call, quiet_stop.
  - apply respects_call, quiet_scanFile.
  - apply respects_call. quiet_tac fail.
  - destruct (findEnv k (requests w)); [|apply quiet_refl].
    eapply quiet_trans; [|apply (respects_handler quiet quiet_trans)].
    + revert w. quiet_leaf.
    + quiet_tac fail.
    + apply quiet_uncaught.
  - destruct (findEnv k (requests w)); [|apply quiet_refl].
    eapply quiet_trans; [|apply (respects_handler quiet quiet_trans)].
    + revert w. quiet_leaf.
    + quiet_tac fail.
    + apply quiet_uncaught.
  - destruct (findEnv k (videos w)); [|apply quiet_refl].
    apply (respects_handler quiet quiet_trans);
      [apply quiet_onplaying|apply quiet_uncaught].
  - destruct (findEnv k (videos w)); [|apply quiet_refl].
    apply (respects_handler quiet quiet_trans);
      [quiet_tac fail|apply quiet_uncaught].
  - destruct (findTimer timer (timers w)); [|apply quiet_refl].
    eapply quiet_trans; [|apply (respects_handler quiet quiet_trans)].
    + revert w. quiet_leaf.
    + apply quiet_foreverScan.
    + apply quiet_uncaught.
Qed.

Lemma quiet_run (actions : list Action) (w : World) :
  forallb (fun a => negb (isCallStart a)) actions = true ->
  quiet w (run actions w).
Proof.
  revert w. induction actions as [|a actions IH]; intros w H.
  - apply quiet_refl.
  - cbn [forallb] in H. apply andb_true_iff in H. destruct H as [Ha H].
    apply negb_true_iff in Ha.
    cbn [run]. eapply quiet_trans; [apply quiet_step, Ha|apply IH, H].
Qed.

Lemma findTimer_absent (id : nat) (ts : list (nat * StartEnv)) :
  (forall t, In t ts -> fst t <> id) -> findTimer id ts = None.
Proof.
  intro H. unfold findTimer.
  destruct (find (fun t => Nat.eqb (fst t) id) ts) as [t|] eqn:E;
    [|reflexivity].
  apply find_some in E. destruct E as [Hin Heq].
  apply Nat.eqb_eq in Heq. now apply H in Hin.
Qed.

(** [stop] clears the timer that [_foreverScanTimeout] names. *)
Lemma stop_clears_timeout (w : World) (timer : nat) :
  _foreverScanTimeout w = Some timer ->
  findTimer timer (timers (step CallStop w)) = None.
Proof.
  intro Ht. apply findTimer_absent. intros t Hin.
  cbn [step] in Hin. unfold call, stop in Hin.
  unfold bind at 1 in Hin. cbn [modify] in Hin.
  unfold bind at 1 in Hin. cbn [get] in Hin.
  cbn [_foreverScanTimeout set_shouldScan] in Hin. rewrite Ht in Hin.
  unfold bind at 1, clearTimeout at 1, bind at 1, emit at 1 in Hin.
  cbn [modify] in Hin.
  match type of Hin with
  | In _ (timers (snd (catch ?body ?h ?w0))) =>
    assert (Q : quiet w0 (snd (catch body h w0)))
  end.
  { apply (respects_catch quiet quiet_trans).
    - quiet_tac ltac:(apply quiet_closeTracks).
    - intro msg. quiet_tac fail. }
  destruct (Q eq_refl) as (_ & T & _).
  apply T in Hin. cbn in Hin. apply filter_In in Hin.
  destruct Hin as [_ Hne]. apply negb_true_iff, Nat.eqb_neq in Hne.
  exact Hne.
Qed.

(** C7: [stop] sets [_shouldScan] to false and clears the pending timeout;
    from then on a call of the loop body returns at once and changes
    nothing, and whatever happens next short of another [start] (timers that
    still fire, video events, other method calls), no frame is copied, the
    decoder is not called and no iteration is scheduled. *)
Theorem stop_cancels_scan (w : World) (actions : list Action) :
  forallb (fun a => negb (isCallStart a)) actions = true ->
  _shouldScan (step CallStop w) = false
  /\ (forall timer, _foreverScanTimeout w = Some timer ->
        findTimer timer (timers (step CallStop w)) = None)
  /\ (forall env m d,
        foreverScan env m d (step CallStop w)
        = (Return tt, step CallStop w))
  /\ _shouldScan (run actions (step CallStop w)) = false
  /\ exists l,
       log (run actions (step CallStop w)) = log (step CallStop w) ++ l
       /\ forallb (fun e => negb (isScanEvent e)) l = true.
Proof.
  intro N.
  assert (S : _shouldScan (step CallStop w) = false).
  { assert (E : step CallStop w = step CallStop (set_shouldScan false w))
      by reflexivity.
    rewrite E.
    exact (proj1 (quiet_step CallStop (set_shouldScan false w)
                    eq_refl eq_refl)). }
  split; [exact S|].
  split; [intros timer Ht; now apply stop_clears_timeout|].
  split; [intros env m d; now apply foreverScan_stopped|].
  destruct (quiet_run actions (step CallStop w) N S) as (S' & _ & L).
  split; assumption.
Qed.

End Cancellation.

Lemma stop_cancels_scan_witness :
  Scanner._shouldScan (Scanner.step Scanner.CallStop sampleWorld) = false
  /\ (forall timer,
        Scanner._foreverScanTimeout sampleWorld = Some timer ->
        Scanner.findTimer timer
          (Scanner.timers (Scanner.step Scanner.CallStop sampleWorld))
        = None)
  /\ (forall env m d,
        Scanner.foreverScan env m d
          (Scanner.step Scanner.CallStop sampleWorld)
        = (Return tt, Scanner.step Scanner.CallStop sampleWorld))
  /\ Scanner._shouldScan
       (Scanner.run [Scanner.TimerFired 7 sampleMetrics Scanner.DecodeReturns;
                     Scanner.VideoPlaying 0 sampleMetrics
                       Scanner.DecodeReturns]
          (Scanner.step Scanner.CallStop sampleWorld)) = false
  /\ exists l,
       Scanner.log
         (Scanner.run [Scanner.TimerFired 7 sampleMetrics
                         Scanner.DecodeReturns;
                       Scanner.VideoPlaying 0 sampleMetrics
                         Scanner.DecodeReturns]
            (Scanner.step Scanner.CallStop sampleWorld))
       = Scanner.log (Scanner.step Scanner.CallStop sampleWorld) ++ l
       /\ forallb (fun e => negb (isScanEvent e)) l = true.
Proof.
  apply (stop_cancels_scan sampleWorld
           [Scanner.TimerFired 7 sampleMetrics Scanner.DecodeReturns;
            Scanner.VideoPlaying 0 sampleMetrics Scanner.DecodeReturns]).
  reflexivity.
Defined.

(** ** Order of events in [start] *)

Section StartOrder.

Import Scanner.

Lemma pending_refl (w : World) : pending w w.
Proof. split; [trivial|]. exists []. now rewrite app_nil_r. Qed.

Lemma pending_trans (a b c : World) :
  pending a b -> pending b c -> pending a c.
Proof.
  intros [Sab (l1 & L1 & Q1)] [Sbc (l2 & L2 & Q2)].
  split; [auto|].
  exists (l1 ++ l2). split.
  - now rewrite L2, L1, app_assoc.
  - rewrite forallb_app. now rewrite Q1, Q2.
Qed.

Ltac pending_leaf :=
  let w := fresh "w" in
  intros w; split;
  [ cbn; first [solve [trivial] | discriminate]
  | cbn; first [ exists []; rewrite app_nil_r; split; reflexivity
               | eexists; split; reflexivity ] ].

Ltac pending_tac rec :=
  repeat first [ respects_step pending_refl pending_trans pending_leaf rec
               | respects_unfold ].

Lemma pending_appendShadedNodes (es : list Shading.ShadedElement) :
  respects pending (appendShadedNodes es).
Proof.
  induction es as [|e es IH]; cbn [appendShadedNodes];
    pending_tac ltac:(exact IH).
Qed.

Lemma pending_setupUi (env : StartEnv) (width height : Q) :
  respects pending (setupUi env width height).
Proof. pending_tac ltac:(apply pending_appendShadedNodes). Qed.

Lemma pending_closeTracks (remaining tracksToClose tracksClosed : nat) :
  respects pending (closeTracks remaining tracksToClose tracksClosed).
Proof.
  revert tracksClosed.
  induction remaining as [|remaining IH]; intro tracksClosed;
    cbn [closeTracks]; pending_tac ltac:(apply IH).
Qed.

Lemma pending_stop : respects pending stop.
Proof. unfold stop. pending_tac ltac:(apply pending_closeTracks). Qed.

Lemma pending_foreverScan (env : StartEnv) (m : VideoMetrics) (d : Decoded) :
  respects pending (foreverScan env m d).
Proof. unfold foreverScan, drawImageCall. pending_tac fail. Qed.

Lemma pending_start (cameraId : option string) (configuration : option Config)
  (onSuccess onError : option Callback) :
  respects pending (start cameraId configuration onSuccess onError).
Proof. unfold start. pending_tac fail. Qed.

Lemma pending_uncaught (msg : string) (v : World) :
  pending v (set_log (log v ++ [Uncaught msg]) v).
Proof. revert v. pending_leaf. Qed.

Lemma pending_step_returns {A B : Type} (m : M A) (f : A -> M B)
  (w0 w w' : World) (b : B) :
  pending w0 w ->
  respects pending m ->
  bind m f w = (Return b, w') ->
  exists a w1, pending w0 w1 /\ f a w1 = (Return b, w').
Proof.
  intros P Hm E.
  destruct (bind_returns pending m f w w' b Hm E) as (a & w1 & P1 & E1).
  exists a, w1. split; [|exact E1]. exact (pending_trans _ _ _ P P1).
Qed.

(** When [setupUi] returns, the last thing it did was to install the
    region. *)
Lemma setupUi_returns (env : StartEnv) (width height : Q) (w w' : World) :
  setupUi env width height w = (Return tt, w') ->
  exists l qrRegion,
    log w' = log w ++ l ++ [SetupUi (startId env) qrRegion]
    /\ forallb (fun e => negb (isStartResolved e)) l = true
    /\ (_isScanning w' = true -> _isScanning w = true).
Proof.
  intro E. unfold setupUi in E. cbv zeta in E.
  pose proof (pending_refl w) as P.
  repeat
    (eapply pending_step_returns in E;
     [ | exact P | pending_tac ltac:(apply pending_appendShadedNodes) ];
     clear P; destruct E as (? & ? & P & E); cbv beta zeta in E).
  unfold emit, modify in E. injection E as <-.
  destruct P as [S (l & L & Q)].
  exists l. eexists. cbn. rewrite L, <- app_assoc.
  split; [reflexivity|]. split; assumption.
Qed.

(** *** The order is kept *)

Lemma started_app (k : nat) (l l' : list Event) :
  started k l -> started k (l ++ l').
Proof.
  intros (a & b & c & d & r & ->).
  exists a, b, c, (d ++ l'), r.
  repeat (rewrite <- app_assoc; cbn [app]). reflexivity.
Qed.

(** An occurrence in [l ++ l'] of an event that [l'] does not have lies in
    [l]. *)
Lemma split_left (e : Event) (l l' pre post : list Event) :
  ~ In e l' ->
  l ++ l' = pre ++ e :: post ->
  exists post', l = pre ++ e :: post'.
Proof.
  intros N E. apply app_eq_app in E. destruct E as (m & [[E1 E2]|[E1 E2]]).
  - destruct m as [|x m]; cbn [app] in E2.
    + exfalso. apply N. rewrite <- E2. now left.
    + injection E2 as Hx E2. subst x. now exists m.
  - exfalso. apply N. rewrite E2. apply in_or_app. right. now left.
Qed.

Lemma unresolved_not_in (k : nat) (l : list Event) :
  forallb (fun e => negb (isStartResolved e)) l = true ->
  ~ In (StartResolved k) l.
Proof.
  intros Q Hin. rewrite forallb_forall in Q. now apply Q in Hin.
Qed.

Lemma ordered_app (l l' : list Event) :
  ordered l ->
  forallb (fun e => negb (isStartResolved e)) l' = true ->
  ordered (l ++ l').
Proof.
  intros O Q k pre post E.
  apply split_left in E; [|now apply unresolved_not_in].
  destruct E as [post' E]. exact (O k pre post' E).
Qed.

Lemma ordered_resolve (l : list Event) (k : nat) :
  ordered l -> started k l -> ordered (l ++ [StartResolved k]).
Proof.
  intros O S k' pre post E.
  apply app_eq_app in E. destruct E as (m & [[E1 E2]|[E1 E2]]).
  - destruct m as [|x m]; cbn [app] in E2.
    + injection E2 as Hk Hpost. subst k' post.
      rewrite app_nil_r in E1. now subst pre.
    + injection E2 as Hx E2. subst x. exact (O k' pre m E1).
  - destruct m as [|x m]; cbn [app] in E2.
    + injection E2 as Hk Hpost. subst k' post.
      rewrite app_nil_r in E1. now subst pre.
    + injection E2 as _ E2. now destruct m.
Qed.

Lemma startOrder_pending (w w' : World) :
  pending w w' -> startOrder w -> startOrder w'.
Proof.
  intros [S (l & L & Q)] [O I]. split.
  - rewrite L. now apply ordered_app.
  - intro T. destruct (I (S T)) as [k Hin]. exists k.
    rewrite L. apply in_or_app. now left.
Qed.

(** The [onplaying] listener: the only place where a [start] promise is
    resolved and [_isScanning] is set. *)
Lemma startOrder_onplaying
  (env : StartEnv) (m : VideoMetrics) (d : Decoded) (w : World) :
  startOrder w -> startOrder (handler (onplaying env m d) w).
Proof.
  intro I. unfold handler, onplaying.
  unfold bind at 1, emit at 1. cbn [modify].
  set (w1 := set_log (log w ++ [Playing (startId env)]) w).
  assert (P1 : pending w w1) by (subst w1; revert w I; pending_leaf).
  unfold bind at 1.
  pose proof (pending_setupUi env (videoClientWidth m) (videoClientHeight m)
                w1) as P2.
  destruct (setupUi env (videoClientWidth m) (videoClientHeight m) w1)
    as [[[]|msg] w2] eqn:E2; cbn [snd] in P2.
  2:{ apply (startOrder_pending w); [|exact I].
      eapply pending_trans; [exact P1|].
      eapply pending_trans; [exact P2|apply pending_uncaught]. }
  apply setupUi_returns in E2. destruct E2 as (l2 & r & L2 & Q2 & _).
  unfold bind at 1, emit at 1. cbn [modify].
  set (w3 := set_log (log w2 ++ [LoopStart (startId env)]) w2).
  assert (P3 : pending w2 w3) by (subst w3; clear; revert w2; pending_leaf).
  unfold bind at 1.
  pose proof (pending_foreverScan env m d w3) as P4.
  destruct (foreverScan env m d w3) as [[[]|msg] w4] eqn:E4; cbn [snd] in P4.
  2:{ apply (startOrder_pending w); [|exact I].
      eapply pending_trans; [exact P1|].
      eapply pending_trans; [exact P2|].
      eapply pending_trans; [exact P3|].
      eapply pending_trans; [exact P4|apply pending_uncaught]. }
  assert (P : pending w w4).
  { eapply pending_trans; [exact P1|].
    eapply pending_trans; [exact P2|].
    eapply pending_trans; [exact P3|exact P4]. }
  unfold resolveReceived, bind at 1, get at 1.
  destruct (isSettled (startId env) w4).
  { cbn. exact (startOrder_pending w w4 P I). }
  cbn.
  destruct (startOrder_pending w w4 P I) as [O4 _].
  destruct P4 as [_ (l4 & L4 & _)].
  split.
  - apply ordered_resolve; [exact O4|].
    exists (log w), l2, [], l4, r.
    rewrite L4. subst w3. cbn [log set_log]. rewrite L2.
    subst w1. cbn [log set_log].
    repeat (rewrite <- app_assoc; cbn [app]). reflexivity.
  - intros _. exists (startId env). apply in_or_app. right. now left.
Qed.

Lemma startOrder_step (a : Action) (w : World) :
  startOrder w -> startOrder (step a w).
Proof.
  intro I. destruct a; cbn [step].
  - apply (startOrder_pending w); [|exact I].
    apply respects_call, pending_start.
  - apply (startOrder_pending w); [|exact I].
    apply respects_call, pending_stop.
  - apply (startOrder_pending w); [|exact I].
    apply respects_call. pending_tac fail.
  - apply (startOrder_pending w); [|exact I].
    apply respects_call. pending_tac fail.
  - destruct (findEnv k (requests w)); [|exact I].
    apply (startOrder_pending w); [|exact I].
    eapply pending_trans; [|apply (respects_handler pending pending_trans)].
    + clear I. revert w. pending_leaf.
    + pending_tac fail.
    + apply pending_uncaught.
  - destruct (findEnv k (requests w)); [|exact I].
    apply (startOrder_pending w); [|exact I].
    eapply pending_trans; [|apply (respects_handler pending pending_trans)].
    + clear I. revert w. pending_leaf.
    + pending_tac fail.
    + apply pending_uncaught.
  - destruct (findEnv k (videos w)); [|exact I].
    now apply startOrder_onplaying.
  - destruct (findEnv k (videos w)); [|exact I].
    apply (startOrder_pending w); [|exact I].
    apply (respects_handler pending pending_trans);
      [pending_tac fail|apply pending_uncaught].
  - destruct (findTimer timer (timers w)); [|exact I].
    apply (startOrder_pending w); [|exact I].
    eapply pending_trans; [|apply (respects_handler pending pending_trans)].
    + clear I. revert w. pending_leaf.
    + apply pending_foreverScan.
    + apply pending_uncaught.
Qed.

Lemma startOrder_run (actions : list Action) (w : World) :
  startOrder w -> startOrder (run actions w).
Proof.
  revert w. induction actions as [|a actions IH]; intros w I.
  - exact I.
  - cbn [run]. apply IH. now apply startOrder_step.
Qed.

Lemma startOrder_constructor
  (nav : Navigator) (width : Q) (nodes : list Node) :
  startOrder (constructor nav width nodes).
Proof.
  split.
  - intros k pre post E. cbn in E. now destruct pre.
  - discriminate.
Qed.

End StartOrder.

(** The sample session is such a run: its promise is resolved and the
    scanner is scanning. *)
Example sampleSession_resolved :
  Scanner._isScanning sampleWorld = true
  /\ In (Scanner.StartResolved 0) (Scanner.log sampleWorld).
Proof. split; [reflexivity|]. cbn. do 8 right. left. reflexivity. Qed.

(** * Further properties *)

(** ** Containment fit: placement *)

Section FitPlacement.

Import Fit.

Variables imageWidth imageHeight containerWidth containerHeight : Q.
Hypothesis imageWidth_pos : 0 < imageWidth.
Hypothesis imageHeight_pos : 0 < imageHeight.
Hypothesis containerWidth_pos : 0 < containerWidth.
Hypothesis containerHeight_pos : 0 < containerHeight.







End FitPlacement.




(** ** Viewfinder geometry: bounds and overlap *)

Section ShadingBounds.

Import Shading.

(** [_getShadedRegionBounds] throws exactly when the box is wider or higher
    than the viewfinder; a box that is not negative gives a region inside
    the viewfinder. *)
Theorem _getShadedRegionBounds_guard (width height qrboxSize : Q) :
  match _getShadedRegionBounds width height qrboxSize with
  | Return region =>
    qrboxSize <= width /\ qrboxSize <= height
    /\ (0 <= qrboxSize ->
        0 <= Region.x region /\ 0 <= Region.y region
        /\ Region.x region + Region.width region <= width
        /\ Region.y region + Region.height region <= height)
  | Throw msg =>
    (width < qrboxSize \/ height < qrboxSize)
    /\ msg = ("'config.qrbox' should not be greater than the "
              ++ "width and height of the HTML element.")%string
  end.
Proof.
  unfold _getShadedRegionBounds.
  destruct (Qgtb qrboxSize width) eqn:Ew; cbn [orb].
  - apply Qgtb_true in Ew. split; [now left|reflexivity].
  - apply Qgtb_false in Ew.
    destruct (Qgtb qrboxSize height) eqn:Eh.
    + apply Qgtb_true in Eh. split; [now right|reflexivity].
    + apply Qgtb_false in Eh.
      split; [exact Ew|]. split; [exact Eh|].
      intro Hq. cbn [Region.x Region.y Region.width Region.height].
      assert (Ex : 2 * ((width - qrboxSize) / 2) == width - qrboxSize)
        by field.
      assert (Ey : 2 * ((height - qrboxSize) / 2) == height - qrboxSize)
        by field.
      set (x0 := (width - qrboxSize) / 2) in *.
      set (y0 := (height - qrboxSize) / 2) in *.
      repeat split; lra.
Qed.

Variables width height qrbox : Q.
Hypothesis qrbox_min : Html5Qrcode.MIN_QR_BOX_SIZE <= qrbox.
Hypothesis qrbox_width : qrbox <= width.
Hypothesis qrbox_height : qrbox <= height.

(** The container the elements are laid out in is at least as wide as the
    viewfinder. *)
Variable containerWidth : Q.
Hypothesis container_width : width <= containerWidth.

(** The number of shading elements that cover a point. *)
Let covering (es : list ShadedElement) (px py : Q) : nat :=
  List.length (filter (fun e => inBox (layout containerWidth e) px py) es).

Lemma covering_of_centered (x0 y0 : Q) (es : list ShadedElement) :
  2 * x0 == width - qrbox ->
  2 * y0 == height - qrbox ->
  _possiblyInsertShadingElement height (Region.mk x0 y0 qrbox qrbox)
  = Return es ->
  forall px py, (covering es px py <= 1)%nat.
Proof.
  intros Hx Hy.
  unfold Html5Qrcode.MIN_QR_BOX_SIZE in qrbox_min.
  unfold _possiblyInsertShadingElement. cbn [Region.x Region.y].
  destruct (Qeq_bool x0 0 && Qeq_bool y0 0).
  - intros [= <-] px py. cbn. lia.
  - cbn. intros [= <-] px py. unfold covering. cbn [filter].
    repeat match goal with
    | |- context [inBox ?b px py] =>
      let E := fresh "E" in
      destruct (inBox b px py) eqn:E;
      [apply inBox_iff in E; cbn in E|clear E]
    end; cbn [List.length]; try lia; exfalso; lra.
Qed.

(** In a container at least as wide as the viewfinder the shading elements
    do not overlap one another: no point is darkened twice. *)
Theorem shading_elements_disjoint :
  exists es : list ShadedElement,
    _possiblyInsertShadingElement height
      (Region.mk ((width - qrbox) / 2) ((height - qrbox) / 2) qrbox qrbox)
    = Return es
    /\ forall px py,
         (List.length
            (filter (fun e => inBox (layout containerWidth e) px py) es)
          <= 1)%nat.
Proof.
  destruct (_possiblyInsertShadingElement_returns height
              (Region.mk ((width - qrbox) / 2) ((height - qrbox) / 2)
                         qrbox qrbox)) as [es Hes].
  exists es. split; [exact Hes|].
  apply (covering_of_centered ((width - qrbox) / 2) ((height - qrbox) / 2));
    [field | field | exact Hes].
Qed.

End ShadingBounds.

Lemma shading_elements_disjoint_witness :
  exists es : list Shading.ShadedElement,
    Shading._possiblyInsertShadingElement 200
      (Region.mk ((300 - 100) / 2) ((200 - 100) / 2) 100 100)
    = Return es
    /\ forall px py,
         (List.length
            (filter
               (fun e => Shading.inBox (Shading.layout 320 e) px py) es)
          <= 1)%nat.
Proof.
  apply (shading_elements_disjoint 300 200 100) with (containerWidth := 320);
    vm_compute; discriminate.
Defined.

(** ** Device enumeration: the other outcomes *)

Section DeviceOutcomes.

Import Devices.

Lemma collectSources_from (rest visited : list SourceInfo)
  (results : list Camera) :
  collectSources (List.length rest) (visited ++ rest) (List.length visited)
    results
  = results ++ videoSources rest.
Proof.
  revert visited results.
  induction rest as [|source rest IH]; intros visited results.
  - simpl. now rewrite app_nil_r.
  - cbn [List.length collectSources].
    rewrite nth_error_app2 by lia.
    rewrite Nat.sub_diag. cbn [nth_error].
    replace (visited ++ source :: rest) with ((visited ++ [source]) ++ rest)
      by now rewrite <- app_assoc.
    replace (S (List.length visited)) with (List.length (visited ++ [source]))
      by (rewrite length_app; simpl; lia).
    rewrite IH. unfold videoSources. cbn [filter].
    destruct (String.eqb (sourceKind source) "video").
    + now rewrite <- app_assoc.
    + reflexivity.
Qed.

(** Where only [MediaStreamTrack.getSources] exists, [getCameras] resolves
    with the sources of kind "video", in order, each as [{id, label}]; it
    asks for no permission and cannot reject. *)
Theorem getCameras_legacy (sourceInfos : list SourceInfo) :
  getCameras (LegacySources sourceInfos)
  = Resolved (videoSources sourceInfos)
  /\ forall c, In c (videoSources sourceInfos)
       <-> exists source,
             In source sourceInfos
             /\ sourceKind source = "video"%string
             /\ c = {| id := sourceId source;
                       cameraLabel := sourceLabel source |}.
Proof.
  split.
  - cbn [getCameras]. f_equal. exact (collectSources_from sourceInfos [] []).
  - intro c. unfold videoSources. rewrite in_map_iff. split.
    + intros (source & <- & Hin). apply filter_In in Hin.
      destruct Hin as [Hin Hk]. apply String.eqb_eq in Hk.
      now exists source.
    + intros (source & Hin & Hk & ->). exists source. split; [reflexivity|].
      apply filter_In. split; [assumption|]. now apply String.eqb_eq.
Qed.

(** [getCameras] resolves only on one of the two enumeration paths.  A
    refused permission or a failed enumeration rejects with the error's
    name and message; a platform with neither interface rejects with
    "unable to query supported devices." when the global
    [MediaStreamTrack] exists, and with the [ReferenceError] of reading it
    when it is not declared. *)
Theorem getCameras_settles (navigator : Navigator) :
  match getCameras navigator with
  | Resolved cameras =>
    (exists devices,
       navigator = MediaDevices (Fulfilled tt) (Fulfilled devices)
       /\ cameras = videoInputs devices)
    \/ (exists sourceInfos,
          navigator = LegacySources sourceInfos
          /\ cameras = videoSources sourceInfos)
  | Rejected reason =>
    (exists name message enumerated,
       navigator = MediaDevices (Failed name message) enumerated
       /\ reason = (name ++ " : " ++ message)%string)
    \/ (exists name message,
          navigator = MediaDevices (Fulfilled tt) (Failed name message)
          /\ reason = (name ++ " : " ++ message)%string)
    \/ (navigator = Unsupported
        /\ reason = "unable to query supported devices."%string)
  | RejectedError name message =>
    navigator = Undeclared message /\ name = "ReferenceError"%string
  end.
Proof.
  destruct navigator as [[[]|name message] [devices|name' message']
                        |sourceInfos| |message]; cbn [getCameras].
  - left. exists devices. split; [reflexivity|].
    exact (collect_from devices [] []).
  - right. left. now exists name', message'.
  - left. now exists name, message, (Fulfilled devices).
  - left. now exists name, message, (Failed name' message').
  - right. exists sourceInfos. split; [reflexivity|].
    exact (collectSources_from sourceInfos [] []).
  - right. right. split; reflexivity.
  - split; reflexivity.
Qed.

End DeviceOutcomes.

(** ** [start]: arguments and camera request *)

Section StartCall.

Import Scanner.

(** A call without a camera id, without a success callback, or during a
    scan throws and changes nothing; the checks are made in this order. *)
Theorem start_rejects_arguments
  (w : World) (cameraId : option string) (configuration : option Config)
  (onSuccess onError : option Callback) :
  falsyString cameraId = true \/ onSuccess = None \/ _isScanning w = true ->
  start cameraId configuration onSuccess onError w
  = (Throw
       (if falsyString cameraId then "cameraId is required"
        else match onSuccess with
             | None =>
               "qrCodeSuccessCallback is required and should be a function."
             | Some _ =>
               "Cannot clear while scan is ongoing, close it first."
             end),
     w).
Proof.
  intro H. unfold start.
  destruct (falsyString cameraId); [reflexivity|].
  destruct onSuccess as [f|]; [|reflexivity].
  destruct H as [H|[H|H]]; try discriminate.
  unfold bind at 1, _clearElement, bind at 1, get at 1. now rewrite H.
Qed.

(** The width [start] validates against and hands to the video element. *)
Let widthOf (w : World) : Q :=
  if truthy (clientWidth w) then clientWidth w
  else Html5Qrcode.DEFAULT_WIDTH.

(** The closure of a call that passes validation. *)
Let envOf (w : World) (config : Config) (onError : option Callback)
  : StartEnv :=
  {| startId := fresh w;
     configFps :=
       match fps config with
       | Some f => if truthy f then f else Html5Qrcode.SCAN_DEFAULT_FPS
       | None => Html5Qrcode.SCAN_DEFAULT_FPS
       end;
     configQrbox := qrbox config;
     isShadedBoxEnabled :=
       match qrbox config with Some _ => true | None => false end;
     elementWidth := widthOf w;
     qrCodeErrorCallback :=
       match onError with Some f => f | None => ConsoleLog end |}.

(** An idle scanner called with a camera id, a callback and a box that is
    absent or between [MIN_QR_BOX_SIZE] and the element's width returns a
    promise; it has emptied the container, armed [_shouldScan], installed
    the callback and asked for the camera exactly once, or, where the
    browser has no [getUserMedia], rejected the promise at once. *)
Theorem start_requests_camera
  (w : World) (cameraId : string) (config : Config)
  (onSuccess : Callback) (onError : option Callback) :
  cameraId <> ""%string ->
  _isScanning w = false ->
  (forall q, qrbox config = Some q ->
     Html5Qrcode.MIN_QR_BOX_SIZE <= q /\ q <= widthOf w) ->
  exists w',
    start (Some cameraId) (Some config) (Some onSuccess) onError w
    = (Return (fresh w), w')
    /\ children w' = []
    /\ _shouldScan w' = true
    /\ callback w' = Some onSuccess
    /\ position w' = "relative"%string
    /\ _isScanning w' = false
    /\ timers w' = timers w
    /\ match navigator w with
       | MediaDevicesGetUserMedia =>
         requests w' = requests w ++ [envOf w config onError]
         /\ log w' = log w ++ [GetUserMedia false cameraId (fresh w)]
       | LegacyGetUserMedia =>
         requests w' = requests w ++ [envOf w config onError]
         /\ log w' = log w ++ [GetUserMedia true cameraId (fresh w)]
       | NoGetUserMedia =>
         requests w' = requests w
         /\ log w'
            = log w
              ++ [StartRejected (fresh w)
                    "Web camera streaming not supported by the browser."]
       end.
Proof.
  intros Hid Hidle Hbox. unfold start.
  assert (E : falsyString (Some cameraId) = false).
  { cbn. destruct (String.eqb cameraId "") eqn:E; [|reflexivity].
    apply String.eqb_eq in E. contradiction. }
  rewrite E.
  unfold bind at 1, _clearElement, bind at 1, get at 1. rewrite Hidle.
  cbn [modify]. unfold bind at 1, get at 1.
  cbn [clientWidth set_children].
  unfold bind at 1. cbn [modify]. unfold bind at 1. cbn [modify].
  unfold bind at 1. cbn [modify]. unfold bind at 1.
  assert (V :
    (if match qrbox config with Some _ => true | None => false end
     then if ltOpt (qrbox config) Html5Qrcode.MIN_QR_BOX_SIZE
          then throw "minimum size of 'config.qrbox' is 50px."
          else if gtOpt (qrbox config) (widthOf w)
               then throw ("'config.qrbox' should not be greater than the "
                           ++ "width of the HTML element.")
               else ret tt
     else ret tt) = ret tt).
  { destruct (qrbox config) as [q|] eqn:Eq; [|reflexivity].
    destruct (Hbox q eq_refl) as [Hmin Hmax]. cbn [ltOpt gtOpt].
    apply Qltb_false in Hmin. apply Qgtb_false in Hmax.
    now rewrite Hmin, Hmax. }
  unfold widthOf in V. rewrite V. cbn [ret].
  unfold bind at 1, get at 1. cbn [fresh set_callback set_shouldScan
    set_position set_children].
  unfold bind at 1. cbn [modify].
  cbn [navigator set_fresh set_callback set_shouldScan set_position
       set_children].
  destruct (navigator w); eexists; (split; [reflexivity|]); cbn;
    rewrite Hidle; repeat split.
Qed.

End StartCall.

Lemma start_rejects_arguments_witness :
  Scanner.start None None (Some (Scanner.UserFunction 0)) None sampleWorld
  = (Throw "cameraId is required", sampleWorld).
Proof.
  apply (start_rejects_arguments sampleWorld None None
           (Some (Scanner.UserFunction 0)) None).
  left. reflexivity.
Defined.

Lemma start_requests_camera_witness :
  exists w',
    Scanner.start (Some "camera-0"%string)
      (Some (Scanner.mkConfig None (Some 200)))
      (Some (Scanner.UserFunction 0)) None
      (Scanner.constructor Scanner.MediaDevicesGetUserMedia 300 [])
    = (Return 0%nat, w')
    /\ Scanner.children w' = []
    /\ Scanner._shouldScan w' = true
    /\ Scanner.callback w' = Some (Scanner.UserFunction 0)
    /\ Scanner.position w' = "relative"%string
    /\ Scanner._isScanning w' = false
    /\ Scanner.timers w' = []
    /\ Scanner.requests w'
       = [] ++ [Scanner.mkEnv 0 2 (Some 200) true 300 Scanner.ConsoleLog]
    /\ Scanner.log w'
       = [] ++ [Scanner.GetUserMedia false "camera-0" 0].
Proof.
  apply (start_requests_camera
           (Scanner.constructor Scanner.MediaDevicesGetUserMedia 300 [])
           "camera-0"%string (Scanner.mkConfig None (Some 200))
           (Scanner.UserFunction 0) None).
  - discriminate.
  - reflexivity.
  - intros q [= <-]. split; vm_compute; discriminate.
Defined.

(** ** The scan loop and the playing listener *)

Section ScanLoop.

Import Scanner.

(** The log entries of one frame: the copy, the decoder call and, when the
    decoder throws, the report to the error callback. *)
Let frameEvents (env : StartEnv) (m : VideoMetrics) (d : Decoded)
  (qrRegion : Region.t) : list Event :=
  [drawImageCall m qrRegion; Decode]
  ++ match d with
     | DecodeReturns => []
     | DecodeThrows exception =>
       [ErrorCallback (qrCodeErrorCallback env)
          ("QR code parse error, error = " ++ exception)]
     end.

(** While [_shouldScan] holds, an iteration over a set-up scanner copies
    one frame, calls the decoder once, hands a decoder exception to the
    error callback, and in every case schedules exactly one further
    iteration after [1000 / fps] and remembers its timer. *)
Theorem foreverScan_rearms
  (env : StartEnv) (m : VideoMetrics) (d : Decoded) (w : World)
  (stream : MediaStream) (video canvas : Node) (qrRegion : Region.t) :
  _shouldScan w = true ->
  _localMediaStream w = Some stream ->
  _videoElement w = Some video ->
  _qrRegion w = Some qrRegion ->
  _context w = Some canvas ->
  exists w',
    foreverScan env m d w = (Return tt, w')
    /\ log w'
       = log w ++ frameEvents env m d qrRegion
         ++ [SetTimeout (fresh w)
               (Html5Qrcode._getTimeoutFps (configFps env))]
    /\ timers w' = timers w ++ [(fresh w, env)]
    /\ _foreverScanTimeout w' = Some (fresh w)
    /\ fresh w' = S (fresh w)
    /\ _shouldScan w' = true
    /\ children w' = children w
    /\ _qrRegion w' = Some qrRegion.
Proof.
  intros Hs Hm Hv Hr Hc. unfold foreverScan.
  unfold bind at 1, get at 1. rewrite Hs. cbn [negb].
  rewrite Hm, Hv, Hr, Hc.
  destruct d as [|exception]; eexists; (split; [reflexivity|]); cbn;
    rewrite Hs, Hr; repeat (rewrite <- app_assoc; cbn [app]);
    repeat split.
Qed.

(** Before a stream has arrived, or after [stop] dropped it, an armed loop
    idles: it copies nothing, does not call the decoder, and schedules the
    next iteration. *)
Theorem foreverScan_idles
  (env : StartEnv) (m : VideoMetrics) (d : Decoded) (w : World) :
  _shouldScan w = true ->
  _localMediaStream w = None ->
  exists w',
    foreverScan env m d w = (Return tt, w')
    /\ log w'
       = log w ++ [SetTimeout (fresh w)
                     (Html5Qrcode._getTimeoutFps (configFps env))]
    /\ timers w' = timers w ++ [(fresh w, env)]
    /\ _foreverScanTimeout w' = Some (fresh w).
Proof.
  intros Hs Hm. unfold foreverScan.
  unfold bind at 1, get at 1. rewrite Hs. cbn [negb]. rewrite Hm.
  eexists. split; [reflexivity|]. cbn. repeat split.
Qed.

(** A stream without geometry: the iteration throws before it copies or
    schedules anything, so this loop ends. *)
Theorem foreverScan_without_geometry
  (env : StartEnv) (m : VideoMetrics) (d : Decoded) (w : World)
  (stream : MediaStream) :
  _shouldScan w = true ->
  _localMediaStream w = Some stream ->
  _qrRegion w = None ->
  foreverScan env m d w = (Throw "TypeError", w).
Proof.
  intros Hs Hm Hr. unfold foreverScan.
  unfold bind at 1, get at 1. rewrite Hs. cbn [negb]. rewrite Hm, Hr.
  destruct (_videoElement w); reflexivity.
Qed.

(** When the box passed [start] but is wider than the video as rendered
    (and not higher), [setupUi] throws inside the playing listener: nothing
    is inserted, no loop is started, and the promise of [start] is neither
    resolved nor rejected. *)
Theorem playing_with_narrow_video
  (w : World) (k : nat) (env : StartEnv) (m : VideoMetrics) (d : Decoded)
  (q : Q) :
  findEnv k (videos w) = Some env ->
  configQrbox env = Some q ->
  isShadedBoxEnabled env = true ->
  q <= videoClientHeight m ->
  videoClientWidth m < q ->
  step (VideoPlaying k m d) w
  = set_log
      (log w
       ++ [Playing (startId env);
           Uncaught ("'config.qrbox' should not be greater than the "
                     ++ "width and height of the HTML element.")])
      w.
Proof.
  intros Hk Hq He Hh Hw. cbn [step]. rewrite Hk.
  unfold handler, onplaying, setupUi. rewrite Hq, He. cbn [gtOpt leOpt].
  assert (G : Qgtb q (videoClientHeight m) = false) by now apply Qgtb_false.
  assert (L : Qle_bool q (videoClientHeight m) = true)
    by now apply Qle_bool_iff.
  rewrite G, L. cbn [andb].
  unfold Shading._getShadedRegionBounds.
  assert (G' : Qgtb q (videoClientWidth m) = true) by now apply Qgtb_true.
  rewrite G'. cbn [orb]. cbn.
  now rewrite <- app_assoc.
Qed.

End ScanLoop.

Lemma foreverScan_rearms_witness :
  exists w',
    Scanner.foreverScan
      (Scanner.mkEnv 0 2 (Some 200) true 300 Scanner.ConsoleLog)
      sampleMetrics (Scanner.DecodeThrows "no code") sampleWorld
    = (Return tt, w')
    /\ Scanner.timers w'
       = Scanner.timers sampleWorld
         ++ [(8%nat, Scanner.mkEnv 0 2 (Some 200) true 300
                       Scanner.ConsoleLog)]
    /\ Scanner._foreverScanTimeout w' = Some 8%nat.
Proof.
  destruct (foreverScan_rearms
              (Scanner.mkEnv 0 2 (Some 200) true 300 Scanner.ConsoleLog)
              sampleMetrics (Scanner.DecodeThrows "no code") sampleWorld
              (Scanner.mkStream 0 1)
              (Scanner.mkNode 1
                 (Scanner.Video 300 true true (Scanner.mkStream 0 1)))
              (Scanner.mkNode 2
                 (Scanner.Canvas "qr-canvas" 200 200 "none" 200 200))
              (Region.mk ((300 - 200) / 2) ((250 - 200) / 2) 200 200)
              eq_refl eq_refl eq_refl eq_refl eq_refl)
    as (w' & E & _ & T & F & _).
  exists w'. repeat split; assumption.
Defined.

Lemma foreverScan_idles_witness :
  exists w',
    Scanner.foreverScan sampleEnv sampleMetrics Scanner.DecodeReturns
      sampleRequested
    = (Return tt, w')
    /\ Scanner.log w'
       = Scanner.log sampleRequested
         ++ [Scanner.SetTimeout (Scanner.fresh sampleRequested)
               (Html5Qrcode._getTimeoutFps (Scanner.configFps sampleEnv))]
    /\ Scanner.timers w'
       = Scanner.timers sampleRequested
         ++ [(Scanner.fresh sampleRequested, sampleEnv)]
    /\ Scanner._foreverScanTimeout w'
       = Some (Scanner.fresh sampleRequested).
Proof.
  apply (foreverScan_idles sampleEnv sampleMetrics Scanner.DecodeReturns
           sampleRequested); reflexivity.
Defined.

Lemma foreverScan_without_geometry_witness :
  Scanner.foreverScan sampleEnv sampleMetrics Scanner.DecodeReturns
    sampleGranted
  = (Throw "TypeError", sampleGranted).
Proof.
  apply (foreverScan_without_geometry sampleEnv sampleMetrics
           Scanner.DecodeReturns sampleGranted (Scanner.mkStream 0 1));
    reflexivity.
Defined.

Lemma playing_with_narrow_video_witness :
  Scanner.step
    (Scanner.VideoPlaying 0 (Scanner.mkMetrics 600 1000 150 250)
       Scanner.DecodeReturns)
    sampleGranted
  = Scanner.set_log
      (Scanner.log sampleGranted
       ++ [Scanner.Playing 0;
           Scanner.Uncaught
             ("'config.qrbox' should not be greater than the "
              ++ "width and height of the HTML element.")])
      sampleGranted.
Proof.
  apply (playing_with_narrow_video sampleGranted 0 sampleEnv
           (Scanner.mkMetrics 600 1000 150 250) Scanner.DecodeReturns 200);
    try reflexivity; vm_compute; discriminate.
Defined.

(** ** [stop] *)

Section StopCall.

Import Scanner.

(** The visit of the last [S remaining] tracks of [tracksToClose]: each is
    stopped, and [onAllTracksClosed] runs once, after the last. *)
Lemma closeTracks_last (remaining tracksToClose tracksClosed : nat)
  (w : World) :
  (tracksClosed + S remaining = tracksToClose)%nat ->
  closeTracks (S remaining) tracksToClose tracksClosed w
  = onAllTracksClosed
      (set_log (log w ++ repeat TrackStop (S remaining)) w).
Proof.
  revert tracksClosed w.
  induction remaining as [|remaining IH]; intros tracksClosed w H.
  - cbn [closeTracks]. unfold bind at 1, emit at 1. cbn [modify].
    assert (E : Nat.leb tracksToClose (S tracksClosed) = true)
      by (apply Nat.leb_le; lia).
    rewrite E. unfold bind at 1. cbn [repeat].
    destruct (onAllTracksClosed (set_log (log w ++ [TrackStop]) w))
      as [[[]|msg] w']; reflexivity.
  - cbn [closeTracks]. unfold bind at 1, emit at 1. cbn [modify].
    assert (E : Nat.leb tracksToClose (S tracksClosed) = false)
      by (apply Nat.leb_gt; lia).
    rewrite E. unfold bind at 1. cbn [ret].
    change (closeTracks (S remaining) tracksToClose (S tracksClosed)
              (set_log (log w ++ [TrackStop]) w)
            = onAllTracksClosed
                (set_log (log w ++ repeat TrackStop (S (S remaining))) w)).
    rewrite IH by lia. cbn [log set_log].
    rewrite <- app_assoc. reflexivity.
Qed.

(** [stop] without a stream (before [start], before the camera answered, or
    a second time): the scanner is disarmed and the callback removed, and
    the returned promise is rejected; nothing else changes. *)
Theorem stop_without_stream (w : World) :
  _localMediaStream w = None ->
  exists w',
    stop w = (Return tt, w')
    /\ log w'
       = log w ++ [ClearTimeout (_foreverScanTimeout w);
                   StopRejected "TypeError"]
    /\ _shouldScan w' = false
    /\ callback w' = None
    /\ children w' = children w
    /\ _isScanning w' = _isScanning w
    /\ _qrRegion w' = _qrRegion w
    /\ requests w' = requests w
    /\ videos w' = videos w.
Proof.
  intro H. unfold stop.
  unfold bind at 1. cbn [modify]. unfold bind at 1, get at 1.
  cbn [_foreverScanTimeout set_shouldScan].
  destruct (_foreverScanTimeout w) as [timer|];
    (eexists; split;
     [unfold clearTimeout, catch, bind, get, modify, emit; cbn;
      rewrite H; reflexivity
     |cbn; rewrite <- app_assoc; repeat split]).
Qed.

(** A stream without video tracks: [stop] disarms the scanner but never
    reaches [onAllTracksClosed]; the promise stays unsettled, the stream,
    the elements and [_isScanning] stay as they are. *)
Theorem stop_without_tracks (w : World) (stream : MediaStream) :
  _localMediaStream w = Some stream ->
  videoTracks stream = 0%nat ->
  exists w',
    stop w = (Return tt, w')
    /\ log w' = log w ++ [ClearTimeout (_foreverScanTimeout w)]
    /\ _shouldScan w' = false
    /\ callback w' = None
    /\ _localMediaStream w' = Some stream
    /\ children w' = children w
    /\ _isScanning w' = _isScanning w.
Proof.
  intros H T. unfold stop.
  unfold bind at 1. cbn [modify]. unfold bind at 1, get at 1.
  cbn [_foreverScanTimeout set_shouldScan].
  destruct (_foreverScanTimeout w) as [timer|];
    (eexists; split;
     [unfold clearTimeout, catch, bind, get, modify, emit; cbn;
      rewrite H, T; reflexivity
     |cbn; repeat split; assumption]).
Qed.

(** [removeChild] only removes. *)
Lemma removeFirst_subset (node n : Node) (nodes : list Node) :
  In n (removeFirst node nodes) -> In n nodes.
Proof.
  induction nodes as [|x nodes IH]; cbn [removeFirst]; [trivial|].
  destruct (sameNode node x).
  - intro H. now right.
  - intros [H|H]; [now left|right; now apply IH].
Qed.

(** What [stop] leaves behind when the video and the canvas are in the
    container. *)
Lemma stop_world
  (w : World) (stream : MediaStream) (n : nat) (video canvas : Node) :
  _localMediaStream w = Some stream ->
  videoTracks stream = S n ->
  _videoElement w = Some video ->
  _canvasElement w = Some canvas ->
  existsb (sameNode video) (children w) = true ->
  existsb (sameNode canvas) (removeFirst video (children w)) = true ->
  exists w',
    stop w = (Return tt, w')
    /\ log w'
       = log w ++ ClearTimeout (_foreverScanTimeout w)
           :: repeat TrackStop (S n) ++ [StopResolved]
    /\ children w'
       = filter (fun node => negb (isShadedRegion node))
           (removeFirst canvas (removeFirst video (children w)))
    /\ _isScanning w' = false
    /\ _shouldScan w' = false
    /\ _localMediaStream w' = None
    /\ _qrRegion w' = None
    /\ _context w' = None
    /\ callback w' = None
    /\ timers w'
       = match _foreverScanTimeout w with
         | Some timer =>
           filter (fun t => negb (Nat.eqb (fst t) timer)) (timers w)
         | None => timers w
         end.
Proof.
  intros Hs Ht Hv Hc Ev Ec. unfold stop.
  unfold bind at 1. cbn [modify]. unfold bind at 1, get at 1.
  cbn [_foreverScanTimeout set_shouldScan].
  unfold bind at 1.
  assert (C : forall t v,
    exists v',
      clearTimeout t v = (Return tt, v')
      /\ log v' = log v ++ [ClearTimeout t]
      /\ _localMediaStream v' = _localMediaStream v
      /\ _videoElement v' = _videoElement v
      /\ _canvasElement v' = _canvasElement v
      /\ children v' = children v
      /\ _shouldScan v' = _shouldScan v
      /\ timers v'
         = match t with
           | Some timer =>
             filter (fun t => negb (Nat.eqb (fst t) timer)) (timers v)
           | None => timers v
           end).
  { intros [t|] v; eexists; (split; [reflexivity|]); cbn; repeat split. }
  destruct (C (_foreverScanTimeout w) (set_shouldScan false w))
    as (v & E & Lv & Sv & Vv & Cv & Kv & Fv & Tv).
  rewrite E. cbn in Lv, Sv, Vv, Cv, Kv, Fv, Tv.
  unfold catch, bind at 1. cbn [modify]. unfold bind at 1, get at 1.
  cbn [_localMediaStream set_callback]. rewrite Sv, Hs, Ht.
  rewrite closeTracks_last by lia.
  unfold onAllTracksClosed.
  unfold bind at 1. cbn [modify]. unfold bind at 1, get at 1.
  cbn [_videoElement _canvasElement set_localMediaStream set_log
       set_callback].
  rewrite Vv, Hv, Cv, Hc.
  unfold bind at 1, removeChild at 1, bind at 1, get at 1.
  cbn [children set_localMediaStream set_log set_callback].
  rewrite Kv, Ev. cbn [modify].
  unfold bind at 1, removeChild at 1, bind at 1, get at 1.
  cbn [children set_children]. rewrite Ec. cbn [modify].
  eexists. split; [reflexivity|]. cbn. rewrite Lv.
  repeat (rewrite <- app_assoc; cbn [app]).
  do 8 (split; [reflexivity || exact Fv|]). exact Tv.
Qed.


(** [stop] on a scanner whose video and canvas are in the container: every
    track is stopped, the video, the canvas and all shading elements are
    removed, the scanner is idle again, and the promise resolves once, after
    the last track. *)
Theorem stop_releases
  (w : World) (stream : MediaStream) (n : nat) (video canvas : Node) :
  _localMediaStream w = Some stream ->
  videoTracks stream = S n ->
  _videoElement w = Some video ->
  _canvasElement w = Some canvas ->
  existsb (sameNode video) (children w) = true ->
  existsb (sameNode canvas) (removeFirst video (children w)) = true ->
  exists w',
    stop w = (Return tt, w')
    /\ log w'
       = log w ++ ClearTimeout (_foreverScanTimeout w)
           :: repeat TrackStop (S n) ++ [StopResolved]
    /\ children w'
       = filter (fun node => negb (isShadedRegion node))
           (removeFirst canvas (removeFirst video (children w)))
    /\ (forall node, In node (children w') ->
          isShadedRegion node = false /\ In node (children w))
    /\ _isScanning w' = false
    /\ _shouldScan w' = false
    /\ _localMediaStream w' = None
    /\ _qrRegion w' = None
    /\ _context w' = None
    /\ callback w' = None.
Proof.
  intros Hs Ht Hv Hc Ev Ec.
  destruct (stop_world w stream n video canvas Hs Ht Hv Hc Ev Ec)
    as (w' & E & L & C & I & S & M & R & X & K & _).
  exists w'. split; [exact E|]. split; [exact L|]. split; [exact C|].
  split.
  - intros node Hin. rewrite C in Hin. apply filter_In in Hin.
    destruct Hin as [Hin Hn]. apply negb_true_iff in Hn.
    split; [exact Hn|].
    now apply removeFirst_subset in Hin; apply removeFirst_subset in Hin.
  - repeat split; assumption.
Qed.

End StopCall.

Lemma stop_without_stream_witness :
  exists w',
    Scanner.stop sampleRequested = (Return tt, w')
    /\ Scanner.log w'
       = Scanner.log sampleRequested
         ++ [Scanner.ClearTimeout (Scanner._foreverScanTimeout sampleRequested);
             Scanner.StopRejected "TypeError"]
    /\ Scanner._shouldScan w' = false
    /\ Scanner.callback w' = None
    /\ Scanner.children w' = Scanner.children sampleRequested
    /\ Scanner._isScanning w' = Scanner._isScanning sampleRequested
    /\ Scanner._qrRegion w' = Scanner._qrRegion sampleRequested
    /\ Scanner.requests w' = Scanner.requests sampleRequested
    /\ Scanner.videos w' = Scanner.videos sampleRequested.
Proof.
  apply (stop_without_stream sampleRequested). reflexivity.
Defined.

(** ** A whole session *)

Section Lifecycle.

Import Scanner.

(** The state an accepted [start] call leaves. *)
Lemma start_world
  (w : World) (cameraId : string) (config : Config)
  (onSuccess : Callback) (onError : option Callback) :
  cameraId <> ""%string ->
  _isScanning w = false ->
  (forall q, qrbox config = Some q ->
     Html5Qrcode.MIN_QR_BOX_SIZE <= q
     /\ q <= (if truthy (clientWidth w) then clientWidth w
              else Html5Qrcode.DEFAULT_WIDTH)) ->
  start (Some cameraId) (Some config) (Some onSuccess) onError w
  = (Return (fresh w),
     let env :=
       {| startId := fresh w;
          configFps :=
            match fps config with
            | Some f => if truthy f then f else Html5Qrcode.SCAN_DEFAULT_FPS
            | None => Html5Qrcode.SCAN_DEFAULT_FPS
            end;
          configQrbox := qrbox config;
          isShadedBoxEnabled :=
            match qrbox config with Some _ => true | None => false end;
          elementWidth :=
            if truthy (clientWidth w) then clientWidth w
            else Html5Qrcode.DEFAULT_WIDTH;
          qrCodeErrorCallback :=
            match onError with Some f => f | None => ConsoleLog end |} in
     let armed :=
       set_fresh (S (fresh w))
         (set_callback (Some onSuccess)
            (set_shouldScan true
               (set_position "relative" (set_children [] w)))) in
     match navigator w with
     | MediaDevicesGetUserMedia =>
       set_requests (requests w ++ [env])
         (set_log (log w ++ [GetUserMedia false cameraId (fresh w)]) armed)
     | LegacyGetUserMedia =>
       set_requests (requests w ++ [env])
         (set_log (log w ++ [GetUserMedia true cameraId (fresh w)]) armed)
     | NoGetUserMedia =>
       set_log
         (log w
          ++ [StartRejected (fresh w)
                "Web camera streaming not supported by the browser."])
         armed
     end).
Proof.
  intros Hid Hidle Hbox. unfold start.
  assert (E : falsyString (Some cameraId) = false).
  { cbn. destruct (String.eqb cameraId "") eqn:E; [|reflexivity].
    apply String.eqb_eq in E. contradiction. }
  rewrite E.
  unfold bind at 1, _clearElement, bind at 1, get at 1. rewrite Hidle.
  cbn [modify]. unfold bind at 1, get at 1.
  cbn [clientWidth set_children].
  unfold bind at 1. cbn [modify]. unfold bind at 1. cbn [modify].
  unfold bind at 1. cbn [modify]. unfold bind at 1.
  assert (V :
    (if match qrbox config with Some _ => true | None => false end
     then if ltOpt (qrbox config) Html5Qrcode.MIN_QR_BOX_SIZE
          then throw "minimum size of 'config.qrbox' is 50px."
          else if gtOpt (qrbox config)
                    (if truthy (clientWidth w) then clientWidth w
                     else Html5Qrcode.DEFAULT_WIDTH)
               then throw ("'config.qrbox' should not be greater than the "
                           ++ "width of the HTML element.")
               else ret tt
     else ret tt) = ret tt).
  { destruct (qrbox config) as [q|] eqn:Eq; [|reflexivity].
    destruct (Hbox q eq_refl) as [Hmin Hmax]. cbn [ltOpt gtOpt].
    apply Qltb_false in Hmin. apply Qgtb_false in Hmax.
    now rewrite Hmin, Hmax. }
  rewrite V. cbn [ret].
  unfold bind at 1, get at 1. cbn [fresh set_callback set_shouldScan
    set_position set_children].
  unfold bind at 1. cbn [modify].
  cbn [navigator set_fresh set_callback set_shouldScan set_position
       set_children].
  destruct (navigator w); reflexivity.
Qed.

(** What [setupUi] does when the box, if any, is not wider than the
    video. *)
Lemma setupUi_facts (env : StartEnv) (width height : Q) (w : World) :
  (forall q, configQrbox env = Some q -> q <= width) ->
  exists w' canvas nodes qrRegion l,
    setupUi env width height w = (Return tt, w')
    /\ children w' = children w ++ canvas :: nodes
    /\ forallb isShadedRegion nodes = true
    /\ _canvasElement w' = Some canvas
    /\ _context w' = Some canvas
    /\ _qrRegion w' = Some qrRegion
    /\ log w' = log w ++ l
    /\ _localMediaStream w' = _localMediaStream w
    /\ _videoElement w' = _videoElement w
    /\ _shouldScan w' = _shouldScan w
    /\ timers w' = timers w
    /\ settled w' = settled w.
Proof.
  intro Hw. unfold setupUi.
  destruct (configQrbox env) as [q|] eqn:Eq.
  - specialize (Hw q eq_refl). cbn [gtOpt leOpt].
    destruct (Qgtb q height) eqn:G.
    + assert (L : Qle_bool q height = false)
        by (apply Qle_bool_false; now apply Qgtb_true).
      rewrite L, andb_false_r.
      do 5 eexists. split; [reflexivity|]. cbn.
      rewrite <- app_assoc. repeat split.
    + assert (L : Qle_bool q height = true)
        by (apply Qle_bool_iff; now apply Qgtb_false).
      rewrite L, andb_true_r.
      destruct (isShadedBoxEnabled env).
      * unfold bind at 1. cbn [ret]. unfold bind at 1, lift at 1.
        unfold Shading._getShadedRegionBounds.
        apply Qgtb_false in Hw. rewrite Hw, G. cbn [orb].
        unfold Shading._possiblyInsertShadingElement. cbn [Region.x Region.y].
        destruct (Qeq_bool ((width - q) / 2) 0
                  && Qeq_bool ((height - q) / 2) 0).
        -- do 2 eexists. exists []. do 2 eexists.
           split; [reflexivity|]. cbn. repeat split.
        -- do 5 eexists. split; [reflexivity|]. cbn.
           rewrite <- !app_assoc. cbn [app]. repeat split.
      * do 2 eexists. exists []. do 2 eexists.
        split; [reflexivity|]. cbn. repeat split.
  - cbn [gtOpt leOpt]. rewrite andb_false_r.
    do 2 eexists. exists []. do 2 eexists.
    split; [reflexivity|]. cbn. repeat split.
Qed.

(** What the playing listener does in that case, for an armed scanner with
    a stream whose promise is still pending. *)
Lemma onplaying_facts
  (w : World) (k : nat) (env : StartEnv) (m : VideoMetrics) (d : Decoded)
  (stream : MediaStream) (video : Node) :
  findEnv k (videos w) = Some env ->
  (forall q, configQrbox env = Some q -> q <= videoClientWidth m) ->
  _shouldScan w = true ->
  _localMediaStream w = Some stream ->
  _videoElement w = Some video ->
  isSettled (startId env) w = false ->
  exists w' canvas nodes l,
    step (VideoPlaying k m d) w = w'
    /\ children w' = children w ++ canvas :: nodes
    /\ forallb isShadedRegion nodes = true
    /\ _canvasElement w' = Some canvas
    /\ _localMediaStream w' = Some stream
    /\ _videoElement w' = Some video
    /\ _isScanning w' = true
    /\ (exists timer,
          _foreverScanTimeout w' = Some timer
          /\ timers w' = timers w ++ [(timer, env)])
    /\ log w' = log w ++ l ++ [StartResolved (startId env)].
Proof.
  intros Hk Hq Hs Hm Hv Hn. cbn [step]. rewrite Hk.
  unfold handler, onplaying.
  unfold bind at 1, emit at 1. cbn [modify].
  destruct (setupUi_facts env (videoClientWidth m) (videoClientHeight m)
              (set_log (log w ++ [Playing (startId env)]) w) Hq)
    as (w1 & canvas & nodes & r & l1 & E & C1 & S1 & K1 & X1 & R1 & L1
        & M1 & V1 & A1 & T1 & D1).
  cbn in C1, L1, M1, V1, A1, T1, D1.
  unfold bind at 1. rewrite E.
  unfold bind at 1, emit at 1. cbn [modify].
  unfold bind at 1, foreverScan.
  unfold bind at 1, get at 1.
  cbn [_shouldScan _localMediaStream _videoElement _qrRegion _context
       set_log].
  rewrite A1, Hs, M1, Hm, V1, Hv, R1, X1. cbn [negb].
  unfold resolveReceived, isSettled in *.
  destruct d as [|exception].
  - eexists. exists canvas, nodes.
    exists (Playing (startId env)
            :: l1 ++ [LoopStart (startId env); drawImageCall m r; Decode;
                      SetTimeout (fresh w1)
                        (Html5Qrcode._getTimeoutFps (configFps env))]).
    split; [cbn; rewrite D1, Hn; reflexivity|].
    cbn. rewrite C1, K1, T1, L1, M1, V1.
    split; [reflexivity|]. split; [exact S1|].
    do 4 (split; [assumption || reflexivity|]).
    split; [eexists; split; reflexivity|].
    repeat (rewrite <- app_assoc; cbn [app]). reflexivity.
  - eexists. exists canvas, nodes.
    exists (Playing (startId env)
            :: l1 ++ [LoopStart (startId env); drawImageCall m r; Decode;
                      ErrorCallback (qrCodeErrorCallback env)
                        ("QR code parse error, error = " ++ exception);
                      SetTimeout (fresh w1)
                        (Html5Qrcode._getTimeoutFps (configFps env))]).
    split; [cbn; rewrite D1, Hn; reflexivity|].
    cbn. rewrite C1, K1, T1, L1, M1, V1.
    split; [reflexivity|]. split; [exact S1|].
    do 4 (split; [assumption || reflexivity|]).
    split; [eexists; split; reflexivity|].
    repeat (rewrite <- app_assoc; cbn [app]). reflexivity.
Qed.

Lemma filter_shaded (nodes : list Node) :
  forallb isShadedRegion nodes = true ->
  filter (fun node => negb (isShadedRegion node)) nodes = [].
Proof.
  induction nodes as [|node nodes IH]; cbn [forallb filter]; [trivial|].
  intro H. apply andb_true_iff in H. destruct H as [H1 H2].
  rewrite H1. cbn [negb]. now apply IH.
Qed.

Lemma sameNode_refl (node : Node) : sameNode node node = true.
Proof. apply Nat.eqb_refl. Qed.

(** From construction through [start], the camera's answer and the first
    playing event to [stop]: whatever the container held before, whatever
    box (fitting the element and the video) and frame rate were asked for,
    the session ends with an empty container, no pending timer, no stream
    and an idle scanner, after the promise of [start] and then the promise
    of [stop] were resolved. *)
Theorem start_then_stop
  (nav : Navigator) (width : Q) (nodes : list Node)
  (cameraId : string) (config : Config)
  (onSuccess : Callback) (onError : option Callback)
  (stream : MediaStream) (n : nat) (m : VideoMetrics) (d : Decoded) :
  nav <> NoGetUserMedia ->
  cameraId <> ""%string ->
  videoTracks stream = S n ->
  (forall q, qrbox config = Some q ->
     Html5Qrcode.MIN_QR_BOX_SIZE <= q
     /\ q <= (if truthy width then width else Html5Qrcode.DEFAULT_WIDTH)
     /\ q <= videoClientWidth m) ->
  exists w l1 l2 l3,
    run [CallStart (Some cameraId) (Some config) (Some onSuccess) onError;
         StreamGranted 0 stream;
         VideoPlaying 0 m d;
         CallStop]
        (constructor nav width nodes) = w
    /\ children w = []
    /\ timers w = []
    /\ _isScanning w = false
    /\ _shouldScan w = false
    /\ _localMediaStream w = None
    /\ _qrRegion w = None
    /\ log w = l1 ++ StartResolved 0 :: l2 ++ StopResolved :: l3.
Proof.
  intros Hnav Hid Ht Hbox.
  cbn [run].
  change (step (CallStart (Some cameraId) (Some config) (Some onSuccess)
                  onError) (constructor nav width nodes))
    with (snd (start (Some cameraId) (Some config) (Some onSuccess) onError
                 (constructor nav width nodes))).
  rewrite start_world;
    [|exact Hid|reflexivity
     |intros q Hq; destruct (Hbox q Hq) as (? & ? & ?); split; assumption].
  cbn [snd constructor navigator fresh clientWidth].
  match goal with
  | |- context [step (VideoPlaying 0 m d) ?w2] =>
    assert (P : exists env video,
              findEnv 0 (videos w2) = Some env
              /\ startId env = 0%nat
              /\ configQrbox env = qrbox config
              /\ _shouldScan w2 = true
              /\ _localMediaStream w2 = Some stream
              /\ _videoElement w2 = Some video
              /\ isSettled (startId env) w2 = false
              /\ children w2 = [video]
              /\ timers w2 = []);
    [|destruct P as (env & video & Pk & Pi & Pq & Ps & Pm & Pv & Pn & Pc
                     & Pt);
      assert (Pw : forall q, configQrbox env = Some q ->
                q <= videoClientWidth m)
        by (intros q Hq; rewrite Pq in Hq;
            now destruct (Hbox q Hq) as (_ & _ & ?));
      destruct (onplaying_facts w2 0 env m d stream video Pk Pw
                  Ps Pm Pv Pn)
        as (w3 & canvas & shaded & l & E3 & C3 & S3 & K3 & M3 & V3 & I3
            & (timer & F3 & T3) & L3);
      rewrite E3; rewrite Pi in L3; clear E3 Pk Pn Ps]
  end.
  { destruct nav; [| |contradiction]; do 2 eexists; cbn; repeat split. }
  rewrite Pc in C3. rewrite Pt in T3. cbn [app] in C3, T3.
  destruct (stop_world w3 stream n video canvas M3 Ht V3 K3) as
    (w4 & E4 & L4 & C4 & I4 & S4 & M4 & R4 & _ & _ & T4).
  - rewrite C3. cbn [existsb]. now rewrite sameNode_refl.
  - rewrite C3. cbn [removeFirst]. rewrite sameNode_refl.
    cbn [existsb]. now rewrite sameNode_refl.
  - match type of L3 with
    | _ = ?pre ++ _ =>
      exists w4, (pre ++ l),
        (ClearTimeout (_foreverScanTimeout w3) :: repeat TrackStop (S n)),
        []
    end.
    split; [cbn [step]; unfold call; now rewrite E4|].
    split.
    { rewrite C4, C3.
      do 2 (cbn [removeFirst]; rewrite sameNode_refl).
      now apply filter_shaded. }
    split.
    { rewrite T4, F3, T3. cbn [filter fst]. now rewrite Nat.eqb_refl. }
    do 4 (split; [assumption|]).
    rewrite L4, L3. rewrite <- !app_assoc. cbn [app]. reflexivity.
Qed.

End Lifecycle.

Lemma start_then_stop_witness :
  exists w l1 l2 l3,
    Scanner.run (sampleSession ++ [Scanner.CallStop])
      (Scanner.constructor Scanner.MediaDevicesGetUserMedia 300 []) = w
    /\ Scanner.children w = []
    /\ Scanner.timers w = []
    /\ Scanner._isScanning w = false
    /\ Scanner._shouldScan w = false
    /\ Scanner._localMediaStream w = None
    /\ Scanner._qrRegion w = None
    /\ Scanner.log w
       = l1 ++ Scanner.StartResolved 0 :: l2 ++ Scanner.StopResolved :: l3.
Proof.
  apply (start_then_stop Scanner.MediaDevicesGetUserMedia 300 []
           "camera-0"%string (Scanner.mkConfig None (Some 200))
           (Scanner.UserFunction 0) None (Scanner.mkStream 0 1) 0
           sampleMetrics Scanner.DecodeReturns).
  - discriminate.
  - discriminate.
  - reflexivity.
  - intros q [= <-]. repeat split; vm_compute; discriminate.
Defined.

Lemma stop_without_tracks_witness :
  exists w',
    Scanner.stop sampleTrackless = (Return tt, w')
    /\ Scanner.log w'
       = Scanner.log sampleTrackless
         ++ [Scanner.ClearTimeout
               (Scanner._foreverScanTimeout sampleTrackless)]
    /\ Scanner._shouldScan w' = false
    /\ Scanner.callback w' = None
    /\ Scanner._localMediaStream w' = Some (Scanner.mkStream 0 0)
    /\ Scanner.children w' = Scanner.children sampleTrackless
    /\ Scanner._isScanning w' = Scanner._isScanning sampleTrackless.
Proof.
  apply (stop_without_tracks sampleTrackless (Scanner.mkStream 0 0));
    reflexivity.
Defined.

Lemma stop_releases_witness :
  exists w',
    Scanner.stop sampleWorld = (Return tt, w')
    /\ Scanner.children w' = []
    /\ Scanner._isScanning w' = false.
Proof.
  destruct (stop_releases sampleWorld (Scanner.mkStream 0 1) 0
              (Scanner.mkNode 1
                 (Scanner.Video 300 true true (Scanner.mkStream 0 1)))
              (Scanner.mkNode 2
                 (Scanner.Canvas "qr-canvas" 200 200 "none" 200 200))
              eq_refl eq_refl eq_refl eq_refl eq_refl eq_refl)
    as (w' & E & _ & C & _ & I & _).
  exists w'. split; [exact E|]. split; [|exact I].
  rewrite C. reflexivity.
Defined.

(** ** The still-image path *)

Section CanvasBitmap.

Import Scanner.

(** A size from 0 to below [2^31] is stored rounded down to a whole
    number. *)
Lemma canvasSize_floor (default : Z) (v : Q) :
  0 <= v -> v < 2147483648 -> canvasSize default v = Qfloor v.
Proof.
  intros H0 H1.
  assert (F0 : (0 <= Qfloor v)%Z).
  { change 0%Z with (Qfloor 0). now apply Qfloor_resp_le. }
  assert (F1 : (Qfloor v < 2147483648)%Z).
  { rewrite Zlt_Qlt. eapply Qle_lt_trans; [apply Qfloor_le|exact H1]. }
  unfold canvasSize, toUnsignedLong.
  destruct v as [n d]. cbn [Qnum Qden Qfloor] in *.
  assert (N : (0 <= n)%Z).
  { unfold Qle in H0. cbn in H0. lia. }
  rewrite Z.quot_div_nonneg by lia.
  rewrite Z.mod_small by lia.
  destruct (Z.leb_spec (n / Z.pos d) 2147483647); [reflexivity|lia].
Qed.

(** It is then at most the size and less than one pixel below it. *)
Lemma canvasSize_bounds (default : Z) (v : Q) :
  0 <= v -> v < 2147483648 ->
  inject_Z (canvasSize default v) <= v
  /\ v < inject_Z (canvasSize default v) + 1.
Proof.
  intros H0 H1. rewrite (canvasSize_floor default v H0 H1). split.
  - apply Qfloor_le.
  - pose proof (Qlt_floor v) as L. rewrite inject_Z_plus in L. exact L.
Qed.

End CanvasBitmap.

(** A box of 100.5 gives a bitmap 100 wide; a negative size wraps around
    and is replaced by the default, unless it truncates to zero. *)
Example canvasSize_examples :
  Scanner.canvasSize 300 (201 # 2) = 100%Z
  /\ Scanner.canvasSize 150 (401 # 2) = 200%Z
  /\ Scanner.canvasSize 300 (-1) = 300%Z
  /\ Scanner.canvasSize 150 (-1 # 2) = 0%Z
  /\ Scanner.canvasSize 300 2147483648 = 300%Z.
Proof. repeat split. Qed.

Section StillImagePath.

Import Scanner StillImage.

(** An idle scanner given a [File] starts loading it: the container is
    emptied, the file is remembered, and the file remembered from the
    previous call, if any, is revoked first. *)
Theorem scanFile_loads
  (w : World) (imageFile : File) (showImage : option bool) :
  _isScanning w = false ->
  exists w',
    scanFile (Some imageFile) showImage w = (Return tt, w')
    /\ children w' = []
    /\ _lastScanImageFile w' = Some imageFile
    /\ log w'
       = log w
         ++ match _lastScanImageFile w with
            | Some previous => [RevokeObjectURL previous]
            | None => []
            end
         ++ [ImageSrc imageFile]
    /\ _isScanning w' = false
    /\ _shouldScan w' = _shouldScan w
    /\ timers w' = timers w.
Proof.
  intro H. unfold scanFile. unfold bind at 1, get at 1. rewrite H.
  unfold _possiblyCloseLastScanImageFile, _clearElement,
    bind, get, emit, modify.
  destruct (_lastScanImageFile w) as [previous|];
    (eexists; split;
     [cbn [_isScanning set_lastScanImageFile set_log fst snd ret];
      rewrite H; reflexivity
     |cbn; rewrite ?H, <- ?app_assoc; repeat split]).
Qed.

(** For an image of positive size in a container that reports no negative
    size (all sizes binary64 numbers), with room for two activations: the
    listener returns; it appends the visible canvas of the container's size
    (when the image is shown) and then the hidden canvas of the layout's
    size, draws the whole image onto each, calls the decoder once on the
    hidden canvas, and settles the promise by the decoder's outcome.  The
    layout fits the container; the bitmap of each canvas is its style size
    as the canvas attributes store it, which for the hidden canvas of a
    container below [2^31] is the layout's size rounded down to whole
    pixels. *)
Theorem onload_draws
  (w : World) (showImage : bool) (imageWidth imageHeight clientHeight : Q)
  (stack : nat) (d : Decoded) :
  0 < imageWidth -> 0 < imageHeight ->
  0 <= clientWidth w -> 0 <= clientHeight ->
  Double.representable imageWidth -> Double.representable imageHeight ->
  Double.representable (clientWidth w) ->
  Double.representable clientHeight ->
  (2 <= stack)%nat ->
  let containerWidth := Fit.containerWidthOf (clientWidth w) in
  let containerHeight := Fit.containerHeightOf clientHeight imageHeight in
  exists w' config,
    computeCanvasDrawConfig 2 imageWidth imageHeight
      containerWidth containerHeight = Some config
    /\ 0 <= Region.width config /\ Region.width config <= containerWidth
    /\ 0 <= Region.height config /\ Region.height config <= containerHeight
    /\ onload showImage imageWidth imageHeight clientHeight stack d w
       = (Return match d with
                 | DecodeReturns => FileResolved
                 | DecodeThrows exception =>
                   FileRejected ("QR code parse error, error = " ++ exception)
                 end,
          w')
    /\ map element (children w')
       = map element (children w)
         ++ (if showImage
             then [Canvas "qr-canvas-visible" containerWidth containerHeight
                     "inline-block"
                     (canvasSize 300 containerWidth)
                     (canvasSize 150 containerHeight)]
             else [])
         ++ [Canvas "qr-canvas" (Region.width config) (Region.height config)
               "none"
               (canvasSize 300 (Region.width config))
               (canvasSize 150 (Region.height config))]
    /\ (containerWidth < 2147483648 ->
        canvasSize 300 (Region.width config) = Qfloor (Region.width config))
    /\ (containerHeight < 2147483648 ->
        canvasSize 150 (Region.height config)
        = Qfloor (Region.height config))
    /\ log w'
       = log w
         ++ (if showImage
             then [DrawImage 0 0 imageWidth imageHeight
                     (Region.x config) (Region.y config)
                     (Region.width config) (Region.height config)]
             else [])
         ++ [DrawImage 0 0 imageWidth imageHeight
               0 0 (Region.width config) (Region.height config);
             Decode].
Proof.
  intros Hiw Hih Hcw Hch Riw Rih Rcw Rch Hs containerWidth containerHeight.
  destruct (container_positive (clientWidth w) clientHeight imageHeight
              Hcw Hch Hih) as [Pw Ph].
  fold containerWidth in Pw. fold containerHeight in Ph.
  assert (Rw : Double.representable containerWidth).
  { unfold containerWidth, Fit.containerWidthOf.
    destruct (truthy (clientWidth w)); [exact Rcw|].
    split; vm_compute; [reflexivity|discriminate]. }
  assert (Rh : Double.representable containerHeight).
  { unfold containerHeight, Fit.containerHeightOf.
    destruct (truthy clientHeight); assumption. }
  destruct (computeCanvasDrawConfig_double_returns
              imageWidth imageHeight containerWidth containerHeight
              Hiw Hih Pw Ph Riw Rih Rw)
    as (fw & fh & E & _ & W0 & H0 & Wc & Hc & _ & _).
  set (config :=
         Region.mk (Double.div (Double.sub containerWidth fw) 2)
                   (Double.div (Double.sub containerHeight fh) 2) fw fh)
    in *.
  assert (E' : computeCanvasDrawConfig stack imageWidth imageHeight
                 containerWidth containerHeight = Some config).
  { destruct stack as [|[|stack]]; [lia|lia|].
    now rewrite computeCanvasDrawConfig_double_depth. }
  unfold onload. unfold bind at 1, get at 1.
  change (if truthy (clientWidth w) then clientWidth w
          else Html5Qrcode.DEFAULT_WIDTH) with containerWidth.
  change (if truthy clientHeight then clientHeight else imageHeight)
    with containerHeight.
  rewrite E'.
  assert (Bw : containerWidth < 2147483648 ->
               canvasSize 300 (Region.width config)
               = Qfloor (Region.width config)).
  { intro B. apply canvasSize_floor; [exact W0|].
    cbn [Region.width config]. lra. }
  assert (Bh : containerHeight < 2147483648 ->
               canvasSize 150 (Region.height config)
               = Qfloor (Region.height config)).
  { intro B. apply canvasSize_floor; [exact H0|].
    cbn [Region.height config]. lra. }
  assert (W0' : 0 <= Region.width config) by exact W0.
  assert (H0' : 0 <= Region.height config) by exact H0.
  assert (Wc' : Region.width config <= containerWidth) by exact Wc.
  assert (Hc' : Region.height config <= containerHeight) by exact Hc.
  clear W0 H0 Wc Hc. clearbody config containerWidth containerHeight.
  unfold _createCanvasElement, createElement, append, bind, get, emit,
    modify, ret.
  destruct showImage, d;
    (eexists; exists config;
     split; [exact E|];
     split; [exact W0'|]; split; [exact Wc'|];
     split; [exact H0'|]; split; [exact Hc'|];
     split; [reflexivity|];
     cbn [children log set_children set_log set_fresh setBitmap element
          nodeId fst snd];
     rewrite ?map_app, <- ?app_assoc;
     split; [reflexivity|];
     split; [exact Bw|]; split; [exact Bh|]; reflexivity).
Qed.

End StillImagePath.

(** ** The canvas and the region stay in step *)

Section CanvasInvariant.

Import Scanner.

Lemma keepsCanvas_refl (w : World) : keepsCanvas w w.
Proof. intro H. exact H. Qed.

Lemma keepsCanvas_trans (a b c : World) :
  keepsCanvas a b -> keepsCanvas b c -> keepsCanvas a c.
Proof. intros Hab Hbc H. apply Hbc, Hab, H. Qed.

Ltac canvas_leaf :=
  let w := fresh "w" in
  let H := fresh "H" in
  intros w H; unfold canvasMatches in *; cbn; exact H.

Ltac canvas_tac rec :=
  repeat first [ respects_step keepsCanvas_refl keepsCanvas_trans
                   canvas_leaf rec
               | respects_unfold ].

(** [setupUi] either throws before it changed anything, or installs a
    region together with a canvas of that size. *)
Lemma setupUi_outcome (env : StartEnv) (width height : Q) (w : World) :
  (exists msg, setupUi env width height w = (Throw msg, w))
  \/ (exists w', setupUi env width height w = (Return tt, w')
                 /\ canvasMatches w').
Proof.
  unfold setupUi.
  destruct (configQrbox env) as [q|].
  - cbn [gtOpt leOpt].
    destruct (Qgtb q height) eqn:G.
    + assert (L : Qle_bool q height = false)
        by (apply Qle_bool_false; now apply Qgtb_true).
      rewrite L, andb_false_r.
      right. eexists. split; [reflexivity|].
      unfold canvasMatches. cbn. split; reflexivity.
    + assert (L : Qle_bool q height = true)
        by (apply Qle_bool_iff; now apply Qgtb_false).
      rewrite L, andb_true_r.
      destruct (isShadedBoxEnabled env).
      * unfold bind at 1. cbn [ret]. unfold bind at 1, lift at 1.
        unfold Shading._getShadedRegionBounds. rewrite G.
        destruct (Qgtb q width); cbn [orb].
        -- left. eexists. reflexivity.
        -- unfold bind, lift, ret, _createCanvasElement, createElement,
             append, get, modify, emit.
           unfold Shading._possiblyInsertShadingElement.
           cbn [Region.x Region.y Region.width Region.height fst snd].
           destruct (Qeq_bool ((width - q) / 2) 0
                     && Qeq_bool ((height - q) / 2) 0);
             right; eexists; (split; [reflexivity|]);
             unfold canvasMatches; cbn; split; reflexivity.
      * right. eexists. split; [reflexivity|].
        unfold canvasMatches. cbn. split; reflexivity.
  - cbn [gtOpt leOpt]. rewrite andb_false_r.
    right. eexists. split; [reflexivity|].
    unfold canvasMatches. cbn. split; reflexivity.
Qed.

Lemma keepsCanvas_setupUi (env : StartEnv) (width height : Q) :
  respects keepsCanvas (setupUi env width height).
Proof.
  intros w H.
  destruct (setupUi_outcome env width height w)
    as [[msg E]|(w' & E & H')]; rewrite E; assumption.
Qed.

Lemma keepsCanvas_onAllTracksClosed : respects keepsCanvas onAllTracksClosed.
Proof.
  intros w H. unfold onAllTracksClosed.
  unfold bind at 1. cbn [modify]. unfold bind at 1, get at 1.
  cbn [_videoElement _canvasElement set_localMediaStream].
  unfold removeChild, bind, get, modify, emit, removeQrRegion, throw.
  destruct (_videoElement w) as [video|]; [|exact H].
  cbn [children set_localMediaStream fst snd].
  destruct (existsb (sameNode video) (children w)); [|exact H].
  destruct (_canvasElement w) as [canvas|] eqn:Ec;
    [|unfold canvasMatches in *; cbn; exact H].
  cbn [children set_children set_localMediaStream fst snd].
  destruct (existsb (sameNode canvas) (removeFirst video (children w)));
    [|unfold canvasMatches in *; cbn; exact H].
  unfold canvasMatches. cbn. exact I.
Qed.

Lemma keepsCanvas_closeTracks (remaining tracksToClose tracksClosed : nat) :
  respects keepsCanvas (closeTracks remaining tracksToClose tracksClosed).
Proof.
  revert tracksClosed.
  induction remaining as [|remaining IH]; intro tracksClosed;
    cbn [closeTracks];
    canvas_tac ltac:(first [ apply IH
                           | apply keepsCanvas_onAllTracksClosed ]).
Qed.

Lemma keepsCanvas_uncaught (msg : string) (v : World) :
  keepsCanvas v (set_log (log v ++ [Uncaught msg]) v).
Proof. revert v. canvas_leaf. Qed.

Lemma keepsCanvas_step (a : Action) (w : World) : keepsCanvas w (step a w).
Proof.
  destruct a; cbn [step].
  - apply respects_call. unfold start. canvas_tac fail.
  - apply respects_call. unfold stop.
    canvas_tac ltac:(apply keepsCanvas_closeTracks).
  - apply respects_call. canvas_tac fail.
  - apply respects_call. canvas_tac fail.
  - destruct (findEnv k (requests w)); [|apply keepsCanvas_refl].
    eapply keepsCanvas_trans;
      [|apply (respects_handler keepsCanvas keepsCanvas_trans)].
    + revert w. canvas_leaf.
    + canvas_tac fail.
    + apply keepsCanvas_uncaught.
  - destruct (findEnv k (requests w)); [|apply keepsCanvas_refl].
    eapply keepsCanvas_trans;
      [|apply (respects_handler keepsCanvas keepsCanvas_trans)].
    + revert w. canvas_leaf.
    + canvas_tac fail.
    + apply keepsCanvas_uncaught.
  - destruct (findEnv k (videos w)); [|apply keepsCanvas_refl].
    apply (respects_handler keepsCanvas keepsCanvas_trans);
      [|apply keepsCanvas_uncaught].
    unfold onplaying, foreverScan, resolveReceived.
    canvas_tac ltac:(apply keepsCanvas_setupUi).
  - destruct (findEnv k (videos w)); [|apply keepsCanvas_refl].
    apply (respects_handler keepsCanvas keepsCanvas_trans);
      [canvas_tac fail|apply keepsCanvas_uncaught].
  - destruct (findTimer timer (timers w)); [|apply keepsCanvas_refl].
    eapply keepsCanvas_trans;
      [|apply (respects_handler keepsCanvas keepsCanvas_trans)].
    + revert w. canvas_leaf.
    + unfold foreverScan. canvas_tac fail.
    + apply keepsCanvas_uncaught.
Qed.

(** In every run of a scanner the region and the drawing context are set
    and cleared together, and while they are set the context belongs to the
    remembered canvas.  The style size of that canvas is the region's; its
    bitmap is the region's size as the canvas attributes store it, which
    for a size from 0 to below [2^31] is the size rounded down to a whole
    number: the destination rectangle of every [drawImage] of the scan
    loop covers the whole bitmap and exceeds it by less than one pixel. *)
Theorem canvas_matches_region
  (nav : Navigator) (width : Q) (nodes : list Node) (actions : list Action) :
  match _qrRegion (run actions (constructor nav width nodes)),
        _context (run actions (constructor nav width nodes)) with
  | Some qrRegion, Some canvas =>
    element canvas
    = Canvas "qr-canvas"
        (Region.width qrRegion) (Region.height qrRegion) "none"
        (canvasSize 300 (Region.width qrRegion))
        (canvasSize 150 (Region.height qrRegion))
    /\ _canvasElement (run actions (constructor nav width nodes))
       = Some canvas
    /\ (0 <= Region.width qrRegion -> Region.width qrRegion < 2147483648 ->
        inject_Z (canvasSize 300 (Region.width qrRegion))
        <= Region.width qrRegion
        /\ Region.width qrRegion
           < inject_Z (canvasSize 300 (Region.width qrRegion)) + 1)
    /\ (0 <= Region.height qrRegion ->
        Region.height qrRegion < 2147483648 ->
        inject_Z (canvasSize 150 (Region.height qrRegion))
        <= Region.height qrRegion
        /\ Region.height qrRegion
           < inject_Z (canvasSize 150 (Region.height qrRegion)) + 1)
  | None, None => True
  | _, _ => False
  end.
Proof.
  assert (H : forall w, canvasMatches w -> canvasMatches (run actions w)).
  { induction actions as [|a actions IH]; intros w H; [exact H|].
    cbn [run]. apply IH. now apply keepsCanvas_step. }
  specialize (H (constructor nav width nodes) I).
  unfold canvasMatches in H.
  destruct (_qrRegion (run actions (constructor nav width nodes)))
    as [qrRegion|];
    destruct (_context (run actions (constructor nav width nodes)))
      as [canvas|]; try exact H.
  destruct H as [He Hc].
  split; [exact He|]. split; [exact Hc|].
  split; apply canvasSize_bounds.
Qed.

End CanvasInvariant.

(** ** Validated closures *)

Section ValidClosures.

Import Scanner.

Lemma keepsValid_refl (w : World) : keepsValid w w.
Proof. intro H. exact H. Qed.

Lemma keepsValid_trans (a b c : World) :
  keepsValid a b -> keepsValid b c -> keepsValid a c.
Proof. intros Hab Hbc H. apply Hbc, Hab, H. Qed.

Lemma Forall_filter {A : Type} (P : A -> Prop) (f : A -> bool)
  (l : list A) :
  Forall P l -> Forall P (filter f l).
Proof.
  rewrite !Forall_forall. intros H x Hx. apply filter_In in Hx.
  now apply H.
Qed.

Lemma Forall_snoc {A : Type} (P : A -> Prop) (l : list A) (x : A) :
  Forall P l -> P x -> Forall P (l ++ [x]).
Proof.
  intros Hl Hx. apply Forall_app. split; [exact Hl|]. now constructor.
Qed.

Ltac valid_here :=
  let H := fresh "H" in
  intro H; unfold validWorld in *; cbn;
  destruct H as (?HR & ?HV & ?HT & ?HL);
  repeat split;
  first [ assumption
        | apply Forall_filter; assumption
        | apply Forall_snoc; [assumption|];
          first [assumption | exact I] ].

Ltac valid_leaf := let w := fresh "w" in intro w; valid_here.

Ltac valid_tac rec :=
  repeat first [ respects_step keepsValid_refl keepsValid_trans
                   valid_leaf rec
               | respects_unfold ].

Lemma keepsValid_appendShadedNodes (es : list Shading.ShadedElement) :
  respects keepsValid (appendShadedNodes es).
Proof.
  induction es as [|e es IH]; cbn [appendShadedNodes];
    valid_tac ltac:(exact IH).
Qed.

Lemma keepsValid_closeTracks (remaining tracksToClose tracksClosed : nat) :
  respects keepsValid (closeTracks remaining tracksToClose tracksClosed).
Proof.
  revert tracksClosed.
  induction remaining as [|remaining IH]; intro tracksClosed;
    cbn [closeTracks]; valid_tac ltac:(apply IH).
Qed.

(** The loop re-arms itself with the closure it runs in. *)
Lemma keepsValid_foreverScan
  (env : StartEnv) (m : VideoMetrics) (d : Decoded) :
  validEnv env -> respects keepsValid (foreverScan env m d).
Proof.
  intros He w (HR & HV & HT & HL).
  assert (Ht : validEvent
                 (SetTimeout (fresh w)
                    (Html5Qrcode._getTimeoutFps (configFps env)))).
  { exists (configFps env). split; [apply He|reflexivity]. }
  unfold foreverScan, bind, get, modify, emit, ret, throw.
  destruct (_shouldScan w); cbn [negb fst snd];
    [|now repeat split].
  destruct (_localMediaStream w).
  - destruct (_videoElement w), (_qrRegion w), (_context w);
      cbn [fst snd]; try (now repeat split).
    destruct d; unfold validWorld; cbn; repeat split;
      try assumption;
      try (apply Forall_snoc; [assumption|exact He]);
      repeat (apply Forall_snoc; [|exact I || exact Ht]); assumption.
  - unfold validWorld; cbn; repeat split; try assumption;
      try (apply Forall_snoc; [assumption|exact He]);
      repeat (apply Forall_snoc; [|exact I || exact Ht]); assumption.
Qed.

(** [start] adds a closure only after its checks. *)
Lemma keepsValid_start
  (cameraId : option string) (configuration : option Config)
  (onSuccess onError : option Callback) :
  respects keepsValid (start cameraId configuration onSuccess onError).
Proof.
  intros w H. unfold start.
  destruct (falsyString cameraId); [exact H|].
  destruct onSuccess as [onSuccess|]; [|exact H].
  unfold bind at 1, _clearElement, bind at 1, get at 1.
  destruct (_isScanning w); [exact H|].
  cbn [modify]. unfold bind at 1, get at 1. cbn [clientWidth set_children].
  unfold bind at 1. cbn [modify]. unfold bind at 1. cbn [modify].
  unfold bind at 1. cbn [modify]. unfold bind at 1.
  set (config := match configuration with
                 | Some c => c
                 | None => {| fps := None; qrbox := None |}
                 end).
  set (width := if truthy (clientWidth w) then clientWidth w
                else Html5Qrcode.DEFAULT_WIDTH).
  assert (B : forall v,
    validWorld v -> validWorld (set_callback (Some onSuccess)
                                  (set_shouldScan true
                                     (set_position "relative"
                                        (set_children [] v))))).
  { intros v Hv. exact Hv. }
  destruct (qrbox config) as [q|] eqn:Eq; cbn [ltOpt gtOpt].
  - destruct (Qltb q Html5Qrcode.MIN_QR_BOX_SIZE) eqn:Emin;
      [now apply B|].
    destruct (Qgtb q width) eqn:Emax; [now apply B|].
    apply Qltb_false in Emin. apply Qgtb_false in Emax.
    cbn [ret]. unfold bind, get, modify, emit, ret.
    destruct H as (HR & HV & HT & HL).
    destruct (navigator _); unfold validWorld; cbn; repeat split;
      try assumption;
      try (apply Forall_snoc; [assumption|exact I]).
    all: apply Forall_snoc; [assumption|].
    all: repeat split; cbn.
    all: try match goal with
         | E : configQrbox _ = Some _ |- _ =>
           cbn in E; first [injection E as <-; assumption | discriminate E]
         end.
    all: destruct (fps config) as [f|]; [destruct (truthy f) eqn:Ef|];
      [exact Ef|reflexivity|reflexivity].
  - cbn [ret]. unfold bind, get, modify, emit, ret.
    destruct H as (HR & HV & HT & HL).
    destruct (navigator _); unfold validWorld; cbn; repeat split;
      try assumption;
      try (apply Forall_snoc; [assumption|exact I]).
    all: apply Forall_snoc; [assumption|].
    all: repeat split; cbn.
    all: try match goal with
         | E : configQrbox _ = Some _ |- _ =>
           cbn in E; first [injection E as <-; assumption | discriminate E]
         end.
    all: destruct (fps config) as [f|]; [destruct (truthy f) eqn:Ef|];
      [exact Ef|reflexivity|reflexivity].
Qed.

Lemma findEnv_valid (k : nat) (envs : list StartEnv) (env : StartEnv) :
  Forall validEnv envs -> findEnv k envs = Some env -> validEnv env.
Proof.
  intros H E. apply find_some in E. destruct E as [Hin _].
  rewrite Forall_forall in H. now apply H.
Qed.

Lemma findTimer_valid (id : nat) (ts : list (nat * StartEnv))
  (env : StartEnv) :
  Forall (fun t => validEnv (snd t)) ts ->
  findTimer id ts = Some env -> validEnv env.
Proof.
  intros H E. unfold findTimer in E.
  destruct (find (fun t => Nat.eqb (fst t) id) ts) as [t|] eqn:F;
    [|discriminate].
  injection E as <-. apply find_some in F. destruct F as [Hin _].
  rewrite Forall_forall in H. now apply (H t).
Qed.

Lemma keepsValid_uncaught (msg : string) (v : World) :
  keepsValid v (set_log (log v ++ [Uncaught msg]) v).
Proof. revert v. valid_leaf. Qed.

Lemma keepsValid_step (a : Action) (w : World) : keepsValid w (step a w).
Proof.
  destruct a; cbn [step].
  - apply respects_call, keepsValid_start.
  - apply respects_call. unfold stop.
    valid_tac ltac:(apply keepsValid_closeTracks).
  - apply respects_call. valid_tac fail.
  - apply respects_call. valid_tac fail.
  - destruct (findEnv k (requests w)) as [env|] eqn:E;
      [|apply keepsValid_refl].
    intro H. assert (He : validEnv env)
      by (apply (findEnv_valid k (requests w)); [apply H|exact E]).
    revert H. eapply keepsValid_trans;
      [|apply (respects_handler keepsValid keepsValid_trans)].
    + unfold keepsValid, dropEnv. valid_here.
    + valid_tac fail.
    + apply keepsValid_uncaught.
  - destruct (findEnv k (requests w)) as [env|] eqn:E;
      [|apply keepsValid_refl].
    eapply keepsValid_trans;
      [|apply (respects_handler keepsValid keepsValid_trans)].
    + unfold keepsValid, dropEnv. valid_here.
    + valid_tac fail.
    + apply keepsValid_uncaught.
  - destruct (findEnv k (videos w)) as [env|] eqn:E;
      [|apply keepsValid_refl].
    intro H. assert (He : validEnv env)
      by (apply (findEnv_valid k (videos w)); [apply H|exact E]).
    revert H.
    apply (respects_handler keepsValid keepsValid_trans);
      [|apply keepsValid_uncaught].
    unfold onplaying, resolveReceived.
    valid_tac ltac:(first [ apply keepsValid_appendShadedNodes
                          | apply keepsValid_foreverScan; exact He ]).
  - destruct (findEnv k (videos w)); [|apply keepsValid_refl].
    apply (respects_handler keepsValid keepsValid_trans);
      [valid_tac fail|apply keepsValid_uncaught].
  - destruct (findTimer timer (timers w)) as [env|] eqn:E;
      [|apply keepsValid_refl].
    intro H. assert (He : validEnv env)
      by (apply (findTimer_valid timer (timers w)); [apply H|exact E]).
    revert H. eapply keepsValid_trans;
      [|apply (respects_handler keepsValid keepsValid_trans)].
    + unfold keepsValid. valid_here.
    + now apply keepsValid_foreverScan.
    + apply keepsValid_uncaught.
Qed.


End ValidClosures.

(** ** The playing event comes first *)

Section StartSequence.

Import Scanner.

Lemma grows_refl (w : World) : grows w w.
Proof. exists []. now rewrite app_nil_r. Qed.

Lemma grows_trans (a b c : World) : grows a b -> grows b c -> grows a c.
Proof.
  intros [l1 L1] [l2 L2]. exists (l1 ++ l2). now rewrite L2, L1, app_assoc.
Qed.

Ltac grows_leaf :=
  let w := fresh "w" in
  intro w; unfold grows; cbn;
  first [ exists []; rewrite app_nil_r; reflexivity
        | eexists; reflexivity ].

Ltac grows_tac rec :=
  repeat first [ respects_step grows_refl grows_trans grows_leaf rec
               | respects_unfold ].

Lemma grows_appendShadedNodes (es : list Shading.ShadedElement) :
  respects grows (appendShadedNodes es).
Proof.
  induction es as [|e es IH]; cbn [appendShadedNodes];
    grows_tac ltac:(exact IH).
Qed.

Lemma grows_setupUi (env : StartEnv) (width height : Q) :
  respects grows (setupUi env width height).
Proof. grows_tac ltac:(apply grows_appendShadedNodes). Qed.

Lemma grows_foreverScan (env : StartEnv) (m : VideoMetrics) (d : Decoded) :
  respects grows (foreverScan env m d).
Proof. unfold foreverScan, drawImageCall. grows_tac fail. Qed.

Lemma grows_uncaught (msg : string) (v : World) :
  grows v (set_log (log v ++ [Uncaught msg]) v).
Proof. revert v. grows_leaf. Qed.

Lemma calm_refl (w : World) : calm w w.
Proof.
  do 4 (split; [trivial|]). exists []. now rewrite app_nil_r.
Qed.

Lemma calm_trans (a b c : World) : calm a b -> calm b c -> calm a c.
Proof.
  intros (R1 & X1 & C1 & T1 & l1 & L1 & Q1) (R2 & X2 & C2 & T2 & l2 & L2 & Q2).
  do 4 (split; [auto|]).
  exists (l1 ++ l2). split.
  - now rewrite L2, L1, app_assoc.
  - rewrite forallb_app. now rewrite Q1, Q2.
Qed.

Ltac calm_leaf :=
  let w := fresh "w" in
  let H := fresh "H" in
  intro w; unfold calm; cbn;
  do 4 (split;
        [first [ solve [trivial]
               | intro H; rewrite H; reflexivity ]|]);
  first [ exists []; rewrite app_nil_r; split; reflexivity
        | eexists; split; reflexivity ].

Ltac calm_tac rec :=
  repeat first [ respects_step calm_refl calm_trans calm_leaf rec
               | respects_unfold ].

Lemma calm_closeTracks (remaining tracksToClose tracksClosed : nat) :
  respects calm (closeTracks remaining tracksToClose tracksClosed).
Proof.
  revert tracksClosed.
  induction remaining as [|remaining IH]; intro tracksClosed;
    cbn [closeTracks]; calm_tac ltac:(apply IH).
Qed.

Lemma calm_stop : respects calm stop.
Proof. unfold stop. calm_tac ltac:(apply calm_closeTracks). Qed.

Lemma calm_start (cameraId : option string) (configuration : option Config)
  (onSuccess onError : option Callback) :
  respects calm (start cameraId configuration onSuccess onError).
Proof. unfold start. calm_tac fail. Qed.

Lemma calm_uncaught (msg : string) (v : World) :
  calm v (set_log (log v ++ [Uncaught msg]) v).
Proof. revert v. calm_leaf. Qed.

Lemma calm_grows (w w' : World) : calm w w' -> grows w w'.
Proof. intros (_ & _ & _ & _ & l & L & _). now exists l. Qed.

(** An occurrence in [l ++ l'] of an event that [l'] does not have lies
    in [l]. *)
Lemma scan_in_old (e : Event) (l l' pre post : list Event) :
  forallb (fun e => negb (isScanEvent e || isPlaying e)) l' = true ->
  isScanEvent e = true ->
  l ++ l' = pre ++ e :: post ->
  exists post', l = pre ++ e :: post'.
Proof.
  intros Q S E. apply (split_left e l l' pre post); [|exact E].
  intro Hin. rewrite forallb_forall in Q. apply Q in Hin.
  rewrite S in Hin. discriminate.
Qed.

Lemma afterPlaying_calm (w w' : World) :
  calm w w' -> afterPlaying w -> afterPlaying w'.
Proof.
  intros (R & X & C & T & l & L & Q) [J1 J2]. split.
  - intros pre e post E S. rewrite L in E.
    destruct (scan_in_old e _ _ _ _ Q S E) as [post' E'].
    exact (J1 pre e post' E' S).
  - intro N.
    destruct J2 as (R0 & X0 & C0 & T0).
    { intros k Hin. apply (N k). rewrite L. apply in_or_app. now left. }
    auto.
Qed.

(** Once a playing listener was entered, whatever is logged later comes
    after it. *)
Lemma afterPlaying_grows (w w' : World) (k : nat) :
  grows w w' -> In (Playing k) (log w) -> afterPlaying w -> afterPlaying w'.
Proof.
  intros [l L] Hk [J1 _]. split.
  - intros pre e post E S. rewrite L in E.
    apply app_eq_app in E. destruct E as (m & [[E1 E2]|[E1 E2]]).
    + destruct m as [|x m]; cbn [app] in E2.
      * exists k. rewrite E1, app_nil_r in Hk. exact Hk.
      * injection E2 as Hx E2. subst x. exact (J1 pre e m E1 S).
    + exists k. rewrite E1. apply in_or_app. now left.
  - intro N. exfalso. apply (N k). rewrite L. apply in_or_app. now left.
Qed.

Lemma playing_logged (l : list Event) :
  (forall k, ~ In (Playing k) l) \/ (exists k, In (Playing k) l).
Proof.
  induction l as [|e l [N|[k Hin]]].
  - left. intros k [].
  - destruct e; try (left; intros k' [H|H]; [discriminate|now apply (N k')]).
    right. eexists. left. reflexivity.
  - right. exists k. now right.
Qed.

Lemma afterPlaying_step (a : Action) (w : World) :
  afterPlaying w -> afterPlaying (step a w).
Proof.
  intro J. destruct a; cbn [step].
  - apply (afterPlaying_calm w); [|exact J].
    apply respects_call, calm_start.
  - apply (afterPlaying_calm w); [|exact J].
    apply respects_call, calm_stop.
  - apply (afterPlaying_calm w); [|exact J].
    apply respects_call. calm_tac fail.
  - apply (afterPlaying_calm w); [|exact J].
    apply respects_call. calm_tac fail.
  - destruct (findEnv k (requests w)); [|exact J].
    apply (afterPlaying_calm w); [|exact J].
    eapply calm_trans; [|apply (respects_handler calm calm_trans)].
    + clear J. revert w. calm_leaf.
    + calm_tac fail.
    + apply calm_uncaught.
  - destruct (findEnv k (requests w)); [|exact J].
    apply (afterPlaying_calm w); [|exact J].
    eapply calm_trans; [|apply (respects_handler calm calm_trans)].
    + clear J. revert w. calm_leaf.
    + calm_tac fail.
    + apply calm_uncaught.
  - destruct (findEnv k (videos w)) as [env|]; [|exact J].
    change (handler (onplaying env m d) w)
      with (handler
              (setupUi env (videoClientWidth m) (videoClientHeight m) ;;
               emit (LoopStart (startId env)) ;;
               foreverScan env m d ;;
               resolveReceived (startId env))
              (set_log (log w ++ [Playing (startId env)]) w)).
    match goal with
    | |- afterPlaying (handler ?rest ?w1) =>
      assert (G : grows w1 (handler rest w1))
    end.
    { apply (respects_handler grows grows_trans); [|apply grows_uncaught].
      unfold resolveReceived.
      grows_tac ltac:(first [ apply grows_setupUi
                            | apply grows_foreverScan ]). }
    destruct G as [l L]. cbn [log set_log] in L.
    destruct J as [J1 J2]. split.
    + intros pre e post E S. rewrite L, <- app_assoc in E. cbn [app] in E.
      apply app_eq_app in E. destruct E as (n & [[E1 E2]|[E1 E2]]).
      * destruct n as [|x n]; cbn [app] in E2.
        -- injection E2 as He _. subst e. discriminate S.
        -- injection E2 as Hx E2. subst x. exact (J1 pre e n E1 S).
      * exists (startId env). rewrite E1. apply in_or_app. right.
        destruct n as [|x n]; cbn [app] in E2.
        -- injection E2 as He _. subst e. discriminate S.
        -- injection E2 as Hx _. subst x. now left.
    + intro N. exfalso. apply (N (startId env)). rewrite L.
      apply in_or_app. left. apply in_or_app. right. now left.
  - destruct (findEnv k (videos w)); [|exact J].
    apply (afterPlaying_calm w); [|exact J].
    apply (respects_handler calm calm_trans);
      [calm_tac fail|apply calm_uncaught].
  - destruct (findTimer timer (timers w)) as [env|] eqn:F; [|exact J].
    destruct (playing_logged (log w)) as [N|[k Hk]].
    + destruct J as [_ J2]. destruct (J2 N) as (_ & _ & _ & T).
      rewrite T in F. discriminate F.
    + apply (afterPlaying_grows w _ k); [|exact Hk|exact J].
      eapply grows_trans; [|apply (respects_handler grows grows_trans)].
      * clear. revert w. grows_leaf.
      * apply grows_foreverScan.
      * apply grows_uncaught.
Qed.

Lemma afterPlaying_run (actions : list Action) (w : World) :
  afterPlaying w -> afterPlaying (run actions w).
Proof.
  revert w. induction actions as [|a actions IH]; intros w J.
  - exact J.
  - cbn [run]. apply IH. now apply afterPlaying_step.
Qed.

Lemma afterPlaying_constructor
  (nav : Navigator) (width : Q) (nodes : list Node) :
  afterPlaying (constructor nav width nodes).
Proof.
  split.
  - intros pre e post E. cbn in E. now destruct pre.
  - intros _. repeat split.
Qed.

End StartSequence.

(** ** The demonstration page *)

Section DemoChoice.

Import Devices Demo.

Variable lowerIncludes : string -> string -> bool.

Lemma truthyString_nonempty (a : string) :
  truthyString a = true -> a <> ""%string.
Proof.
  unfold truthyString. rewrite negb_true_iff. apply String.eqb_neq.
Qed.

(** The camera the page starts is always one of the enumerated ones, and
    its id is not empty. *)
Theorem chooseCamera_listed (devices : list Camera) (cameraId : string) :
  chooseCamera lowerIncludes devices = StartCamera (Some cameraId) ->
  cameraId <> ""%string
  /\ exists cam, In cam devices /\ id cam = cameraId.
Proof.
  unfold chooseCamera. destruct devices as [|first rest]; [discriminate|].
  set (devices := first :: rest).
  set (backCameras := filter (isBack lowerIncludes) devices).
  assert (B : forall cam, In cam backCameras -> In cam devices).
  { intros cam Hin. apply filter_In in Hin. tauto. }
  assert (F : In first devices) by now left.
  clearbody devices.
  destruct (find (isMain lowerIncludes) backCameras) as [main|] eqn:Em.
  - apply find_some in Em. destruct Em as [Hin _].
    destruct (truthyString (id main)) eqn:T; [|discriminate].
    intros [= <-]. split; [now apply truthyString_nonempty|].
    exists main. split; [now apply B|reflexivity].
  - destruct backCameras as [|back others].
    + destruct (truthyString (id first)) eqn:T; [|discriminate].
      intros [= <-]. split; [now apply truthyString_nonempty|].
      now exists first.
    + destruct (truthyString (id back)) eqn:Tb.
      * rewrite Tb. intros [= <-].
        split; [now apply truthyString_nonempty|].
        exists back. split; [apply B; now left|reflexivity].
      * destruct (truthyString (id first)) eqn:T; [|discriminate].
        intros [= <-]. split; [now apply truthyString_nonempty|].
        now exists first.
Qed.

(** The first element of a filtered list is the first element of the list
    that passes the filter. *)
Lemma filter_head {A : Type} (g : A -> bool) (l : list A) (x : A)
  (rest : list A) :
  filter g l = x :: rest ->
  exists before after,
    l = before ++ x :: after
    /\ g x = true
    /\ forall c, In c before -> g c = false.
Proof.
  induction l as [|a l IH]; [discriminate|].
  cbn [filter]. destruct (g a) eqn:Ga.
  - intros [= -> _]. exists [], l. split; [reflexivity|].
    split; [exact Ga|]. intros c [].
  - intro E. destruct (IH E) as (before & after & -> & Gx & Hb).
    exists (a :: before), after. split; [reflexivity|].
    split; [exact Gx|]. intros c [<-|Hc]; [exact Ga|now apply Hb].
Qed.

(** What [find] gives on a filtered list is the first element of the list
    that passes both tests. *)
Lemma find_filter {A : Type} (f g : A -> bool) (l : list A) (x : A) :
  find f (filter g l) = Some x ->
  exists before after,
    l = before ++ x :: after
    /\ g x = true /\ f x = true
    /\ forall c, In c before -> g c && f c = false.
Proof.
  induction l as [|a l IH]; [discriminate|].
  cbn [filter]. destruct (g a) eqn:Ga.
  - cbn [find]. destruct (f a) eqn:Fa.
    + intros [= ->]. exists [], l. split; [reflexivity|].
      split; [exact Ga|]. split; [exact Fa|]. intros c [].
    + intro E. destruct (IH E) as (before & after & -> & Gx & Fx & Hb).
      exists (a :: before), after. split; [reflexivity|].
      split; [exact Gx|]. split; [exact Fx|].
      intros c [<-|Hc]; [now rewrite Ga, Fa|now apply Hb].
  - intro E. destruct (IH E) as (before & after & -> & Gx & Fx & Hb).
    exists (a :: before), after. split; [reflexivity|].
    split; [exact Gx|]. split; [exact Fx|].
    intros c [<-|Hc]; [now rewrite Ga|now apply Hb].
Qed.

(** When some enumerated camera is a back camera and the back cameras have
    ids, the page starts a back camera, and which one is fixed by the order
    of the enumeration: the first back camera whose label also has "main"
    or "0" (no camera listed before it is both), and, when no back camera
    has such a label, the first back camera (no camera listed before it is
    a back camera). *)
Theorem chooseCamera_prefers_back (devices : list Camera) :
  (exists cam, In cam devices /\ isBack lowerIncludes cam = true) ->
  (forall cam, In cam devices -> isBack lowerIncludes cam = true ->
     id cam <> ""%string) ->
  exists before cam after,
    devices = before ++ cam :: after
    /\ chooseCamera lowerIncludes devices = StartCamera (Some (id cam))
    /\ isBack lowerIncludes cam = true
    /\ ((isMain lowerIncludes cam = true
         /\ forall other, In other before ->
              isBack lowerIncludes other && isMain lowerIncludes other
              = false)
        \/ ((forall other, In other devices ->
               isBack lowerIncludes other = true ->
               isMain lowerIncludes other = false)
            /\ forall other, In other before ->
                 isBack lowerIncludes other = false)).
Proof.
  intros (witness & Hw & Bw) Hid.
  assert (T : forall cam, In cam devices ->
            isBack lowerIncludes cam = true ->
            truthyString (id cam) = true).
  { intros cam Hin Hb. unfold truthyString. rewrite negb_true_iff.
    apply String.eqb_neq. now apply Hid. }
  unfold chooseCamera. destruct devices as [|first rest]; [destruct Hw|].
  set (devices := first :: rest) in *.
  set (backCameras := filter (isBack lowerIncludes) devices).
  assert (B : forall cam, In cam backCameras <->
                          In cam devices /\ isBack lowerIncludes cam = true)
    by (intro cam; apply filter_In).
  assert (Eb : filter (isBack lowerIncludes) devices = backCameras)
    by reflexivity.
  clearbody backCameras. clearbody devices.
  destruct (find (isMain lowerIncludes) backCameras) as [main|] eqn:Em.
  - rewrite <- Eb in Em.
    destruct (find_filter _ _ _ _ Em)
      as (before & after & E & Hb & Hm & Hfirst).
    assert (Hin : In main devices)
      by (rewrite E; apply in_or_app; right; now left).
    rewrite (T main Hin Hb).
    exists before, main, after.
    split; [exact E|]. split; [reflexivity|]. split; [exact Hb|].
    left. split; assumption.
  - destruct backCameras as [|back others].
    + exfalso. assert (In witness []) by (apply B; now split).
      contradiction.
    + destruct (filter_head _ _ _ _ Eb)
        as (before & after & E & Hb & Hfirst).
      assert (Hin : In back devices)
        by (rewrite E; apply in_or_app; right; now left).
      rewrite (T back Hin Hb). rewrite (T back Hin Hb).
      exists before, back, after.
      split; [exact E|]. split; [reflexivity|]. split; [exact Hb|].
      right. split; [|exact Hfirst].
      intros other Ho Hbo.
      assert (Hin' : In other (back :: others)) by (apply B; now split).
      exact (find_none _ _ Em other Hin').
Qed.

End DemoChoice.

Lemma chooseCamera_listed_witness :
  "v2"%string <> ""%string
  /\ exists cam,
       In cam [Devices.mkCamera "v1" "front camera";
               Devices.mkCamera "v2" "back camera 0";
               Devices.mkCamera "v3" "back camera 1"]
       /\ Devices.id cam = "v2"%string.
Proof.
  apply (chooseCamera_listed (fun label needle => Demo.includes needle label)
           [Devices.mkCamera "v1" "front camera";
            Devices.mkCamera "v2" "back camera 0";
            Devices.mkCamera "v3" "back camera 1"] "v2").
  reflexivity.
Defined.

Lemma chooseCamera_prefers_back_witness :
  exists before cam after,
    [Devices.mkCamera "v1" "front camera";
     Devices.mkCamera "v2" "back camera wide";
     Devices.mkCamera "v3" "back camera main";
     Devices.mkCamera "v4" "back camera 0"]
    = before ++ cam :: after
    /\ Demo.chooseCamera (fun label needle => Demo.includes needle label)
         [Devices.mkCamera "v1" "front camera";
          Devices.mkCamera "v2" "back camera wide";
          Devices.mkCamera "v3" "back camera main";
          Devices.mkCamera "v4" "back camera 0"]
       = Demo.StartCamera (Some (Devices.id cam))
    /\ Demo.isBack (fun label needle => Demo.includes needle label) cam
       = true
    /\ ((Demo.isMain (fun label needle => Demo.includes needle label) cam
         = true
         /\ forall other, In other before ->
              Demo.isBack (fun label needle => Demo.includes needle label)
                other
              && Demo.isMain (fun label needle => Demo.includes needle label)
                   other
              = false)
        \/ ((forall other,
               In other [Devices.mkCamera "v1" "front camera";
                         Devices.mkCamera "v2" "back camera wide";
                         Devices.mkCamera "v3" "back camera main";
                         Devices.mkCamera "v4" "back camera 0"] ->
               Demo.isBack (fun label needle => Demo.includes needle label)
                 other = true ->
               Demo.isMain (fun label needle => Demo.includes needle label)
                 other = false)
            /\ forall other, In other before ->
                 Demo.isBack (fun label needle => Demo.includes needle label)
                   other = false)).
Proof.
  apply (chooseCamera_prefers_back
           (fun label needle => Demo.includes needle label)
           [Devices.mkCamera "v1" "front camera";
            Devices.mkCamera "v2" "back camera wide";
            Devices.mkCamera "v3" "back camera main";
            Devices.mkCamera "v4" "back camera 0"]).
  - exists (Devices.mkCamera "v2" "back camera wide").
    split; [right; left; reflexivity|reflexivity].
  - intros cam [<-|[<-|[<-|[<-|[]]]]] _; discriminate.
Defined.

Lemma scanFile_loads_witness :
  exists w',
    Scanner.scanFile (Some 7%nat) None sampleRequested = (Return tt, w')
    /\ Scanner.children w' = []
    /\ Scanner._lastScanImageFile w' = Some 7%nat
    /\ Scanner.log w'
       = Scanner.log sampleRequested
         ++ match Scanner._lastScanImageFile sampleRequested with
            | Some previous => [Scanner.RevokeObjectURL previous]
            | None => []
            end
         ++ [Scanner.ImageSrc 7%nat]
    /\ Scanner._isScanning w' = false
    /\ Scanner._shouldScan w' = Scanner._shouldScan sampleRequested
    /\ Scanner.timers w' = Scanner.timers sampleRequested.
Proof.
  apply (scanFile_loads sampleRequested 7%nat None). reflexivity.
Defined.

Lemma onload_draws_witness :
  exists w' config,
    StillImage.onload true 600 401 400 100 Scanner.DecodeReturns
      (Scanner.constructor Scanner.MediaDevicesGetUserMedia 300 [])
    = (Return StillImage.FileResolved, w')
    /\ Region.width config <= 300
    /\ Region.height config <= 400
    /\ map Scanner.element (Scanner.children w')
       = [Scanner.Canvas "qr-canvas-visible" 300 400 "inline-block" 300 400;
          Scanner.Canvas "qr-canvas"
            (Region.width config) (Region.height config) "none"
            (Scanner.canvasSize 300 (Region.width config))
            (Scanner.canvasSize 150 (Region.height config))]
    /\ Scanner.canvasSize 150 (Region.height config)
       = Qfloor (Region.height config).
Proof.
  destruct (onload_draws
              (Scanner.constructor Scanner.MediaDevicesGetUserMedia 300 [])
              true 600 401 400 100 Scanner.DecodeReturns)
    as (w' & config & _ & _ & Hw & _ & Hh & E & C & _ & F & _).
  - reflexivity.
  - reflexivity.
  - discriminate.
  - discriminate.
  - split; vm_compute; [reflexivity|discriminate].
  - split; vm_compute; [reflexivity|discriminate].
  - split; vm_compute; [reflexivity|discriminate].
  - split; vm_compute; [reflexivity|discriminate].
  - lia.
  - exists w', config.
    split; [exact E|]. split; [exact Hw|]. split; [exact Hh|].
    split; [exact C|]. apply F. reflexivity.
Defined.

Section PlayingListener.

Import Scanner.

Lemma findEnv_id (k : nat) (envs : list StartEnv) (env : StartEnv) :
  findEnv k envs = Some env -> startId env = k.
Proof.
  intro E. apply find_some in E. destruct E as [_ E].
  now apply Nat.eqb_eq in E.
Qed.

(** What [setupUi] does for a closure of [start] whose box, if any, is not
    wider than the video: the region is the centred square when a box is
    configured and not higher than the video, the whole video otherwise;
    the canvas is created for it, appended and remembered; the shading
    elements follow. *)
Lemma setupUi_sequence (env : StartEnv) (width height : Q) (w : World) :
  isShadedBoxEnabled env
  = match configQrbox env with Some _ => true | None => false end ->
  (forall q, configQrbox env = Some q -> q <= width) ->
  exists w' canvas nodes qrRegion,
    setupUi env width height w = (Return tt, w')
    /\ qrRegion
       = match configQrbox env with
         | Some q =>
           if Qle_bool q height
           then Region.mk ((width - q) / 2) ((height - q) / 2) q q
           else Region.mk 0 0 width height
         | None => Region.mk 0 0 width height
         end
    /\ _qrRegion w' = Some qrRegion
    /\ _context w' = Some canvas
    /\ _canvasElement w' = Some canvas
    /\ element canvas
       = Canvas "qr-canvas" (Region.width qrRegion) (Region.height qrRegion)
           "none"
           (canvasSize 300 (Region.width qrRegion))
           (canvasSize 150 (Region.height qrRegion))
    /\ children w' = children w ++ canvas :: nodes
    /\ forallb isShadedRegion nodes = true
    /\ log w'
       = log w
         ++ (if gtOpt (configQrbox env) height
             then [Warn ("[Html5Qrcode] config.qrboxsize is greater "
                         ++ "than video height. Shading will be ignored")]
             else [])
         ++ [SetupUi (startId env) qrRegion]
    /\ _localMediaStream w' = _localMediaStream w
    /\ _videoElement w' = _videoElement w
    /\ _shouldScan w' = _shouldScan w
    /\ _isScanning w' = _isScanning w
    /\ timers w' = timers w
    /\ settled w' = settled w.
Proof.
  intros Hs Hw. unfold setupUi. rewrite Hs.
  destruct (configQrbox env) as [q|] eqn:Eq.
  - specialize (Hw q eq_refl). cbn [gtOpt leOpt andb].
    destruct (Qgtb q height) eqn:G.
    + assert (L : Qle_bool q height = false)
        by (apply Qle_bool_false; now apply Qgtb_true).
      rewrite L.
      do 4 eexists. split; [reflexivity|]. split; [reflexivity|]. cbn.
      rewrite <- app_assoc. repeat split.
    + assert (L : Qle_bool q height = true)
        by (apply Qle_bool_iff; now apply Qgtb_false).
      rewrite L.
      unfold bind at 1. cbn [ret]. unfold bind at 1, lift at 1.
      unfold Shading._getShadedRegionBounds.
      apply Qgtb_false in Hw. rewrite Hw, G. cbn [orb].
      unfold Shading._possiblyInsertShadingElement. cbn [Region.x Region.y].
      destruct (Qeq_bool ((width - q) / 2) 0
                && Qeq_bool ((height - q) / 2) 0).
      * do 2 eexists. exists []. eexists.
        split; [reflexivity|]. split; [reflexivity|]. cbn. repeat split.
      * do 4 eexists. split; [reflexivity|]. split; [reflexivity|]. cbn.
        rewrite <- !app_assoc. cbn [app]. repeat split.
  - cbn [gtOpt leOpt andb].
    do 2 eexists. exists []. eexists.
    split; [reflexivity|]. split; [reflexivity|]. cbn. repeat split.
Qed.

(** What the playing listener does for such a closure, on an armed
    scanner with a stream whose promise is still pending. *)
Lemma onplaying_sequence
  (w : World) (k : nat) (env : StartEnv) (m : VideoMetrics) (d : Decoded)
  (stream : MediaStream) (video : Node) :
  findEnv k (videos w) = Some env ->
  isShadedBoxEnabled env
  = match configQrbox env with Some _ => true | None => false end ->
  (forall q, configQrbox env = Some q -> q <= videoClientWidth m) ->
  _shouldScan w = true ->
  _localMediaStream w = Some stream ->
  _videoElement w = Some video ->
  isSettled k w = false ->
  exists w' qrRegion canvas nodes timer,
    step (VideoPlaying k m d) w = w'
    /\ qrRegion
       = match configQrbox env with
         | Some q =>
           if Qle_bool q (videoClientHeight m)
           then Region.mk ((videoClientWidth m - q) / 2)
                          ((videoClientHeight m - q) / 2) q q
           else Region.mk 0 0 (videoClientWidth m) (videoClientHeight m)
         | None => Region.mk 0 0 (videoClientWidth m) (videoClientHeight m)
         end
    /\ _qrRegion w' = Some qrRegion
    /\ _context w' = Some canvas
    /\ _canvasElement w' = Some canvas
    /\ element canvas
       = Canvas "qr-canvas" (Region.width qrRegion) (Region.height qrRegion)
           "none"
           (canvasSize 300 (Region.width qrRegion))
           (canvasSize 150 (Region.height qrRegion))
    /\ children w' = children w ++ canvas :: nodes
    /\ forallb isShadedRegion nodes = true
    /\ _foreverScanTimeout w' = Some timer
    /\ timers w' = timers w ++ [(timer, env)]
    /\ _isScanning w' = true
    /\ log w'
       = log w
         ++ Playing k
         :: (if gtOpt (configQrbox env) (videoClientHeight m)
             then [Warn ("[Html5Qrcode] config.qrboxsize is greater "
                         ++ "than video height. Shading will be ignored")]
             else [])
         ++ [SetupUi k qrRegion; LoopStart k;
             drawImageCall m qrRegion; Decode]
         ++ match d with
            | DecodeReturns => []
            | DecodeThrows exception =>
              [ErrorCallback (qrCodeErrorCallback env)
                 ("QR code parse error, error = " ++ exception)]
            end
         ++ [SetTimeout timer (Html5Qrcode._getTimeoutFps (configFps env));
             StartResolved k].
Proof.
  intros Hk Hb Hq Hs Hm Hv Hn.
  pose proof (findEnv_id _ _ _ Hk) as Hid.
  cbn [step]. rewrite Hk.
  unfold handler, onplaying.
  unfold bind at 1, emit at 1. cbn [modify].
  destruct (setupUi_sequence env (videoClientWidth m) (videoClientHeight m)
              (set_log (log w ++ [Playing (startId env)]) w) Hb Hq)
    as (w1 & canvas & nodes & r & E & Er & R1 & X1 & K1 & C0 & C1 & S1 & L1
        & M1 & V1 & A1 & I1 & T1 & D1).
  cbn in C1, L1, M1, V1, A1, I1, T1, D1.
  unfold bind at 1. rewrite E.
  unfold bind at 1, emit at 1. cbn [modify].
  unfold bind at 1, foreverScan.
  unfold bind at 1, get at 1.
  cbn [_shouldScan _localMediaStream _videoElement _qrRegion _context
       set_log].
  rewrite A1, Hs, M1, Hm, V1, Hv, R1, X1. cbn [negb].
  unfold resolveReceived, isSettled in *.
  rewrite <- Hid in Hn.
  destruct d as [|exception];
    (eexists; exists r, canvas, nodes, (fresh w1);
     split; [cbn; rewrite D1, Hn; reflexivity|];
     split; [exact Er|];
     cbn; rewrite C1, T1, L1, <- Hid;
     repeat (rewrite <- app_assoc; cbn [app]);
     repeat split; first [assumption | reflexivity]).
Qed.

End PlayingListener.

Section StartResolution.

Import Scanner.

Lemma run_app (actions actions' : list Action) (w : World) :
  run (actions ++ actions') w = run actions' (run actions w).
Proof.
  revert w. induction actions as [|a actions IH]; intro w; [reflexivity|].
  cbn [app run]. apply IH.
Qed.

Lemma validWorld_run (actions : list Action) (w : World) :
  validWorld w -> validWorld (run actions w).
Proof.
  revert w. induction actions as [|a actions IH]; intros w H; [exact H|].
  cbn [run]. apply IH. now apply keepsValid_step.
Qed.

(** C8: in every run of a scanner,
    - a promise returned by [start] is resolved only after the playing
      listener of that call was entered, then the viewfinder geometry was
      set up, then the scan loop was started, in this order, and
      [_isScanning] is true only when such a promise has been resolved;
    - every effect of a scan iteration (a frame copied, the decoder called,
      its error reported, an iteration scheduled) comes after the entry of
      a playing listener, and as long as none was entered there is no
      region, no drawing context, no canvas and no scheduled iteration, and
      [_isScanning] is false;
    - when the playing event of a call whose stream was received fires on
      an armed scanner, its listener computes the geometry (the centred
      square when a box is configured and not higher than the video, the
      whole video otherwise), creates and appends the canvas for it, runs
      the first iteration of the scan loop (one frame copied, the decoder
      called, the next iteration scheduled), and only then resolves the
      promise and sets [_isScanning]. *)
Theorem start_resolves_after_setup
  (nav : Navigator) (width : Q) (nodes : list Node) (actions : list Action) :
  (forall k pre post,
     log (run actions (constructor nav width nodes))
     = pre ++ StartResolved k :: post ->
     exists a b c d qrRegion,
       pre = a ++ Playing k
               :: b ++ SetupUi k qrRegion
               :: c ++ LoopStart k :: d)
  /\ (_isScanning (run actions (constructor nav width nodes)) = true ->
      exists k pre post,
        log (run actions (constructor nav width nodes))
        = pre ++ StartResolved k :: post)
  /\ (forall pre e post,
        log (run actions (constructor nav width nodes)) = pre ++ e :: post ->
        isScanEvent e = true ->
        exists k, In (Playing k) pre)
  /\ ((forall k,
         ~ In (Playing k) (log (run actions (constructor nav width nodes)))) ->
      _qrRegion (run actions (constructor nav width nodes)) = None
      /\ _context (run actions (constructor nav width nodes)) = None
      /\ _canvasElement (run actions (constructor nav width nodes)) = None
      /\ timers (run actions (constructor nav width nodes)) = []
      /\ _isScanning (run actions (constructor nav width nodes)) = false)
  /\ (forall k env m d stream video,
        findEnv k (videos (run actions (constructor nav width nodes)))
        = Some env ->
        (forall q, configQrbox env = Some q -> q <= videoClientWidth m) ->
        _shouldScan (run actions (constructor nav width nodes)) = true ->
        _localMediaStream (run actions (constructor nav width nodes))
        = Some stream ->
        _videoElement (run actions (constructor nav width nodes))
        = Some video ->
        isSettled k (run actions (constructor nav width nodes)) = false ->
        exists w' qrRegion canvas shading timer,
          run (actions ++ [VideoPlaying k m d]) (constructor nav width nodes)
          = w'
          /\ qrRegion
             = match configQrbox env with
               | Some q =>
                 if Qle_bool q (videoClientHeight m)
                 then Region.mk ((videoClientWidth m - q) / 2)
                                ((videoClientHeight m - q) / 2) q q
                 else Region.mk 0 0 (videoClientWidth m)
                                (videoClientHeight m)
               | None =>
                 Region.mk 0 0 (videoClientWidth m) (videoClientHeight m)
               end
          /\ _qrRegion w' = Some qrRegion
          /\ _context w' = Some canvas
          /\ _canvasElement w' = Some canvas
          /\ element canvas
             = Canvas "qr-canvas"
                 (Region.width qrRegion) (Region.height qrRegion) "none"
                 (canvasSize 300 (Region.width qrRegion))
                 (canvasSize 150 (Region.height qrRegion))
          /\ children w'
             = children (run actions (constructor nav width nodes))
               ++ canvas :: shading
          /\ forallb isShadedRegion shading = true
          /\ _foreverScanTimeout w' = Some timer
          /\ timers w'
             = timers (run actions (constructor nav width nodes))
               ++ [(timer, env)]
          /\ _isScanning w' = true
          /\ log w'
             = log (run actions (constructor nav width nodes))
               ++ Playing k
               :: (if gtOpt (configQrbox env) (videoClientHeight m)
                   then [Warn ("[Html5Qrcode] config.qrboxsize is greater "
                               ++ "than video height. "
                               ++ "Shading will be ignored")]
                   else [])
               ++ [SetupUi k qrRegion; LoopStart k;
                   drawImageCall m qrRegion; Decode]
               ++ match d with
                  | DecodeReturns => []
                  | DecodeThrows exception =>
                    [ErrorCallback (qrCodeErrorCallback env)
                       ("QR code parse error, error = " ++ exception)]
                  end
               ++ [SetTimeout timer
                     (Html5Qrcode._getTimeoutFps (configFps env));
                   StartResolved k]).
Proof.
  destruct (startOrder_run actions (constructor nav width nodes)
              (startOrder_constructor nav width nodes)) as [O I].
  destruct (afterPlaying_run actions (constructor nav width nodes)
              (afterPlaying_constructor nav width nodes)) as [J1 J2].
  assert (V : validWorld (run actions (constructor nav width nodes))).
  { apply validWorld_run. repeat split; constructor. }
  set (w := run actions (constructor nav width nodes)) in *.
  split; [exact O|]. split.
  { intro T. destruct (I T) as [k Hin].
    apply in_split in Hin. destruct Hin as (pre & post & E).
    now exists k, pre, post. }
  split; [exact J1|]. split.
  { intro N. destruct (J2 N) as (R0 & X0 & C0 & T0).
    do 4 (split; [assumption|]).
    destruct (_isScanning w) eqn:S; [exfalso|reflexivity].
    destruct (I eq_refl) as [k Hin].
    apply in_split in Hin. destruct Hin as (pre & post & E).
    destruct (O k pre post E) as (a & b & c & d & r & ->).
    apply (N k). rewrite E. apply in_or_app. left.
    apply in_or_app. right. now left. }
  intros k env m d stream video Hk Hq Hs Hm Hv Hn.
  destruct V as (_ & VV & _ & _).
  destruct (findEnv_valid k (videos w) env VV Hk) as (_ & Hb & _).
  destruct (onplaying_sequence w k env m d stream video Hk Hb Hq Hs Hm Hv Hn)
    as (w' & r & canvas & shading & timer & E & F).
  exists w', r, canvas, shading, timer.
  split; [|exact F].
  rewrite run_app. exact E.
Qed.

End StartResolution.

Lemma start_resolves_after_setup_witness :
  exists w' qrRegion canvas shading timer,
    Scanner.run (firstn 2 sampleSession
                 ++ [Scanner.VideoPlaying 0 sampleMetrics
                       Scanner.DecodeReturns])
      (Scanner.constructor Scanner.MediaDevicesGetUserMedia 300 []) = w'
    /\ qrRegion = Region.mk ((300 - 200) / 2) ((250 - 200) / 2) 200 200
    /\ Scanner._qrRegion w' = Some qrRegion
    /\ Scanner._context w' = Some canvas
    /\ Scanner._canvasElement w' = Some canvas
    /\ Scanner.element canvas
       = Scanner.Canvas "qr-canvas" 200 200 "none" 200 200
    /\ Scanner.children w'
       = Scanner.children sampleGranted ++ canvas :: shading
    /\ forallb Scanner.isShadedRegion shading = true
    /\ Scanner._foreverScanTimeout w' = Some timer
    /\ Scanner.timers w' = Scanner.timers sampleGranted ++ [(timer, sampleEnv)]
    /\ Scanner._isScanning w' = true
    /\ Scanner.log w'
       = Scanner.log sampleGranted
         ++ [Scanner.Playing 0;
             Scanner.SetupUi 0 qrRegion; Scanner.LoopStart 0;
             Scanner.drawImageCall sampleMetrics qrRegion; Scanner.Decode;
             Scanner.SetTimeout timer (1000 / 2); Scanner.StartResolved 0].
Proof.
  destruct (start_resolves_after_setup Scanner.MediaDevicesGetUserMedia
              300 [] (firstn 2 sampleSession)) as (_ & _ & _ & _ & H).
  destruct (H 0%nat sampleEnv sampleMetrics Scanner.DecodeReturns
              (Scanner.mkStream 0 1)
              (Scanner.mkNode 1 (Scanner.Video 300 true true
                                   (Scanner.mkStream 0 1))))
    as (w' & r & canvas & shading & timer & E & Er & F).
  - reflexivity.
  - intros q [= <-]. discriminate.
  - reflexivity.
  - reflexivity.
  - reflexivity.
  - reflexivity.
  - exists w', r, canvas, shading, timer.
    split; [exact E|]. split; [exact Er|]. subst r. exact F.
Defined.
